(** * Slideshow pipeline of [backend(2).py]: a shallow embedding

    The development follows [_create_video_from_images_and_music_logic],
    [resolve_file_id_to_path], [get_y_position] and the endpoint
    [create_video_from_images].  Durations and time stamps, which are Python
    floats in the source, are exact rationals here; rounding is outside the
    model.  The pan position, where overflow decides the outcome, is on
    binary64 floats.  Python objects carry an identity ([oid]) so that
    aliasing between the variables of the pipeline is visible to the cleanup
    block. *)

From Stdlib Require Import QArith Lqa Ascii Floats.
From stdpp Require Import gmap strings list.

Local Open Scope Q_scope.

(** ** Python comparisons and [min]/[max] on numbers *)

Module Py.

Definition ltb (a b : Q) : bool := negb (Qle_bool b a).
Definition leb (a b : Q) : bool := Qle_bool a b.
Definition gtb (a b : Q) : bool := ltb b a.
Definition geb (a b : Q) : bool := leb b a.
Definition eqb (a b : Q) : bool := Qeq_bool a b.

(** [max(a, b)] keeps [a] unless [b > a]; [min(a, b)] keeps [a] unless
    [b < a]. *)
Definition max (a b : Q) : Q := if gtb b a then b else a.
Definition min (a b : Q) : Q := if ltb b a then b else a.

End Py.

(** ** The media library, as far as the pipeline observes it

    The definitions of this module follow moviepy 1.0.3, the library behind
    [import moviepy.editor as mp].  Only durations, time stamps, canvas sizes
    and object identity are kept; pixels and samples are not. *)

Module mp.

(** Clip objects.  [clip_fade] records the length of the mask fade-out
    installed by [crossfadeout], [clip_audio] the attached audio track.
    [audio_frames_ok] says whether [get_frame] succeeds on the track. *)
Record AudioClip := mkAudioClip {
  aoid : nat;
  audio_duration : Q;
  audio_reader : bool;
  audio_frames_ok : bool
}.

Record VideoClip := mkVideoClip {
  oid : nat;
  clip_size : Z * Z;
  clip_duration : option Q;
  clip_start : Q;
  clip_end : option Q;
  clip_fade : option Q;
  clip_audio : option AudioClip
}.

(** A method that returns a new object gives it a fresh identity. *)
Definition with_oid (c : VideoClip) (o : nat) : VideoClip :=
  {| oid := o; clip_size := clip_size c; clip_duration := clip_duration c;
     clip_start := clip_start c; clip_end := clip_end c;
     clip_fade := clip_fade c; clip_audio := clip_audio c |}.

Definition with_aoid (a : AudioClip) (o : nat) : AudioClip :=
  {| aoid := o; audio_duration := audio_duration a;
     audio_reader := audio_reader a; audio_frames_ok := audio_frames_ok a |}.

(** [ImageClip(img)]: an image of the given size, no duration yet
    (or the one given by the [duration=] keyword). *)
Definition ImageClip (sz : Z * Z) (duration : option Q) : VideoClip :=
  {| oid := 0; clip_size := sz; clip_duration := duration; clip_start := 0;
     clip_end := duration; clip_fade := None; clip_audio := None |}.

(** [Clip.set_duration(t)], with [change_end=True]: [self.duration = t] and
    [self.end = None if t is None else self.start + t]. *)
Definition set_duration (c : VideoClip) (t : option Q) : VideoClip :=
  {| oid := oid c; clip_size := clip_size c; clip_duration := t;
     clip_start := clip_start c;
     clip_end := (fun x => clip_start c + x) <$> t;
     clip_fade := clip_fade c; clip_audio := clip_audio c |}.

(** [Clip.set_start(t)], with [change_end=True]: the end moves with the
    start when the clip has a duration; otherwise the duration is derived
    from the end when there is one. *)
Definition set_start (c : VideoClip) (t : Q) : VideoClip :=
  match clip_duration c, clip_end c with
  | Some d, _ =>
      {| oid := oid c; clip_size := clip_size c; clip_duration := Some d;
         clip_start := t; clip_end := Some (t + d);
         clip_fade := clip_fade c; clip_audio := clip_audio c |}
  | None, Some e =>
      {| oid := oid c; clip_size := clip_size c; clip_duration := Some (e - t);
         clip_start := t; clip_end := Some e;
         clip_fade := clip_fade c; clip_audio := clip_audio c |}
  | None, None =>
      {| oid := oid c; clip_size := clip_size c; clip_duration := None;
         clip_start := t; clip_end := None;
         clip_fade := clip_fade c; clip_audio := clip_audio c |}
  end.

(** [resize], [crop], [set_position] and [fx(vfx.rotate, ...)] transform
    frames only: timing is untouched.  [with_size] is the part of them the
    pipeline observes. *)
Definition with_size (c : VideoClip) (sz : Z * Z) : VideoClip :=
  {| oid := oid c; clip_size := sz; clip_duration := clip_duration c;
     clip_start := clip_start c; clip_end := clip_end c;
     clip_fade := clip_fade c; clip_audio := clip_audio c |}.

(** [transfx.crossfadeout(clip, duration)]: a copy of the clip whose mask
    fades out over the last [duration] seconds.  The clip's own duration,
    start and end are those of the original. *)
Definition crossfadeout (c : VideoClip) (t : Q) : VideoClip :=
  {| oid := oid c; clip_size := clip_size c; clip_duration := clip_duration c;
     clip_start := clip_start c; clip_end := clip_end c;
     clip_fade := Some t; clip_audio := clip_audio c |}.

(** [VideoClip.set_audio(a)]: a copy of the clip with [a] as its audio. *)
Definition set_audio (c : VideoClip) (a : option AudioClip) : VideoClip :=
  {| oid := oid c; clip_size := clip_size c; clip_duration := clip_duration c;
     clip_start := clip_start c; clip_end := clip_end c;
     clip_fade := clip_fade c;
     clip_audio := a |}.

(** [CompositeVideoClip(clips, size=sz, use_bgclip=b)]: the duration is the
    latest end among the layers (the first one apart when it is the
    background), [None] as soon as one layer has no end. *)
Fixpoint latest_end (ends : list (option Q)) : option Q :=
  match ends with
  | [] => Some 0
  | None :: _ => None
  | Some e :: rest =>
      match latest_end rest with
      | Some m => Some (Py.max m e)
      | None => None
      end
  end.

Definition CompositeVideoClip (clips : list VideoClip) (sz : Z * Z)
    (use_bgclip : bool) : VideoClip :=
  let d := latest_end (clip_end <$> (if use_bgclip then tail clips else clips)) in
  {| oid := 0; clip_size := sz; clip_duration := d; clip_start := 0;
     clip_end := d; clip_fade := None; clip_audio := None |}.

(** [concatenate_videoclips(clips, method="compose")] with the default
    [padding=0]: [tt = cumsum([0] + durations)], clip [i] starts at [tt[i]]
    and the result has [duration = end = tt[-1]], the plain sum of the
    clips' durations; its size is the largest width and height.  Callers
    only pass clips that have a duration. *)
Definition sum_durations (clips : list VideoClip) : Q :=
  fold_left (fun acc c => acc + default 0 (clip_duration c)) clips 0.

Definition max_size (clips : list VideoClip) : Z * Z :=
  fold_left (fun acc c => (Z.max (fst acc) (fst (clip_size c)),
                           Z.max (snd acc) (snd (clip_size c))))
            clips (0%Z, 0%Z).

Definition concatenate_videoclips (clips : list VideoClip) : VideoClip :=
  let t := sum_durations clips in
  {| oid := 0; clip_size := max_size clips; clip_duration := Some t;
     clip_start := 0; clip_end := Some t; clip_fade := None;
     clip_audio := None |}.

(** [Clip.subclip(t_start, t_end)]: a negative [t_start] counts from the
    end of the clip; [ValueError] (here [None]) when [t_start] is then past
    the clip's duration; [t_end] defaults to the clip's duration and counts
    from the end when negative; the new duration is [t_end - t_start].
    [t_end] is not clamped to the clip.  The difference is exact here and
    rounded in the source; statements about the audio stage are made
    where the two agree on every comparison. *)
Definition subclip (a : AudioClip) (t_start : Q) (t_end : option Q)
  : option AudioClip :=
  let t_start :=
    if Py.ltb t_start 0 then audio_duration a + t_start else t_start in
  if Py.gtb t_start (audio_duration a) then None
  else
    let t_end :=
      match t_end with
      | None => audio_duration a
      | Some e => if Py.ltb e 0 then audio_duration a + e else e
      end in
    Some {| aoid := aoid a; audio_duration := t_end - t_start;
            audio_reader := audio_reader a;
            audio_frames_ok := audio_frames_ok a |}.

(** The names bound in [moviepy.video.fx.all] (one per module of
    [moviepy/video/fx]) and in [moviepy.audio.fx.all]. *)
Definition video_fx_all : list string :=
  ["accel_decel"; "blackwhite"; "blink"; "colorx"; "crop"; "even_size";
   "fadein"; "fadeout"; "freeze"; "freeze_region"; "gamma_corr"; "headblur";
   "invert_colors"; "loop"; "lum_contrast"; "make_loopable"; "margin";
   "mask_and"; "mask_color"; "mask_or"; "mirror_x"; "mirror_y"; "painting";
   "resize"; "rotate"; "scroll"; "speedx"; "supersample"; "time_mirror";
   "time_symmetrize"]%string.

Definition audio_fx_all : list string :=
  ["audio_fadein"; "audio_fadeout"; "audio_left_right"; "audio_loop";
   "audio_normalize"; "volumex"]%string.

(** [audio_loop(clip, duration=d)]: the clip tiled and cut to [d]. *)
Definition audio_loop (a : AudioClip) (d : Q) : AudioClip :=
  {| aoid := aoid a; audio_duration := d; audio_reader := audio_reader a;
     audio_frames_ok := audio_frames_ok a |}.

End mp.

(** ** Paths ([posixpath]) *)

Module posixpath.

(** [s.rfind(c)]: the index of the last [c] in [s], or -1. *)
Fixpoint rfind_from (c : ascii) (s : string) (i last : Z) : Z :=
  match s with
  | EmptyString => last
  | String a rest =>
      rfind_from c rest (i + 1) (if Ascii.eqb a c then i else last)
  end.

Definition rfind (c : ascii) (s : string) : Z := rfind_from c s 0 (-1).

(** [s[:i]] and [s[i:]] for [0 <= i]. *)
Definition slice_to (s : string) (i : Z) : string :=
  String.substring 0 (Z.to_nat i) s.

Definition slice_from (s : string) (i : Z) : string :=
  String.substring (Z.to_nat i) (String.length s - Z.to_nat i) s.

(** [os.path.basename(p)]: what follows the last slash. *)
Definition basename (p : string) : string := slice_from p (rfind "/" p + 1).

(** The directory a path's last component is an entry of: what precedes
    the last slash ([os.path.dirname] for a path with no doubled or
    leading slash). *)
Definition dirname (p : string) : string := slice_to p (rfind "/" p).

(** [os.path.splitext(p)]: the extension starts at the last dot,
    provided that dot comes after the last slash and after a character of
    the file name that is not a dot. *)
Definition char_is (s : string) (i : Z) (c : ascii) : bool :=
  match String.get (Z.to_nat i) s with
  | Some a => Ascii.eqb a c
  | None => false
  end.

Definition splitext (p : string) : string * string :=
  let sepIndex := rfind "/" p in
  let dotIndex := rfind "." p in
  if (sepIndex <? dotIndex)%Z
     && existsb (fun k => negb (char_is p (sepIndex + 1 + Z.of_nat k) "."))
                (seq 0 (Z.to_nat (dotIndex - (sepIndex + 1))))
  then (slice_to p dotIndex, slice_from p dotIndex)
  else (p, "").

(** Whether the system takes [name] as the last component of a path to
    create: not empty, not [.] or [..], at most [NAME_MAX] bytes, no NUL
    byte. *)
Definition NAME_MAX : nat := 255.

Fixpoint has_char (c : ascii) (s : string) : bool :=
  match s with
  | EmptyString => false
  | String a rest => Ascii.eqb a c || has_char c rest
  end.

Definition valid_name (name : string) : bool :=
  negb (String.eqb name "") && negb (String.eqb name ".")
  && negb (String.eqb name "..")
  && (String.length name <=? NAME_MAX)%nat
  && negb (has_char Ascii.zero name).

End posixpath.

(** ** The service: data model, file system and control flow *)

Module Backend.
Export posixpath.

Definition UPLOAD_DIR : string := "uploaded_files".
Definition OUTPUT_DIR : string := "processed_outputs".
Definition MAX_IMAGES : nat := 5.

(** What a file on disk decodes to.  An audio track has a duration and may
    or may not yield frames. *)
Inductive Content :=
| Undecodable
| ImageData (w h : Z)
| AudioData (track_duration : Q) (frames_ok : bool)
| VideoData.

Record File := mkFile {
  f_size : N;
  f_readable : bool;
  f_content : Content
}.

(** [dirs] is what [os.listdir] answers, in its order; [files] is what
    [os.path.exists], [os.access], [os.path.getsize] and the decoders see.
    A name can be listed and gone by the time it is opened.  [refuses]
    holds of the paths the system lets no file be created at for a reason
    the listings do not show (permissions, quota). *)
Record FS := mkFS {
  dirs : gmap string (list string);
  files : gmap string File;
  refuses : string -> bool
}.

(** The names listed under a directory, none when the directory is not
    there.  [os.listdir] itself, which raises on a missing directory, is
    [os_listdir] below. *)
Definition listdir (disk : FS) (directory : string) : list string :=
  default [] (dirs disk !! directory).

(** A new name enters the listing of its directory where the system puts
    it: [pos]. *)
Definition listing_add (pos : nat) (name : string) (l : list string)
  : list string :=
  if bool_decide (name ∈ l) then l else take pos l ++ name :: drop pos l.

(** Creating (or truncating) the file at [path] for writing: the directory
    of [path] must exist, its last component must be a name the system
    takes, [path] must not be a directory, and the system must not refuse.
    [None] stands for the [OSError] (or [ValueError], for a NUL byte) the
    creation raises. *)
Definition creat (pos : nat) (path : string) (f : File) (disk : FS)
  : option FS :=
  match dirs disk !! dirname path with
  | Some names =>
      if valid_name (basename path) && bool_decide (dirs disk !! path = None)
         && negb (refuses disk path)
      then Some {| dirs := <[dirname path :=
                              listing_add pos (basename path) names]>
                             (dirs disk);
                   files := <[path := f]> (files disk);
                   refuses := refuses disk |}
      else None
  | None => None
  end.

(** [os.remove(path)] where it succeeds: the file is gone and so is its
    name in the listing of its directory. *)
Definition unlink (path : string) (disk : FS) : FS :=
  {| dirs := alter (List.filter (fun f => negb (String.eqb f (basename path))))
                   (dirname path) (dirs disk);
     files := delete path (files disk);
     refuses := refuses disk |}.

Inductive Position := top | center | bottom.

Record TextOverlay := mkTextOverlay {
  text : string;
  style : string;
  image_index : option Z;
  position : Position
}.

(** Python exceptions the pipeline can meet, and its control flow: a
    statement falls through with a value, returns [(ok, message)], or
    raises. *)
Inductive Exn :=
| ValueError (msg : string)
| AttributeError (msg : string)
| TypeError (msg : string)
| OSError (msg : string)
| FileNotFoundError (path : string).

(** The second component of the pair returned by the logic function. *)
Inductive Message :=
| OutputPath (p : string)
| NoValidImageClips
| AudioFileDoesNotExist (p : string)
| AudioFileNotReadable (p : string)
| AudioFileEmpty (p : string)
| AudioReaderInitFailed
| AudioReaderGetFrameFailed
| MusicStartBeyondDuration
| FailedDuringAudioProcessing (e : Exn)
| VideoHasNoDuration
| FinalAudioNoMakeFrame
| FinalAudioGetFrameFailed
| InternalError (e : Exn).

Inductive Ctl :=
| Return (ok : bool) (m : Message)
| Raise (e : Exn).

(** The local variables the cleanup block reads, and the world around
    them: the next object identity, the log of [close()] calls, the log of
    [AudioFileClip(path)] calls, the disk, the encoder's verdict, the paths
    [os.remove] succeeds on, and the place the system gives a new name in
    a listing. *)
Record St := mkSt {
  processed_image_clips : list mp.VideoClip;
  base_video : option mp.VideoClip;
  final_video_clip : option mp.VideoClip;
  text_clips_to_composite : list mp.VideoClip;
  full_audio_clip_main : option mp.AudioClip;
  temp_audio_segment_intermediate : option mp.AudioClip;
  audio_segment_final_for_video : option mp.AudioClip;
  next_oid : nat;
  closed : list nat;
  audio_opens : list string;
  fs : FS;
  encoder_ok : bool;
  remove_ok : string -> bool;
  new_name_pos : nat
}.

(** The state a call starts in, on a system where [os.remove] succeeds
    and new names are listed first. *)
Definition initial (disk : FS) (enc : bool) : St :=
  {| processed_image_clips := []; base_video := None;
     final_video_clip := None; text_clips_to_composite := [];
     full_audio_clip_main := None; temp_audio_segment_intermediate := None;
     audio_segment_final_for_video := None;
     next_oid := 1; closed := []; audio_opens := []; fs := disk;
     encoder_ok := enc; remove_ok := fun _ => true; new_name_pos := 0 |}.

Definition M (A : Type) : Type := St -> (A + Ctl) * St.

Definition ret {A} (a : A) : M A := fun st => (inl a, st).

Definition bind {A B} (m : M A) (k : A -> M B) : M B :=
  fun st =>
    match m st with
    | (inl a, st') => k a st'
    | (inr c, st') => (inr c, st')
    end.

Definition exit {A} (c : Ctl) : M A := fun st => (inr c, st).
Definition raise {A} (e : Exn) : M A := exit (Raise e).
Definition return_ {A} (ok : bool) (m : Message) : M A := exit (Return ok m).

(** [try: m except Exception as e: h e]: a [return] inside [m] is not an
    exception and passes through. *)
Definition try_except {A} (m : M A) (h : Exn -> M A) : M A :=
  fun st =>
    match m st with
    | (inr (Raise e), st') => h e st'
    | r => r
    end.

Definition get {A} (proj : St -> A) : M A := fun st => (inl (proj st), st).
Definition modify (f : St -> St) : M unit := fun st => (inl tt, f st).

#[export] Instance M_ret : MRet M := @ret.
#[export] Instance M_bind : MBind M := fun A B k m => bind m k.

Definition when (b : bool) (m : M unit) : M unit := if b then m else ret tt.

(** [for i, x in enumerate(l): body i x], counting from [i]. *)
Fixpoint for_enumerate {A} (i : nat) (l : list A) (body : nat -> A -> M unit)
  : M unit :=
  match l with
  | [] => ret tt
  | x :: rest => body i x;; for_enumerate (S i) rest body
  end.

(** Assignments to the local variables. *)
Definition upd (st : St)
    (pic : list mp.VideoClip) (bv fv : option mp.VideoClip)
    (tc : list mp.VideoClip) (fa ta af : option mp.AudioClip) : St :=
  {| processed_image_clips := pic; base_video := bv; final_video_clip := fv;
     text_clips_to_composite := tc; full_audio_clip_main := fa;
     temp_audio_segment_intermediate := ta;
     audio_segment_final_for_video := af;
     next_oid := next_oid st; closed := closed st;
     audio_opens := audio_opens st; fs := fs st;
     encoder_ok := encoder_ok st; remove_ok := remove_ok st;
     new_name_pos := new_name_pos st |}.

Definition append_processed (c : mp.VideoClip) : M unit :=
  modify (fun st => upd st (processed_image_clips st ++ [c]) (base_video st)
    (final_video_clip st) (text_clips_to_composite st)
    (full_audio_clip_main st) (temp_audio_segment_intermediate st)
    (audio_segment_final_for_video st)).

Definition set_base_video (c : mp.VideoClip) : M unit :=
  modify (fun st => upd st (processed_image_clips st) (Some c)
    (final_video_clip st) (text_clips_to_composite st)
    (full_audio_clip_main st) (temp_audio_segment_intermediate st)
    (audio_segment_final_for_video st)).

Definition set_final_video_clip (c : mp.VideoClip) : M unit :=
  modify (fun st => upd st (processed_image_clips st) (base_video st)
    (Some c) (text_clips_to_composite st)
    (full_audio_clip_main st) (temp_audio_segment_intermediate st)
    (audio_segment_final_for_video st)).

Definition append_text_clip (c : mp.VideoClip) : M unit :=
  modify (fun st => upd st (processed_image_clips st) (base_video st)
    (final_video_clip st) (text_clips_to_composite st ++ [c])
    (full_audio_clip_main st) (temp_audio_segment_intermediate st)
    (audio_segment_final_for_video st)).

Definition set_full_audio_clip_main (a : mp.AudioClip) : M unit :=
  modify (fun st => upd st (processed_image_clips st) (base_video st)
    (final_video_clip st) (text_clips_to_composite st)
    (Some a) (temp_audio_segment_intermediate st)
    (audio_segment_final_for_video st)).

Definition set_temp_audio_segment_intermediate (a : mp.AudioClip) : M unit :=
  modify (fun st => upd st (processed_image_clips st) (base_video st)
    (final_video_clip st) (text_clips_to_composite st)
    (full_audio_clip_main st) (Some a)
    (audio_segment_final_for_video st)).

Definition set_audio_segment_final_for_video (a : option mp.AudioClip)
  : M unit :=
  modify (fun st => upd st (processed_image_clips st) (base_video st)
    (final_video_clip st) (text_clips_to_composite st)
    (full_audio_clip_main st) (temp_audio_segment_intermediate st) a).

(** Changes to the world. *)
Definition with_world (st : St) (n : nat) (cl : list nat)
    (ao : list string) (disk : FS) : St :=
  {| processed_image_clips := processed_image_clips st;
     base_video := base_video st; final_video_clip := final_video_clip st;
     text_clips_to_composite := text_clips_to_composite st;
     full_audio_clip_main := full_audio_clip_main st;
     temp_audio_segment_intermediate := temp_audio_segment_intermediate st;
     audio_segment_final_for_video := audio_segment_final_for_video st;
     next_oid := n; closed := cl; audio_opens := ao; fs := disk;
     encoder_ok := encoder_ok st; remove_ok := remove_ok st;
     new_name_pos := new_name_pos st |}.

(** A freshly created object gets the next identity. *)
Definition obj (c : mp.VideoClip) : M mp.VideoClip :=
  fun st => (inl (mp.with_oid c (next_oid st)),
             with_world st (S (next_oid st)) (closed st) (audio_opens st)
                        (fs st)).

Definition aobj (a : mp.AudioClip) : M mp.AudioClip :=
  fun st => (inl (mp.with_aoid a (next_oid st)),
             with_world st (S (next_oid st)) (closed st) (audio_opens st)
                        (fs st)).

(** [clip.close()], as the pipeline calls it: one entry in the log. *)
Definition close_oid (o : nat) (st : St) : St :=
  with_world st (next_oid st) (closed st ++ [o]) (audio_opens st) (fs st).

(** [x.method(...)] on a variable that may hold [None]. *)
Definition the {A} (o : option A) : M A :=
  match o with
  | Some a => ret a
  | None => raise (AttributeError "'NoneType' object has no attribute")
  end.

(** [vfx.name] with [import moviepy.video.fx.all as vfx]. *)
Definition vfx_getattr (name : string) : M unit :=
  if bool_decide (name ∈ mp.video_fx_all) then ret tt
  else raise (AttributeError
    ("module 'moviepy.video.fx.all' has no attribute '" +:+ name +:+ "'")).

(** [Image.open(path).convert("RGB")]: the size of the picture, or
    [OSError] when the file is absent, unreadable or not a picture. *)
Definition Image_open (path : string) : M (Z * Z) :=
  f ← get (fun st => files (fs st) !! path);
  match f with
  | Some {| f_readable := true; f_content := ImageData w h |} => ret (w, h)
  | _ => raise (OSError ("cannot identify image file " +:+ path))
  end.

(** [mp.AudioFileClip(path)]: every call is logged. *)
Definition AudioFileClip (path : string) : M mp.AudioClip :=
  modify (fun st => with_world st (next_oid st) (closed st)
                      (audio_opens st ++ [path]) (fs st));;
  f ← get (fun st => files (fs st) !! path);
  match f with
  | Some {| f_readable := true; f_content := AudioData d ok |} =>
      aobj {| mp.aoid := 0; mp.audio_duration := d; mp.audio_reader := true;
              mp.audio_frames_ok := ok |}
  | _ => raise (OSError ("MoviePy error: failed to read " +:+ path))
  end.

Definition subclip (a : mp.AudioClip) (t_start : Q) (t_end : option Q)
  : M mp.AudioClip :=
  match mp.subclip a t_start t_end with
  | Some a' => aobj a'
  | None => raise (ValueError "t_start should be smaller than the clip's duration")
  end.

(** [final_video_clip.write_videofile(path, ...)]: the encoder creates the
    file and writes it, or leaves what it wrote so far and raises; it
    raises at once when the file cannot be created. *)
Definition write_videofile (path : string) (fps : Z) : M unit :=
  fun st =>
    let written :=
      if encoder_ok st then mkFile 1 true VideoData
      else mkFile 0 true Undecodable in
    match creat (new_name_pos st) path written (fs st) with
    | Some disk =>
        (if encoder_ok st then inl tt
         else inr (Raise (OSError "MoviePy error: FFMPEG encountered an error")),
         with_world st (next_oid st) (closed st) (audio_opens st) disk)
    | None =>
        (inr (Raise (OSError "MoviePy error: FFMPEG encountered an error")), st)
    end.

Inductive Animation := up_down | rotate.

Definition scaled (sz : Z * Z) (num den : Z) : Z * Z :=
  ((fst sz * num / den)%Z, (snd sz * num / den)%Z).

(** ** [_create_video_from_images_and_music_logic] *)

Section Logic.

Variables (image_paths : list string) (audio_path output_path : string).
Variables (image_display_duration transition_duration : Q).
Variable music_segment_start_time : Q.
Variable audio_segment_duration_from_music : option Q.
Variable fps : Z.
Variable texts : option (list TextOverlay).
Variable video_size : Z * Z.
Variable enable_image_animations : bool.

(** Lines 204-206. *)
Definition animation_type : Animation :=
  match texts with
  | Some [t] =>
      if enable_image_animations && bool_decide (image_index t = None)
      then rotate else up_down
  | _ => up_down
  end.

(** Lines 301-304: the fade-out length of a slide that is followed by a
    transition. *)
Definition actual_transition (clip_dur : Q) : Q :=
  if Py.geb transition_duration clip_dur
  then Py.max (1 # 10) (clip_dur * (1 # 2))
  else transition_duration.

(** Lines 240-250: scale to cover the canvas, then crop to it. *)
Definition resized_size (sz : Z * Z) : Z * Z :=
  let '(w, h) := sz in
  let '(video_w, video_h) := video_size in
  let img_aspect := if (0 <? h)%Z then inject_Z w / inject_Z h else 1 in
  let video_aspect :=
    if (0 <? video_h)%Z then inject_Z video_w / inject_Z video_h else 1 in
  if Py.gtb img_aspect video_aspect
  then ((w * video_h / h)%Z, video_h)
  else (video_w, (h * video_w / w)%Z).

(** Lines 255-294: the animated slide composited on a transparent canvas. *)
Definition animate (cropped_clip : mp.VideoClip) : M mp.VideoClip :=
  animated_content_clip ←
    match animation_type with
    | up_down =>
        content_to_animate ←
          obj (mp.with_size cropped_clip (scaled (mp.clip_size cropped_clip) 11 10));
        let current_image_effect_duration := mp.clip_duration cropped_clip in
        positioned ← obj content_to_animate;
        obj (mp.set_duration positioned current_image_effect_duration)
    | rotate =>
        vfx_getattr "rotate";;
        rotated ← obj cropped_clip;
        resized ← obj (mp.with_size rotated (scaled (mp.clip_size rotated) 12 10));
        obj (mp.set_duration resized (mp.clip_duration cropped_clip))
    end;
  background_canvas ←
    obj (mp.ImageClip video_size (mp.clip_duration cropped_clip));
  centered ← obj animated_content_clip;
  composite ←
    obj (mp.CompositeVideoClip [background_canvas; centered] video_size true);
  obj (mp.set_duration composite (mp.clip_duration cropped_clip)).

(** Lines 297-307. *)
Definition crossfade (i : nat) (clip : mp.VideoClip) : M mp.VideoClip :=
  if (Z.of_nat i <? Z.of_nat (length image_paths) - 1)%Z
     && Py.gtb transition_duration 0
  then
    match mp.clip_duration clip with
    | None => raise (ValueError "Clip has invalid duration before crossfade.")
    | Some d =>
        if Py.leb d 0
        then raise (ValueError "Clip has invalid duration before crossfade.")
        else obj (mp.crossfadeout clip (actual_transition d))
    end
  else ret clip.

(** Lines 230-317: the body of the image loop. *)
Definition process_image (i : nat) (img_path : string) : M unit :=
  img_pil ← Image_open img_path;
  base_image_clip ←
    (c ← obj (mp.ImageClip img_pil None);
     obj (mp.set_duration c (Some image_display_duration)));
  resized_clip ← obj (mp.with_size base_image_clip (resized_size img_pil));
  cropped_clip ←
    (c ← obj (mp.with_size resized_clip video_size);
     obj (mp.set_duration c (Some image_display_duration)));
  current_image_canvas_clip ←
    (if enable_image_animations then animate cropped_clip else ret cropped_clip);
  final_clip_for_this_image_slot ← crossfade i current_image_canvas_clip;
  match mp.clip_duration final_clip_for_this_image_slot with
  | None => raise (ValueError "Processed clip is invalid.")
  | Some d =>
      if Py.leb d 0 then raise (ValueError "Processed clip is invalid.")
      else append_processed final_clip_for_this_image_slot
  end.

(** Lines 346-351: one step of the inner loop over [range(image_index)]. *)
Definition clip_eff_duration (k_idx : Z) : Q :=
  if (k_idx <? Z.of_nat (length image_paths) - 1)%Z
     && Py.gtb transition_duration 0
  then image_display_duration
       - Py.min transition_duration (image_display_duration * (1 # 2))
  else image_display_duration.

Definition range (n : Z) : list Z := Z.of_nat <$> seq 0 (Z.to_nat n).

(** Lines 342-353: [(text_start_time, text_duration)]. *)
Definition text_timing (n_clips : nat) (total_video_duration : Q)
    (text_data : TextOverlay) : Q * Q :=
  match image_index text_data with
  | Some k =>
      if (0 <=? k)%Z && (k <? Z.of_nat n_clips)%Z
      then (fold_left (fun current_start_time k_idx =>
                         current_start_time + clip_eff_duration k_idx)
                      (range k) 0,
            image_display_duration)
      else (0, total_video_duration)
  | None => (0, total_video_duration)
  end.

(** Lines 95-153, as far as timing goes: an image layer of the canvas size
    that lasts [duration] when that is positive. *)
Definition create_text_clip_with_style (text_data : TextOverlay)
    (clip_size : Z * Z) (duration : Q) : M mp.VideoClip :=
  let actual_duration := if Py.gtb duration 0 then Some duration else None in
  c ← obj (mp.ImageClip clip_size actual_duration);
  obj c.

(** Lines 341-366: the body of the text loop. *)
Definition process_text (total_video_duration : Q) (text_data : TextOverlay)
  : M unit :=
  n_clips ← get (fun st => length (processed_image_clips st));
  let '(text_start_time, text_duration) :=
    text_timing n_clips total_video_duration text_data in
  if Py.leb text_duration 0 then ret tt
  else
    c0 ← create_text_clip_with_style text_data video_size text_duration;
    c1 ← obj (mp.set_start c0 text_start_time);
    txt_clip_candidate ← obj (mp.set_duration c1 (Some text_duration));
    match mp.clip_duration txt_clip_candidate with
    | Some d =>
        if Py.gtb d 0 then
          clipped ←
            match mp.clip_end txt_clip_candidate with
            | Some e =>
                if Py.gtb e total_video_duration
                then obj (mp.set_duration txt_clip_candidate
                       (Some (Py.max 0 (total_video_duration
                                        - mp.clip_start txt_clip_candidate))))
                else ret txt_clip_candidate
            | None => raise (TypeError "'>' not supported for NoneType")
            end;
          match mp.clip_duration clipped with
          | Some d' =>
              if Py.gtb d' 0 then append_text_clip clipped else ret tt
          | None => raise (TypeError "'>' not supported for NoneType")
          end
        else ret tt
    | None => ret tt
    end.

(** Lines 371-393: the text layers over the base video, or the base video
    itself when there are none. *)
Definition composite_stage (total_video_duration : Q) : M unit :=
  text_clips ← get text_clips_to_composite;
  bv ← get base_video;
  base ← the bv;
  match text_clips with
  | _ :: _ =>
      base' ←
        (if bool_decide (mp.clip_size base = video_size) then ret base
         else (r ← obj (mp.with_size base video_size); set_base_video r;; ret r));
      c ← obj (mp.CompositeVideoClip (base' :: text_clips) video_size false);
      c' ← obj (mp.set_duration c (Some total_video_duration));
      set_final_video_clip c'
  | [] =>
      set_final_video_clip base;;
      (if bool_decide (mp.clip_size base = video_size) then ret tt
       else (r ← obj (mp.with_size base video_size); set_final_video_clip r));;
      fv ← get final_video_clip;
      f ← the fv;
      match mp.clip_duration f with
      | Some d =>
          if Py.eqb d total_video_duration then ret tt
          else (r ← obj (mp.set_duration f (Some total_video_duration));
                set_final_video_clip r)
      | None =>
          r ← obj (mp.set_duration f (Some total_video_duration));
          set_final_video_clip r
      end
  end;;
  fv ← get final_video_clip;
  f ← the fv;
  match mp.clip_duration f with
  | None => raise (ValueError "Final visual clip is invalid.")
  | Some d =>
      if Py.leb d 0 then raise (ValueError "Final visual clip is invalid.")
      else ret tt
  end.

(** Lines 422-445: range check, extraction, then loop or truncate. *)
Definition bind_audio (total_video_duration : Q)
    (full_audio_clip_main : mp.AudioClip) : M unit :=
  if Py.geb music_segment_start_time (mp.audio_duration full_audio_clip_main)
  then return_ false MusicStartBeyondDuration
  else
    let subclip_end_time :=
      (fun d => music_segment_start_time + d)
        <$> audio_segment_duration_from_music in
    temp ← subclip full_audio_clip_main music_segment_start_time
             subclip_end_time;
    set_temp_audio_segment_intermediate temp;;
    (if Py.eqb (mp.audio_duration temp) 0 then
       fv ← get final_video_clip;
       f ← the fv;
       f' ← obj (mp.set_audio f None);
       set_final_video_clip f';;
       set_audio_segment_final_for_video None
     else if Py.ltb (mp.audio_duration temp) total_video_duration then
       vfx_getattr "audio_loop";;
       looped ← aobj (mp.audio_loop temp total_video_duration);
       set_audio_segment_final_for_video (Some looped)
     else
       cut ← subclip temp 0 (Some total_video_duration);
       set_audio_segment_final_for_video (Some cut));;
    af ← get audio_segment_final_for_video;
    match af with
    | Some a =>
        fv ← get final_video_clip;
        f ← the fv;
        f' ← obj (mp.set_audio f (Some a));
        set_final_video_clip f'
    | None => ret tt
    end.

(** Lines 396-451. *)
Definition audio_stage (total_video_duration : Q) : M unit :=
  f ← get (fun st => files (fs st) !! audio_path);
  match f with
  | None => return_ false (AudioFileDoesNotExist audio_path)
  | Some file =>
      if negb (f_readable file)
      then return_ false (AudioFileNotReadable audio_path)
      else if (f_size file =? 0)%N
      then return_ false (AudioFileEmpty audio_path)
      else
        try_except
          (full ← AudioFileClip audio_path;
           set_full_audio_clip_main full;;
           (if negb (mp.audio_reader full)
            then return_ false AudioReaderInitFailed
            else if negb (mp.audio_frames_ok full)
            then return_ false AudioReaderGetFrameFailed
            else ret tt);;
           bind_audio total_video_duration full)
          (fun e_audio_block =>
             return_ false (FailedDuringAudioProcessing e_audio_block))
  end.

(** Lines 456-477. *)
Definition write_stage : M unit :=
  fv ← get final_video_clip;
  f ← the fv;
  match mp.clip_duration f with
  | None => return_ false VideoHasNoDuration
  | Some d => if Py.leb d 0 then return_ false VideoHasNoDuration else ret tt
  end;;
  match mp.clip_audio f with
  | None => ret tt
  | Some a =>
      if mp.audio_frames_ok a then ret tt
      else return_ false FinalAudioGetFrameFailed
  end;;
  write_videofile output_path fps.

(** Lines 218-482: the [try] block and its [except Exception] clause. *)
Definition try_block : M unit :=
  try_except
    (for_enumerate 0 image_paths process_image;;
     clips ← get processed_image_clips;
     match clips with
     | [] => return_ false NoValidImageClips
     | _ :: _ => ret tt
     end;;
     bv ← obj (mp.concatenate_videoclips clips);
     set_base_video bv;;
     total ←
       match mp.clip_duration bv with
       | None => raise (ValueError "Base video concatenation resulted in an invalid clip.")
       | Some d =>
           if Py.leb d 0
           then raise (ValueError "Base video concatenation resulted in an invalid clip.")
           else ret d
       end;
     match texts with
     | Some l => for_enumerate 0 l (fun _ => process_text total)
     | None => ret tt
     end;;
     composite_stage total;;
     audio_stage total;;
     write_stage)
    (fun e => return_ false (InternalError e)).

(** Lines 483-516: the [finally] block.  Each [close()] the block calls
    is logged with the identity of the object it is called on. *)
Definition close_video (c : option mp.VideoClip) (st : St) : St :=
  match c with
  | Some v => close_oid (mp.oid v) st
  | None => st
  end.

Definition close_audio (a : option mp.AudioClip) (st : St) : St :=
  match a with
  | Some x => close_oid (mp.aoid x) st
  | None => st
  end.

Definition is_not (a b : mp.AudioClip) : bool :=
  negb (mp.aoid a =? mp.aoid b)%nat.

Definition finally_block (st : St) : St :=
  let st := close_video (final_video_clip st) st in
  let st := close_video (base_video st) st in
  let st := fold_left (fun s clip => close_oid (mp.oid clip) s)
                      (processed_image_clips st) st in
  let st := fold_left (fun s clip => close_oid (mp.oid clip) s)
                      (text_clips_to_composite st) st in
  let st := close_audio (audio_segment_final_for_video st) st in
  let st :=
    match temp_audio_segment_intermediate st with
    | Some t =>
        match audio_segment_final_for_video st with
        | None => close_oid (mp.aoid t) st
        | Some a => if is_not t a then close_oid (mp.aoid t) st else st
        end
    | None => st
    end in
  close_audio (full_audio_clip_main st) st.

(** The function: what it returns (or raises) and the state it leaves. *)
Definition _create_video_from_images_and_music_logic (st : St) : Ctl * St :=
  let '(r, st1) := try_block st in
  let st2 := finally_block st1 in
  match r with
  | inl tt => (Return true (OutputPath output_path), st2)
  | inr c => (c, st2)
  end.

End Logic.

(** ** [resolve_file_id_to_path] and the endpoint *)

Inductive Detail :=
| FileIdNotFound (file_id directory : string)
| AudioIdNotFound (file_id : string)
| LogicFailure (m : Message)
| UnhandledException (e : Exn).

Inductive HTTPException := mkHTTPException (status_code : Z) (detail : Detail).

(** What a helper of the endpoints can raise: an [HTTPException], which
    the handlers catch, or another exception, which they do not. *)
Inductive Raised :=
| HTTP (e : HTTPException)
| Uncaught (e : Exn).

(** [os.listdir(directory)]: [FileNotFoundError] when the directory is not
    there.  Both directories are created at start-up (lines 26-27). *)
Definition os_listdir (disk : FS) (directory : string) : Exn + list string :=
  match dirs disk !! directory with
  | Some names => inr names
  | None => inl (FileNotFoundError directory)
  end.

(** [f.startswith(file_id)]. *)
Definition startswith (f file_id : string) : bool := String.prefix file_id f.

Definition endswith_slash (a : string) : bool :=
  match String.rev a with
  | String c _ => bool_decide (c = "/"%char)
  | EmptyString => false
  end.

(** [os.path.join(a, b)] on POSIX. *)
Definition path_join (a b : string) : string :=
  if startswith b "/" then b
  else if bool_decide (a = "") || endswith_slash a then a +:+ b
  else a +:+ "/" +:+ b.

(** Lines 87-92. *)
Definition resolve_file_id_to_path (disk : FS) (file_id directory : string)
  : Raised + string :=
  match os_listdir disk directory with
  | inl e => inl (Uncaught e)
  | inr names =>
      let matching_files :=
        List.filter (fun f => startswith f file_id) names in
      match matching_files with
      | [] => inl (HTTP (mkHTTPException 404 (FileIdNotFound file_id directory)))
      | f :: _ => inr (path_join directory f)
      end
  end.

Inductive AspectRatio := ratio_16_9 | ratio_9_16 | ratio_1_1.

Definition aspect_ratios (r : AspectRatio) : Z * Z :=
  match r with
  | ratio_16_9 => (1920, 1080)
  | ratio_9_16 => (1080, 1920)
  | ratio_1_1 => (1080, 1080)
  end%Z.

Module Req.
Record CreateVideoFromImagesRequest := mk {
  image_file_ids : list string;
  audio_file_id : string;
  output_filename : string;
  image_display_duration : Q;
  transition_duration : Q;
  music_segment_start_time : Q;
  audio_segment_duration_from_music : option Q;
  fps : Z;
  texts : option (list TextOverlay);
  video_aspect_ratio : AspectRatio;
  enable_image_animations : bool
}.

(** The [Field] constraints of lines 58-73, checked before the handler
    runs. *)
Definition valid (r : CreateVideoFromImagesRequest) : bool :=
  (length (image_file_ids r) <=? MAX_IMAGES)%nat
  && Py.gtb (image_display_duration r) 0
  && Py.geb (transition_duration r) 0
  && Py.geb (music_segment_start_time r) 0
  && match audio_segment_duration_from_music r with
     | Some s => Py.gtb s 0
     | None => true
     end
  && (0 <? fps r)%Z.
End Req.

Inductive Response :=
| CreateVideoFromImagesResponse (video_file_uuid : string)
    (video_file_path : Message)
| Failed (e : HTTPException).

(** Line 581: the list comprehension stops at the first identifier that
    does not resolve. *)
Fixpoint resolve_all (disk : FS) (ids : list string)
  : Raised + list string :=
  match ids with
  | [] => inr []
  | i :: rest =>
      match resolve_file_id_to_path disk i UPLOAD_DIR with
      | inl e => inl e
      | inr p =>
          match resolve_all disk rest with
          | inl e => inl e
          | inr ps => inr (p :: ps)
          end
      end
  end.

(** Lines 583-590: uploads first, then outputs.  Only an [HTTPException]
    sends the search on. *)
Definition resolve_audio (disk : FS) (file_id : string)
  : Raised + string :=
  match resolve_file_id_to_path disk file_id UPLOAD_DIR with
  | inr p => inr p
  | inl (HTTP _) =>
      match resolve_file_id_to_path disk file_id OUTPUT_DIR with
      | inr p => inr p
      | inl (HTTP _) => inl (HTTP (mkHTTPException 404 (AudioIdNotFound file_id)))
      | inl (Uncaught e) => inl (Uncaught e)
      end
  | inl (Uncaught e) => inl (Uncaught e)
  end.

(** Lines 617-619: [os.remove(path)] guarded by [os.path.exists(path)]; an
    [OSError] of the removal is swallowed and the file stays. *)
Definition remove_if_exists (path : string) (st : St) : St :=
  match files (fs st) !! path with
  | Some _ =>
      if remove_ok st path
      then with_world st (next_oid st) (closed st) (audio_opens st)
             (unlink path (fs st))
      else st
  | None => st
  end.

(** What the server answers when a handler raises: the [HTTPException]
    itself, or 500 for any other exception. *)
Definition error_response (r : Raised) : HTTPException :=
  match r with
  | HTTP e => e
  | Uncaught e => mkHTTPException 500 (UnhandledException e)
  end.

(** Lines 579-620.  [output_video_uuid] is the value of [uuid.uuid4()]. *)
Definition create_video_from_images (request : Req.CreateVideoFromImagesRequest)
    (output_video_uuid : string) (st : St) : Response * St :=
  match resolve_all (fs st) (Req.image_file_ids request) with
  | inl e => (Failed (error_response e), st)
  | inr resolved_image_paths =>
      match resolve_audio (fs st) (Req.audio_file_id request) with
      | inl e => (Failed (error_response e), st)
      | inr resolved_audio_path =>
          let target_video_size := aspect_ratios (Req.video_aspect_ratio request) in
          let output_video_path :=
            path_join OUTPUT_DIR (output_video_uuid +:+ ".mp4") in
          match _create_video_from_images_and_music_logic
                  resolved_image_paths resolved_audio_path output_video_path
                  (Req.image_display_duration request)
                  (Req.transition_duration request)
                  (Req.music_segment_start_time request)
                  (Req.audio_segment_duration_from_music request)
                  (Req.fps request) (Req.texts request) target_video_size
                  (Req.enable_image_animations request) st with
          | (Return true result_path_or_message, st') =>
              (CreateVideoFromImagesResponse output_video_uuid
                 result_path_or_message, st')
          | (Return false result_path_or_message, st') =>
              (Failed (mkHTTPException 500 (LogicFailure result_path_or_message)),
               remove_if_exists output_video_path st')
          | (Raise e, st') =>
              (Failed (mkHTTPException 500 (UnhandledException e)), st')
          end
      end
  end.

End Backend.

(** ** The pan animation's vertical position (lines 264-275)

    Times, offsets and periods are Python floats, that is binary64 numbers
    with their infinities and NaN: a product or quotient that overflows is
    an infinity, and [math.sin] raises on an infinity. *)

Module Pan.

Local Open Scope float_scope.

(** [math.pi]. *)
Definition pi : float := 0x1.921fb54442d18p+1.

Section Sine.

(** The C library's [sin], which [math.sin] calls on every argument that
    is not an infinity. *)
Variable libm_sin : float -> float.

(** [math.sin(x)]: [ValueError] on an infinity; a NaN goes through. *)
Definition math_sin (x : float) : Backend.Exn + float :=
  if is_infinity x then inl (Backend.ValueError "math domain error")
  else inr (libm_sin x).

(** The argument of the sine, [(2 * math.pi * t) / p_period]. *)
Definition angle (t p_period : float) : float := (2 * pi * t) / p_period.

(** [get_y_position(t, b_offset, p_amp, p_period)].  [p_period == 0] holds
    of both zeros and of no other float. *)
Definition get_y_position (t b_offset p_amp : float) (p_period : option float)
  : Backend.Exn + float :=
  match p_period with
  | None => inr b_offset
  | Some period =>
      if period =? 0 then inr b_offset
      else
        match math_sin (angle t period) with
        | inl e => inl e
        | inr s => inr (b_offset + p_amp * s)
        end
  end.

End Sine.

End Pan.

(** ** The other endpoints: download, upload and clean-up *)

Module Endpoints.
Import Backend.

(** *** [download_result] (lines 622-634) *)

Inductive DownloadResponse :=
| FileResponse (path filename : string)
| ResultNotFound (file_uuid : string)
| DownloadCrashed (e : Exn).

(** Outputs first, then uploads.  An exception that is not an
    [HTTPException] leaves the handler. *)
Definition download_result (disk : FS) (file_uuid : string)
  : DownloadResponse :=
  match resolve_file_id_to_path disk file_uuid OUTPUT_DIR with
  | inr file_path => FileResponse file_path (basename file_path)
  | inl (HTTP _) =>
      match resolve_file_id_to_path disk file_uuid UPLOAD_DIR with
      | inr file_path => FileResponse file_path (basename file_path)
      | inl (HTTP _) => ResultNotFound file_uuid
      | inl (Uncaught e) => DownloadCrashed e
      end
  | inl (Uncaught e) => DownloadCrashed e
  end.

(** *** [upload_file] (lines 523-548) *)

Definition MAX_FILE_SIZE_MB : N := 50.

(** The uploaded file as the handler receives it.  [copy_stops_at] is
    [None] when [shutil.copyfileobj] runs to the end, and the number of
    bytes written before it raises otherwise. *)
Module Upload.
Record UploadFile := mk {
  filename : option string;
  size : option N;
  content_type : option string;
  payload : Content;
  copy_stops_at : option N
}.
End Upload.

Inductive UploadResponse :=
| UploadFileResponse (file_id file_path filename : string)
| PayloadTooLarge
| CouldNotUpload.

(** Lines 529-537: the extension of the stored file. *)
Definition original_filename (file : Upload.UploadFile) : string :=
  match Upload.filename file with
  | Some (String _ _ as name) => name
  | _ => "unknown"
  end.

Definition file_extension (file : Upload.UploadFile) : string :=
  match snd (splitext (original_filename file)) with
  | String _ _ as ext => ext
  | EmptyString =>
      match Upload.content_type file with
      | Some ct =>
          if String.eqb ct "video/mp4" then ".mp4"
          else if String.eqb ct "audio/mpeg" then ".mp3"
          else if String.eqb ct "image/jpeg" then ".jpg"
          else if String.eqb ct "image/png" then ".png"
          else ".bin"
      | None => ".bin"
      end
  end.

(** Lines 525-545.  [file_id] is the value of [uuid.uuid4()] and [pos] the
    place the system gives the new name in the listing.  [open] creates
    the file or raises; the copy fills it or raises part-way; every
    exception becomes the 500 of line 545, and what was written stays. *)
Definition upload_file (file : Upload.UploadFile) (file_id : string)
    (pos : nat)
    (disk : FS) : UploadResponse * FS :=
  match Upload.size file with
  | None => (PayloadTooLarge, disk)
  | Some n =>
      if (MAX_FILE_SIZE_MB * 1024 * 1024 <? n)%N then (PayloadTooLarge, disk)
      else
        let original_filename := original_filename file in
        let file_location :=
          path_join UPLOAD_DIR (file_id +:+ file_extension file) in
        match Upload.copy_stops_at file with
        | None =>
            match creat pos file_location
                    (mkFile n true (Upload.payload file)) disk with
            | Some disk' =>
                (UploadFileResponse file_id file_location original_filename,
                 disk')
            | None => (CouldNotUpload, disk)
            end
        | Some written =>
            match creat pos file_location (mkFile written true Undecodable)
                    disk with
            | Some disk' => (CouldNotUpload, disk')
            | None => (CouldNotUpload, disk)
            end
        end
  end.

(** *** [cleanup_old_files] (lines 637-657) *)

Section CleanupOldFiles.

(** [time.time()], [os.path.getmtime], and the paths [os.remove] fails
    on. *)
Variable now : Q.
Variable getmtime : string -> Q.
Variable locked : string -> bool.
Variable age_in_hours : Z.

Definition cutoff : Q := now - inject_Z age_in_hours * 3600.

Record Sweep := mkSweep {
  sweep_disk : FS;
  files_deleted_count : nat;
  deletion_errors : list string
}.

(** [os.remove(directory/filename)]. *)
Definition os_remove (directory filename : string) (disk : FS) : FS :=
  {| dirs := <[directory :=
                 List.filter (fun f => negb (String.eqb f filename))
                             (listdir disk directory)]> (dirs disk);
     files := delete (path_join directory filename) (files disk);
     refuses := refuses disk |}.

Definition isfile (disk : FS) (path : string) : bool :=
  bool_decide (is_Some (files disk !! path)).

(** Lines 645-652: one file name of the directory. *)
Definition sweep_name (directory : string) (s : Sweep) (filename : string)
  : Sweep :=
  let filepath := path_join directory filename in
  if isfile (sweep_disk s) filepath && Py.ltb (getmtime filepath) cutoff then
    if locked filepath
    then mkSweep (sweep_disk s) (files_deleted_count s)
                 (deletion_errors s ++ [filepath])
    else mkSweep (os_remove directory filename (sweep_disk s))
                 (S (files_deleted_count s)) (deletion_errors s)
  else s.

(** Lines 643-652: one directory, skipped when it does not exist. *)
Definition sweep_directory (s : Sweep) (directory_to_clean : string) : Sweep :=
  match dirs (sweep_disk s) !! directory_to_clean with
  | None => s
  | Some names => fold_left (sweep_name directory_to_clean) names s
  end.

Definition cleanup_old_files (disk : FS) : Sweep :=
  fold_left sweep_directory [UPLOAD_DIR; OUTPUT_DIR] (mkSweep disk 0 []).

End CleanupOldFiles.

End Endpoints.

(** ** Reference quantities and sample runs *)

Module Timeline.

(** The time slide [j] of [n] occupies before the next one starts, with
    display duration [d] and requested transition [td]: the display
    duration, less [min(td, d / 2)] when a transition follows the slide. *)
Definition effective_duration (n : nat) (d td : Q) (j : nat) : Q :=
  if (S j <? n)%nat && Py.gtb td 0 then d - Py.min td (d * (1 # 2)) else d.

(** Sum of the effective durations of slides [0 .. k-1]. *)
Definition cumulative_effective_duration (n : nat) (d td : Q) (k : nat) : Q :=
  fold_right Qplus 0 (effective_duration n d td <$> seq 0 k).

(** The same text with its binding to an image removed. *)
Definition unbound (t : Backend.TextOverlay) : Backend.TextOverlay :=
  {| Backend.text := Backend.text t; Backend.style := Backend.style t;
     Backend.image_index := None; Backend.position := Backend.position t |}.

(** [concatenate_videoclips(clips, method="compose")] places clip [i] at
    [tt[i]], where [tt = cumsum([0] + durations)], and keeps
    [start_times = tt[:-1]]. *)
Fixpoint start_times_from (t : Q) (clips : list mp.VideoClip) : list Q :=
  match clips with
  | [] => []
  | c :: rest =>
      t :: start_times_from (t + default 0 (mp.clip_duration c)) rest
  end.

Definition start_times (clips : list mp.VideoClip) : list Q :=
  start_times_from 0 clips.

(** The transition the text timing takes off a slide that is followed by
    another one (lines 348-350). *)
Definition text_overlap (d td : Q) : Q :=
  if Py.gtb td 0 then Py.min td (d * (1 # 2)) else 0.

End Timeline.

Module Reference.
Import Backend.

(** An image path behind which a readable picture is stored. *)
Definition loads (disk : FS) (path : string) : Prop :=
  exists sz w h, files disk !! path = Some (mkFile sz true (ImageData w h)).

(** The fade-out a slide at position [i] ends up with. *)
Definition fade_at (image_paths : list string) (d td : Q) (i : nat)
  : option Q :=
  if (Z.of_nat i <? Z.of_nat (length image_paths) - 1)%Z && Py.gtb td 0
  then Some (actual_transition td d) else None.

(** What the three checks of lines 397-402 answer for a path. *)
Definition audio_defect (disk : FS) (path : string) : option Message :=
  match files disk !! path with
  | None => Some (AudioFileDoesNotExist path)
  | Some f =>
      if negb (f_readable f) then Some (AudioFileNotReadable path)
      else if (f_size f =? 0)%N then Some (AudioFileEmpty path)
      else None
  end.

(** A computation is quiet when it leaves the disk, the log of opened
    audio files and [full_audio_clip_main] alone, and returns, if at all,
    only with "no valid image clips". *)
Definition quiet {A} (m : M A) : Prop :=
  forall st r st', m st = (r, st') ->
    fs st' = fs st /\ audio_opens st' = audio_opens st
    /\ full_audio_clip_main st' = full_audio_clip_main st
    /\ match r with
       | inr (Return ok msg) => ok = false /\ msg = NoValidImageClips
       | _ => True
       end.

(** The outcomes left to a pipeline whose audio file has a defect. *)
Definition visual_failure_or (expected : Message) (m : Message) : Prop :=
  m = expected \/ m = NoValidImageClips \/ exists e, m = InternalError e.

(** A computation that is stopped by the defect of the audio file. *)
Definition stopped (audio_path : string) (expected : Message) {A}
    (m : M A) : Prop :=
  forall st, audio_defect (fs st) audio_path = Some expected ->
    exists c st',
      m st = (inr c, st')
      /\ fs st' = fs st /\ audio_opens st' = audio_opens st
      /\ full_audio_clip_main st' = full_audio_clip_main st
      /\ (c = Return false expected \/ c = Return false NoValidImageClips
          \/ exists e, c = Raise e).

(** The cleanup block only adds to the log of [close()] calls. *)
Definition untouched (st st' : St) : Prop :=
  fs st' = fs st /\ audio_opens st' = audio_opens st
  /\ full_audio_clip_main st' = full_audio_clip_main st.

(** A computation is honest when every [return] it executes returns
    [False]. *)
Definition honest {A} (m : M A) : Prop :=
  forall st st' ok msg, m st = (inr (Return ok msg), st') -> ok = false.

(** What no call changes: the encoder's verdict, the removals that
    succeed and the place of new names. *)
Definition same_system (st st' : St) : Prop :=
  encoder_ok st' = encoder_ok st /\ remove_ok st' = remove_ok st
  /\ new_name_pos st' = new_name_pos st.

(** A relation between the state before and the state after that every
    step of the pipeline respects, short of the steps that touch the
    disk: it holds of an assignment to the local variables and of a change
    to the logs and the object counter. *)
Class Frame (P : St -> St -> Prop) : Prop := {
  frame_refl : forall st, P st st;
  frame_trans : forall a b c, P a b -> P b c -> P a c;
  frame_upd : forall st pic bv fv tc fa ta af,
    P st (upd st pic bv fv tc fa ta af);
  frame_world : forall st n cl ao, P st (with_world st n cl ao (fs st))
}.

(** A computation keeps [P] when [P] relates the states around it,
    however it ends. *)
Definition kept (P : St -> St -> Prop) {A} (m : M A) : Prop :=
  forall st r st', m st = (r, st') -> P st st'.

(** The disk and the system are as before. *)
Definition same_world (st st' : St) : Prop :=
  fs st' = fs st /\ same_system st st'.

(** No file but the one at [path] has changed. *)
Definition spares (path : string) (st st' : St) : Prop :=
  forall q, q <> path -> files (fs st') !! q = files (fs st) !! q.

(** A computation that, when it falls through, has left the world alone
    up to a last step, the encoder writing [path]. *)
Definition writes_last (path : string) (fps : Z) {A} (m : M A) : Prop :=
  forall st a st', m st = (inl a, st') ->
    exists st0, same_world st st0
                /\ write_videofile path fps st0 = (inl tt, st').

(** The length of the audio segment a request asks for: the given length,
    or what is left of the track after the start offset. *)
Definition segment_length (track start : Q) (segment : option Q) : Q :=
  match segment with
  | Some s => s
  | None => track - start
  end.

(** The objects the variables read by the cleanup block hold. *)
Definition video_oid (c : option mp.VideoClip) : list nat :=
  match c with
  | Some v => [mp.oid v]
  | None => []
  end.

Definition audio_oid (a : option mp.AudioClip) : list nat :=
  match a with
  | Some x => [mp.aoid x]
  | None => []
  end.

Definition held (st : St) : list nat :=
  video_oid (final_video_clip st) ++ video_oid (base_video st)
  ++ (mp.oid <$> processed_image_clips st)
  ++ (mp.oid <$> text_clips_to_composite st)
  ++ audio_oid (audio_segment_final_for_video st)
  ++ audio_oid (temp_audio_segment_intermediate st)
  ++ audio_oid (full_audio_clip_main st).

Definition held_audio (st : St) : list nat :=
  audio_oid (audio_segment_final_for_video st)
  ++ audio_oid (temp_audio_segment_intermediate st)
  ++ audio_oid (full_audio_clip_main st).

(** Some listed name of the directory starts with the identifier. *)
Definition matches (disk : FS) (file_id directory : string) : Prop :=
  exists f, In f (listdir disk directory) /\ startswith f file_id = true.

(** A name the system lets a file be created under in a directory: the
    directory is there, the name has no slash and is one the system
    takes, no directory has that path, and the system does not refuse. *)
Definition storable (disk : FS) (directory name : string) : Prop :=
  is_Some (dirs disk !! directory)
  /\ has_char "/" name = false
  /\ valid_name name = true
  /\ dirs disk !! path_join directory name = None
  /\ refuses disk (path_join directory name) = false.

(** A path made of one of the two directories and a name listed in it. *)
Definition listed (disk : FS) (p : string) : Prop :=
  (exists name, In name (listdir disk UPLOAD_DIR)
                /\ p = path_join UPLOAD_DIR name)
  \/ (exists name, In name (listdir disk OUTPUT_DIR)
                   /\ p = path_join OUTPUT_DIR name).

(** A path older than the cut-off that [os.remove] does not fail on. *)
Definition doomed (now : Q) (getmtime : string -> Q)
    (locked : string -> bool) (age_in_hours : Z) (p : string) : bool :=
  Py.ltb (getmtime p) (Endpoints.cutoff now age_in_hours)
  && negb (locked p).

End Reference.

Module Scenario.
Import Backend.

Definition upload (name : string) : string := path_join UPLOAD_DIR name.
Definition canvas : Z * Z := aspect_ratios ratio_16_9.

Definition uploads : list string :=
  ["img-a.png"; "img-b.png"; "img-c.png"; "music-10s.mp3"; "music-1s.mp3";
   "zero.mp3"].

Definition disk : FS :=
  {| dirs := <[UPLOAD_DIR := uploads]> (<[OUTPUT_DIR := []]> ∅);
     files :=
       <[upload "img-a.png" := mkFile 2048 true (ImageData 4000 3000)]>
      (<[upload "img-b.png" := mkFile 2048 true (ImageData 1000 3000)]>
      (<[upload "img-c.png" := mkFile 2048 true (ImageData 1920 1080)]>
      (<[upload "music-10s.mp3" := mkFile 4096 true (AudioData 10 true)]>
      (<[upload "music-1s.mp3" := mkFile 512 true (AudioData 1 true)]>
      (<[upload "zero.mp3" := mkFile 0 true Undecodable]> ∅)))));
     refuses := fun _ => false |}.

Definition out : string := path_join OUTPUT_DIR "result.mp4".

(** Three images, 3 s each, 1 s transition, no text, 10 s of music from
    0 s. *)
Definition three_slides : Ctl * St :=
  _create_video_from_images_and_music_logic
    [upload "img-a.png"; upload "img-b.png"; upload "img-c.png"]
    (upload "music-10s.mp3") out 3 1 0 None 24 None canvas false
    (initial disk true).

(** One image shown 5 s, one global text, a 2 s segment asked of a 1 s
    track. *)
Definition one_slide_short_music : Ctl * St :=
  _create_video_from_images_and_music_logic
    [upload "img-a.png"] (upload "music-1s.mp3") out 5 1 0 (Some 2) 24
    (Some [mkTextOverlay "hello" "Minimal" None bottom]) canvas false
    (initial disk true).

(** One image shown 5 s, no text, the whole 1 s track from 0 s. *)
Definition one_slide_whole_short_track : Ctl * St :=
  _create_video_from_images_and_music_logic
    [upload "img-a.png"] (upload "music-1s.mp3") out 5 0 0 None 24 None
    canvas false (initial disk true).

(** One image, no text, and an audio path with no file behind it. *)
Definition one_slide_no_audio_file : Ctl * St :=
  _create_video_from_images_and_music_logic
    [upload "img-a.png"] (upload "gone.mp3") out 3 1 0 None 24 None canvas
    false (initial disk true).

(** Two images shown 3 s each with a 2 s transition. *)
Definition two_slides_long_transition : Ctl * St :=
  _create_video_from_images_and_music_logic
    [upload "img-a.png"; upload "img-b.png"] (upload "music-10s.mp3") out
    3 2 0 None 24 None canvas false (initial disk true).

(** Two images and a text bound to [image_index = 2]. *)
Definition two_slides_text_on_third : Ctl * St :=
  _create_video_from_images_and_music_logic
    [upload "img-a.png"; upload "img-b.png"] (upload "music-10s.mp3") out
    3 1 0 None 24 (Some [mkTextOverlay "caption" "Retro" (Some 2%Z) top])
    canvas false (initial disk true).

(** One image and a start offset equal to the length of the 10 s track. *)
Definition start_at_track_end : Ctl * St :=
  _create_video_from_images_and_music_logic
    [upload "img-a.png"] (upload "music-10s.mp3") out 3 0 10 None 24 None
    canvas false (initial disk true).

(** One image and a segment of length 0 taken at 2 s. *)
Definition empty_segment : Ctl * St :=
  _create_video_from_images_and_music_logic
    [upload "img-a.png"] (upload "music-10s.mp3") out 3 0 2 (Some 0) 24 None
    canvas false (initial disk true).

(** A request with no image at all and the zero-byte file as music. *)
Definition no_image_request : Req.CreateVideoFromImagesRequest :=
  {| Req.image_file_ids := []; Req.audio_file_id := "zero";
     Req.output_filename := "output_video.mp4";
     Req.image_display_duration := 3; Req.transition_duration := 1;
     Req.music_segment_start_time := 0;
     Req.audio_segment_duration_from_music := None; Req.fps := 24;
     Req.texts := None; Req.video_aspect_ratio := ratio_16_9;
     Req.enable_image_animations := false |}.

(** One image and the zero-byte file as music. *)
Definition zero_byte_request : Req.CreateVideoFromImagesRequest :=
  {| Req.image_file_ids := ["img-a"]; Req.audio_file_id := "zero";
     Req.output_filename := "output_video.mp4";
     Req.image_display_duration := 3; Req.transition_duration := 1;
     Req.music_segment_start_time := 0;
     Req.audio_segment_duration_from_music := None; Req.fps := 24;
     Req.texts := None; Req.video_aspect_ratio := ratio_16_9;
     Req.enable_image_animations := false |}.

(** Two images shown 3 s each and the first 10 s track as music. *)
Definition two_slide_request : Req.CreateVideoFromImagesRequest :=
  {| Req.image_file_ids := ["img-a"; "img-b"]; Req.audio_file_id := "music-10s";
     Req.output_filename := "output_video.mp4";
     Req.image_display_duration := 3; Req.transition_duration := 1;
     Req.music_segment_start_time := 0;
     Req.audio_segment_duration_from_music := None; Req.fps := 24;
     Req.texts := None; Req.video_aspect_ratio := ratio_16_9;
     Req.enable_image_animations := false |}.

End Scenario.

Module Samples.
Import Backend Endpoints.

(** A disk on which the identifier "take" names an uploaded video and the
    audio extracted from it. *)
Definition shared_disk : FS :=
  {| dirs := <[UPLOAD_DIR := ["take.mp4"; "other.png"]]>
              (<[OUTPUT_DIR := ["take.mp3"]]> ∅);
     files :=
       <["uploaded_files/take.mp4" := mkFile 9000 true VideoData]>
      (<["uploaded_files/other.png" := mkFile 100 true (ImageData 8 8)]>
      (<["processed_outputs/take.mp3" := mkFile 4000 true (AudioData 60 true)]>
       ∅));
     refuses := fun _ => false |}.

End Samples.

(** * Properties *)

Module PyFacts.
Import Py.

Lemma ltb_spec a b : reflect (a < b) (ltb a b).
Proof.
  unfold ltb. destruct (Qle_bool b a) eqn:E; constructor.
  - apply Qle_bool_iff in E. lra.
  - apply Qnot_le_lt. intros H. apply Qle_bool_iff in H. congruence.
Qed.

Lemma leb_spec a b : reflect (a <= b) (leb a b).
Proof.
  unfold leb. destruct (Qle_bool a b) eqn:E; constructor.
  - now apply Qle_bool_iff.
  - intros H. apply Qle_bool_iff in H. congruence.
Qed.

Lemma gtb_spec a b : reflect (b < a) (gtb a b).
Proof. apply ltb_spec. Qed.

Lemma geb_spec a b : reflect (b <= a) (geb a b).
Proof. apply leb_spec. Qed.

Lemma eqb_spec a b : reflect (a == b) (eqb a b).
Proof.
  unfold eqb. destruct (Qeq_bool a b) eqn:E; constructor.
  - now apply Qeq_bool_iff.
  - intros H. apply Qeq_bool_iff in H. congruence.
Qed.

Lemma min_spec a b : (b < a /\ min a b = b) \/ (a <= b /\ min a b = a).
Proof. unfold min. destruct (ltb_spec b a); [left | right]; split; auto; lra. Qed.

Lemma max_spec a b : (a < b /\ max a b = b) \/ (b <= a /\ max a b = a).
Proof. unfold max. destruct (gtb_spec b a); [left | right]; split; auto; lra. Qed.

End PyFacts.

(** ** What the pipeline does on the sample runs *)

Module Runs.
Import Backend Scenario.

(** C1 (the code on the spec's own scenario).  Three images shown 3 s each
    with a 1 s transition: the pipeline succeeds and the final visual clip
    lasts 9 s, the plain sum of the display durations, and not the
    3 * 3 - 2 * 1 = 7 s of the claim; the audio is cut to 9 s as well. *)
Theorem three_slides_last_nine_seconds :
  fst three_slides = Return true (OutputPath out)
  /\ mp.clip_duration <$> final_video_clip (snd three_slides) = Some (Some 9)
  /\ (mp.clip_duration <$> processed_image_clips (snd three_slides)
      = [Some 3; Some 3; Some 3])
  /\ (mp.clip_fade <$> processed_image_clips (snd three_slides)
      = [Some 1; Some 1; None])
  /\ ~ (9 == 3 * 3 - 2 * 1).
Proof.
  repeat split; try (vm_compute; reflexivity).
  intros H. vm_compute in H. discriminate.
Qed.

(** C2 (the code where the segment is shorter than the video).  One image
    shown 5 s and a 2 s segment of music: the segment is shorter than the
    timeline, the loop effect is looked up in the video effects, where it
    is not, and the pipeline returns a failure; no audio is bound and no
    file is written. *)
Theorem short_segment_is_not_looped :
  fst one_slide_short_music
    = Return false (FailedDuringAudioProcessing (AttributeError
        "module 'moviepy.video.fx.all' has no attribute 'audio_loop'"))
  /\ (mp.audio_duration <$> temp_audio_segment_intermediate
                              (snd one_slide_short_music)) = Some 2
  /\ (mp.clip_duration <$> final_video_clip (snd one_slide_short_music))
     = Some (Some 5)
  /\ audio_segment_final_for_video (snd one_slide_short_music) = None
  /\ (mp.clip_audio <$> final_video_clip (snd one_slide_short_music))
     = Some None
  /\ files (fs (snd one_slide_short_music)) !! out = None.
Proof. repeat split; vm_compute; reflexivity. Qed.

(** C6 (the code when it leaves before the audio is bound).  One image, no
    text, no audio file: [final_video_clip] and [base_video] are the same
    object when the cleanup block runs, and the block closes it through
    both names: its identity is twice in the log of [close()] calls. *)
Theorem base_video_closed_twice :
  fst one_slide_no_audio_file
    = Return false (AudioFileDoesNotExist (upload "gone.mp3"))
  /\ (mp.oid <$> base_video (snd one_slide_no_audio_file)) = Some 6%nat
  /\ (mp.oid <$> final_video_clip (snd one_slide_no_audio_file)) = Some 6%nat
  /\ closed (snd one_slide_no_audio_file) = [6; 6; 5]%nat
  /\ count_occ Nat.eq_dec (closed (snd one_slide_no_audio_file)) 6%nat = 2%nat.
Proof. repeat split; vm_compute; reflexivity. Qed.

(** C7 (the code with a start offset inside the track).  A readable,
    non-empty 1 s track taken from 0 s for a 5 s video: the start offset
    is below the track's duration and the segment is not empty, yet the
    audio stage fails. *)
Theorem start_inside_track_still_fails :
  files disk !! upload "music-1s.mp3" = Some (mkFile 512 true (AudioData 1 true))
  /\ 0 < 1
  /\ (mp.audio_duration <$> temp_audio_segment_intermediate
                              (snd one_slide_whole_short_track)) = Some 1
  /\ fst one_slide_whole_short_track
     = Return false (FailedDuringAudioProcessing (AttributeError
         "module 'moviepy.video.fx.all' has no attribute 'audio_loop'"))
  /\ fst one_slide_whole_short_track <> Return false MusicStartBeyondDuration.
Proof.
  repeat split; try (vm_compute; reflexivity).
  vm_compute. discriminate.
Qed.

(** Where the audio stage works: a segment at least as long as the video
    is cut to the video's duration. *)
Example long_segment_is_cut_to_timeline :
  (mp.clip_duration <$> final_video_clip (snd three_slides)) = Some (Some 9)
  /\ (mp.audio_duration <$> audio_segment_final_for_video (snd three_slides))
     = Some 9
  /\ (fmap mp.audio_duration ∘ mp.clip_audio
        <$> final_video_clip (snd three_slides)) = Some (Some 9).
Proof. repeat split; vm_compute; reflexivity. Qed.

(** A start offset at or past the end of the track is refused. *)
Example start_at_track_end_is_refused :
  fst start_at_track_end = Return false MusicStartBeyondDuration.
Proof. vm_compute. reflexivity. Qed.

(** An empty segment gives a video without audio, and the file is
    written. *)
Example empty_segment_gives_silent_video :
  fst empty_segment = Return true (OutputPath out)
  /\ (mp.audio_duration <$> temp_audio_segment_intermediate (snd empty_segment))
     = Some 0
  /\ (mp.clip_audio <$> final_video_clip (snd empty_segment)) = Some None
  /\ is_Some (files (fs (snd empty_segment)) !! out).
Proof.
  repeat split; try (vm_compute; reflexivity).
  vm_compute. eexists. reflexivity.
Qed.

(** On the run that succeeds, every object the cleanup block sees is
    closed once. *)
Example success_closes_each_object_once :
  NoDup (closed (snd three_slides)).
Proof. apply (bool_decide_unpack _). vm_compute. exact I. Qed.

(** C3, refuted as stated.  Two images shown 3 s with a 2 s transition: the
    first slide fades out over 2 s, not over min(2, 0.5 * 3) = 1.5 s, and
    2 s is more than half the slide. *)
Lemma fade_is_not_min_with_half :
  (mp.clip_fade <$> processed_image_clips (snd two_slides_long_transition))
    = [Some 2; None]
  /\ ~ (2 == Py.min 2 ((1 # 2) * 3))
  /\ ~ (2 <= (1 # 2) * 3).
Proof.
  repeat split; try (vm_compute; reflexivity).
  - intros H. vm_compute in H. discriminate.
  - intros H. vm_compute in H. apply H. reflexivity.
Qed.


End Runs.

(** ** Resolving an identifier to a path *)

Module Resolve.
Import Backend.

Lemma startswith_iff (f file_id : string) :
  startswith f file_id = true <-> exists suffix, f = file_id +:+ suffix.
Proof.
  unfold startswith. revert f.
  induction file_id as [|c file_id IH]; intros f.
  - split; [intros _; exists f; reflexivity | destruct f; reflexivity].
  - destruct f as [|c' f]; simpl.
    + split; [discriminate | intros [s Hs]; discriminate].
    + destruct (Ascii.ascii_dec c c') as [->|Hne].
      * rewrite IH. split; intros [s Hs]; exists s.
        -- simpl. now rewrite Hs.
        -- simpl in Hs. now injection Hs.
      * split; [discriminate | intros [s Hs]; injection Hs as H1 H2; congruence].
Qed.

Lemma startswith_empty (f : string) : startswith f "" = true.
Proof. destruct f; reflexivity. Qed.

Lemma filter_nil_iff {A} (p : A -> bool) (l : list A) :
  List.filter p l = [] <-> forall x, In x l -> p x = false.
Proof.
  induction l as [|a l IH]; simpl.
  - split; [intros _ x [] | reflexivity].
  - destruct (p a) eqn:E.
    + split; [discriminate | intros H; specialize (H a (or_introl eq_refl)); congruence].
    + rewrite IH. split.
      * intros H x [<-|Hx]; auto.
      * intros H x Hx; auto.
Qed.

Lemma resolve_listed (disk : FS) (file_id directory : string)
    (names : list string) :
  os_listdir disk directory = inr names ->
  resolve_file_id_to_path disk file_id directory
  = match List.filter (fun f => startswith f file_id) names with
    | [] => inl (HTTP (mkHTTPException 404 (FileIdNotFound file_id directory)))
    | f :: _ => inr (path_join directory f)
    end.
Proof. unfold resolve_file_id_to_path. intros ->. reflexivity. Qed.

Lemma os_listdir_listdir (disk : FS) (directory : string)
    (names : list string) :
  os_listdir disk directory = inr names -> listdir disk directory = names.
Proof.
  unfold os_listdir, listdir.
  destruct (dirs disk !! directory); [intros [= <-]; reflexivity | discriminate].
Qed.

(** On a directory that is not there, the resolver does not answer 404:
    the [FileNotFoundError] of [os.listdir] leaves it. *)
Lemma resolve_missing_directory (disk : FS) (file_id directory : string) :
  dirs disk !! directory = None ->
  resolve_file_id_to_path disk file_id directory
  = inl (Uncaught (FileNotFoundError directory)).
Proof.
  unfold resolve_file_id_to_path, os_listdir. intros ->. reflexivity.
Qed.

(** C9.  In a directory that can be listed, the resolver answers 404
    exactly when no name listed in the directory starts with the
    identifier, and it has no other failure; so with the empty identifier
    and a directory that lists at least one name, it answers the path of
    the first name listed. *)
Theorem resolve_file_id_to_path_not_found_iff
    (disk : FS) (file_id directory : string) (names : list string) :
  os_listdir disk directory = inr names ->
  ((exists e, resolve_file_id_to_path disk file_id directory = inl e)
   <-> ~ exists f suffix, In f names /\ f = file_id +:+ suffix)
  /\ (forall e, resolve_file_id_to_path disk file_id directory = inl e ->
        e = HTTP (mkHTTPException 404 (FileIdNotFound file_id directory)))
  /\ (forall f rest, names = f :: rest ->
        resolve_file_id_to_path disk "" directory
        = inr (path_join directory f)).
Proof.
  intros Hlist.
  rewrite (resolve_listed disk file_id directory names Hlist).
  rewrite (resolve_listed disk "" directory names Hlist).
  repeat split.
  - intros [e He] (f & s & Hin & Hf).
    destruct (List.filter _ _) eqn:E; [|discriminate].
    pose proof (proj1 (filter_nil_iff _ _) E f Hin) as Hp.
    assert (startswith f file_id = true) by (apply startswith_iff; eauto).
    congruence.
  - intros Hno.
    destruct (List.filter _ _) as [|g l] eqn:E; [eauto|].
    exfalso. apply Hno.
    assert (Hg : In g (List.filter (fun f => startswith f file_id) names))
      by (rewrite E; left; reflexivity).
    apply filter_In in Hg as [Hin Hp].
    apply startswith_iff in Hp as [s Hs]. eauto.
  - intros e. destruct (List.filter _ _); congruence.
  - intros f rest ->. simpl. rewrite startswith_empty. reflexivity.
Qed.

Lemma resolve_file_id_to_path_not_found_iff_witness :
  resolve_file_id_to_path Scenario.disk "" UPLOAD_DIR
  = inr "uploaded_files/img-a.png".
Proof.
  exact (proj2 (proj2 (resolve_file_id_to_path_not_found_iff
                         Scenario.disk "" UPLOAD_DIR Scenario.uploads eq_refl))
               "img-a.png" (tail Scenario.uploads) eq_refl).
Defined.

End Resolve.

(** ** The pan position *)

Module PanFacts.
Import Backend Pan.
Local Open Scope float_scope.


(** Reading a float through its specification. *)
Lemma eqb_zero_inv x : (x =? 0) = true -> exists s, Prim2SF x = S754_zero s.
Proof.
  rewrite FloatAxioms.eqb_spec. change (Prim2SF 0) with (S754_zero false).
  destruct (Prim2SF x) as [s| [|] | | [|] m e]; try discriminate; eauto.
Qed.

Lemma eqb_zero_intro x s : Prim2SF x = S754_zero s -> (x =? 0) = true.
Proof. intros H. rewrite FloatAxioms.eqb_spec, H. reflexivity. Qed.

Lemma not_nan_inv x : is_nan x = false -> Prim2SF x <> S754_nan.
Proof.
  unfold is_nan. rewrite FloatAxioms.eqb_spec. intros H E.
  rewrite E in H. discriminate.
Qed.

Lemma finite_inv x :
  is_finite x = true ->
  (exists s, Prim2SF x = S754_zero s)
  \/ (exists s m e, Prim2SF x = S754_finite s m e).
Proof.
  unfold is_finite, is_nan, is_infinity.
  rewrite FloatAxioms.eqb_spec, FloatAxioms.eqb_spec, abs_spec.
  change (Prim2SF infinity) with (S754_infinity false).
  destruct (Prim2SF x) as [s| [|] | | s m e]; try discriminate; eauto 6.
Qed.

Lemma SFcompare_refl x : x <> S754_nan -> SFcompare x x = Some Eq.
Proof.
  destruct x as [s| [|] | | [|] m e]; intros H; try reflexivity;
    try contradiction; cbn; rewrite Z.compare_refl;
    change (Pos.compare_cont Eq m m) with (Pos.compare m m);
    rewrite Pos.compare_refl; reflexivity.
Qed.

(** A zero is not an infinity. *)
Lemma zero_not_infinity x : (x =? 0) = true -> is_infinity x = false.
Proof.
  intros H. apply eqb_zero_inv in H as [s H].
  unfold is_infinity. rewrite FloatAxioms.eqb_spec, abs_spec, H. reflexivity.
Qed.

(** At a time that is zero, the argument of the sine is a zero, whatever
    the period, provided that is neither zero nor NaN. *)
Lemma angle_at_zero (t p : float) :
  (t =? 0) = true -> (p =? 0) = false -> is_nan p = false ->
  (angle t p =? 0) = true.
Proof.
  intros Ht Hp Hnan. apply eqb_zero_inv in Ht as [s Ht].
  pose proof (not_nan_inv p Hnan) as Hn.
  assert (Hz : forall s', Prim2SF p <> S754_zero s').
  { intros s' E. rewrite (eqb_zero_intro p s' E) in Hp. discriminate. }
  unfold angle.
  assert (Hm : Prim2SF (2 * pi * t) = S754_zero s).
  { rewrite mul_spec, Ht. reflexivity. }
  destruct (Prim2SF p) as [s'| s' | | s' m e] eqn:E.
  - exfalso. apply (Hz s'). reflexivity.
  - apply (eqb_zero_intro _ (xorb s s')). rewrite div_spec, Hm, E. reflexivity.
  - contradiction.
  - apply (eqb_zero_intro _ (xorb s s')). rewrite div_spec, Hm, E. reflexivity.
Qed.

(** Adding a finite multiple of a zero changes nothing. *)
Lemma add_zero_multiple (b a z : float) :
  is_nan b = false -> is_finite a = true -> (z =? 0) = true ->
  (b + a * z =? b) = true.
Proof.
  intros Hb Ha Hz. apply eqb_zero_inv in Hz as [sz Hz].
  pose proof (not_nan_inv b Hb) as Hn.
  assert (Hm : exists s, Prim2SF (a * z) = S754_zero s).
  { rewrite mul_spec, Hz.
    destruct (finite_inv a Ha) as [[s E]|(s & m & e & E)]; rewrite E;
      eexists; reflexivity. }
  destruct Hm as [s Hm].
  rewrite FloatAxioms.eqb_spec, add_spec, Hm.
  unfold SFeqb.
  destruct (Prim2SF b) as [[|]| sb | | sb m e] eqn:E;
    try contradiction; try (destruct s; reflexivity);
    try (destruct sb; reflexivity).
  change (SF64add (S754_finite sb m e) (S754_zero s))
    with (S754_finite sb m e).
  rewrite SFcompare_refl by discriminate. reflexivity.
Qed.

Section Sine.
Variable libm_sin : float -> float.
Local Abbreviation get_y := (get_y_position libm_sin).

End Sine.


End PanFacts.

(** ** Text overlays *)

Module TextFacts.
Import Backend Timeline.

Create HintDb run_db.
#[export] Hint Unfold mbind M_bind bind mret M_ret ret get modify obj aobj
  raise return_ exit the append_processed append_text_clip set_base_video
  set_final_video_clip set_full_audio_clip_main
  set_temp_audio_segment_intermediate set_audio_segment_final_for_video
  : run_db.

(** Unfold the monad and compute, leaving the arithmetic alone. *)
Ltac run :=
  autounfold with run_db;
  cbn -[Py.ltb Py.leb Py.gtb Py.geb Py.eqb Py.max Py.min
        Qplus Qminus Qmult Qdiv Qopp mp.sum_durations mp.max_size].

Lemma gtb_true a b : b < a -> Py.gtb a b = true.
Proof. intros H. destruct (PyFacts.gtb_spec a b); [reflexivity | contradiction]. Qed.

Lemma gtb_false a b : a <= b -> Py.gtb a b = false.
Proof. intros H. destruct (PyFacts.gtb_spec a b); [lra | reflexivity]. Qed.

Lemma leb_false a b : b < a -> Py.leb a b = false.
Proof. intros H. destruct (PyFacts.leb_spec a b); [lra | reflexivity]. Qed.

Lemma leb_true a b : a <= b -> Py.leb a b = true.
Proof. intros H. destruct (PyFacts.leb_spec a b); [reflexivity | contradiction]. Qed.

(** The step of the inner loop is the effective duration of the slide. *)
Lemma clip_eff_duration_effective (image_paths : list string) (d td : Q) (j : nat) :
  clip_eff_duration image_paths d td (Z.of_nat j)
  = effective_duration (length image_paths) d td j.
Proof.
  unfold clip_eff_duration, effective_duration.
  replace (Z.of_nat j <? Z.of_nat (length image_paths) - 1)%Z
    with (S j <? length image_paths)%nat; [reflexivity|].
  destruct (Nat.ltb_spec (S j) (length image_paths));
    destruct (Z.ltb_spec (Z.of_nat j) (Z.of_nat (length image_paths) - 1));
    try reflexivity; lia.
Qed.

Lemma fold_left_running_sum {A} (f : A -> Q) (l : list A) (a : Q) :
  fold_left (fun acc x => acc + f x) l a == a + fold_right Qplus 0 (f <$> l).
Proof.
  revert a. induction l as [|x l IH]; intros a; cbn -[Qplus].
  - ring.
  - rewrite IH. ring.
Qed.

(** Lines 345-352 compute the cumulative effective duration. *)
Lemma text_start_is_cumulative (image_paths : list string) (d td : Q) (k : nat) :
  fold_left (fun current_start_time k_idx =>
               current_start_time + clip_eff_duration image_paths d td k_idx)
            (range (Z.of_nat k)) 0
  == cumulative_effective_duration (length image_paths) d td k.
Proof.
  unfold range, cumulative_effective_duration. rewrite Nat2Z.id.
  rewrite fold_left_running_sum.
  assert (E : forall l : list nat,
             clip_eff_duration image_paths d td <$> (Z.of_nat <$> l)
             = effective_duration (length image_paths) d td <$> l).
  { induction l as [|j l IH]; cbn -[clip_eff_duration effective_duration];
      [reflexivity|].
    rewrite clip_eff_duration_effective. f_equal. exact IH. }
  rewrite E. ring.
Qed.

Section Overlay.

Variables (image_paths : list string) (d td total : Q).
Variable video_size : Z * Z.
Variable text_data : TextOverlay.
Variable st : St.

Let n := length image_paths.

(** C5.  A text bound to a valid image index [k] starts at the sum of the
    effective durations of slides [0 .. k-1] and lasts the display
    duration; when that would end after the timeline, it is cut to end on
    the timeline's end, and it is dropped when nothing is left. *)
Theorem indexed_text_timing (idx : Z) :
  image_index text_data = Some idx ->
  (0 <= idx < Z.of_nat (length (processed_image_clips st)))%Z ->
  0 < d ->
  let s := cumulative_effective_duration n d td (Z.to_nat idx) in
  exists st',
    process_text image_paths d td video_size total text_data st = (inl tt, st')
    /\ ((s + d <= total
         /\ exists c, text_clips_to_composite st'
                      = text_clips_to_composite st ++ [c]
                      /\ mp.clip_start c == s
                      /\ mp.clip_duration c = Some d)
        \/ (total < s + d /\ s < total
            /\ exists c dur e,
                 text_clips_to_composite st'
                 = text_clips_to_composite st ++ [c]
                 /\ mp.clip_start c == s
                 /\ mp.clip_duration c = Some dur /\ dur == total - s
                 /\ mp.clip_end c = Some e /\ e == total)
        \/ (total < s + d /\ total <= s
            /\ text_clips_to_composite st' = text_clips_to_composite st)).
Proof.
  intros Hidx Hrange Hd s.
  pose proof (text_start_is_cumulative image_paths d td (Z.to_nat idx)) as Hs.
  rewrite Z2Nat.id in Hs by lia. fold n in Hs. fold s in Hs.
  set (s0 := fold_left _ _ _) in Hs.
  assert (Ht : text_timing image_paths d td (length (processed_image_clips st))
                 total text_data = (s0, d)).
  { unfold text_timing. rewrite Hidx.
    destruct (Z.leb_spec 0 idx); [|lia].
    destruct (Z.ltb_spec idx (Z.of_nat (length (processed_image_clips st)))); [|lia].
    reflexivity. }
  clearbody s0. unfold process_text. run. rewrite Ht.
  rewrite (leb_false d 0) by exact Hd.
  unfold create_text_clip_with_style. run.
  assert (Hg : Py.gtb d 0 = true) by (apply gtb_true; exact Hd).
  rewrite Hg. run.
  destruct (PyFacts.gtb_spec (s0 + d) total) as [Hlate|Hfit]; run;
    rewrite ?Hg; run.
  - destruct (PyFacts.gtb_spec (Py.max 0 (total - s0)) 0) as [Hleft|Hnone].
    + eexists. split; [reflexivity|]. right; left.
      destruct (PyFacts.max_spec 0 (total - s0)) as [[H1 H2]|[H1 H2]];
        rewrite H2 in *; [|lra].
      repeat split; try lra.
      eexists _, _, _. repeat split; try reflexivity; run; lra.
    + eexists. split; [reflexivity|]. right; right.
      destruct (PyFacts.max_spec 0 (total - s0)) as [[H1 H2]|[H1 H2]];
        rewrite H2 in *; [lra|].
      repeat split; lra.
  - eexists. split; [reflexivity|]. left. split; [lra|].
    eexists. repeat split; try reflexivity; run; lra.
Qed.


End Overlay.

Lemma indexed_text_timing_witness :
  exists st',
    process_text
      [Scenario.upload "img-a.png"; Scenario.upload "img-b.png";
       Scenario.upload "img-c.png"] 3 1 Scenario.canvas 9
      (mkTextOverlay "second" "Minimal" (Some 1%Z) bottom)
      (snd Scenario.three_slides)
    = (inl tt, st').
Proof.
  destruct (indexed_text_timing
              [Scenario.upload "img-a.png"; Scenario.upload "img-b.png";
               Scenario.upload "img-c.png"] 3 1 9 Scenario.canvas
              (mkTextOverlay "second" "Minimal" (Some 1%Z) bottom)
              (snd Scenario.three_slides) 1%Z eq_refl)
    as (st' & H & _).
  - vm_compute. split; [discriminate | reflexivity].
  - reflexivity.
  - exists st'. exact H.
Defined.


End TextFacts.


(** ** Slides *)

Module SlideFacts.
Import Backend Reference TextFacts.

Lemma vfx_has_rotate : vfx_getattr "rotate" = ret tt.
Proof. reflexivity. Qed.

Lemma vfx_lacks_audio_loop :
  vfx_getattr "audio_loop"
  = raise (AttributeError
      "module 'moviepy.video.fx.all' has no attribute 'audio_loop'").
Proof. reflexivity. Qed.

Section Slides.

Variables (image_paths : list string) (d td : Q).
Variable texts : option (list TextOverlay).
Variable video_size : Z * Z.

Hypothesis d_pos : 0 < d.

Lemma animate_keeps_duration (b : bool) (c : mp.VideoClip) (st : St) :
  mp.clip_duration c = Some d ->
  exists c' st',
    animate texts video_size b c st = (inl c', st')
    /\ mp.clip_duration c' = Some d /\ mp.clip_fade c' = None
    /\ processed_image_clips st' = processed_image_clips st
    /\ fs st' = fs st.
Proof.
  intros Hc. unfold animate.
  destruct (animation_type texts b).
  - run. rewrite Hc. run. eexists _, _. repeat split; reflexivity.
  - rewrite vfx_has_rotate. run. rewrite Hc. run.
    eexists _, _. repeat split; reflexivity.
Qed.

Lemma crossfade_fades (i : nat) (c : mp.VideoClip) (st : St) :
  mp.clip_duration c = Some d ->
  mp.clip_fade c = None ->
  exists c' st',
    crossfade image_paths td i c st = (inl c', st')
    /\ mp.clip_duration c' = Some d /\ mp.clip_fade c' = fade_at image_paths d td i
    /\ processed_image_clips st' = processed_image_clips st
    /\ fs st' = fs st.
Proof.
  intros Hc Hf. unfold crossfade, fade_at.
  destruct (_ && _).
  - rewrite Hc, (leb_false d 0) by exact d_pos. run.
    eexists _, _. repeat split; try reflexivity. exact Hc.
  - run. eexists _, _. repeat split; try reflexivity; assumption.
Qed.

Lemma process_image_appends (b : bool) (i : nat) (img_path : string) (st : St) :
  loads (fs st) img_path ->
  exists c st',
    process_image image_paths d td texts video_size b i img_path st
    = (inl tt, st')
    /\ processed_image_clips st' = processed_image_clips st ++ [c]
    /\ fs st' = fs st
    /\ mp.clip_duration c = Some d
    /\ mp.clip_fade c = fade_at image_paths d td i.
Proof.
  intros (sz & w & h & Hfile).
  unfold process_image, Image_open. run. rewrite Hfile. run.
  match goal with
  | |- context [mp.with_oid (mp.set_duration ?x (Some d)) ?o] =>
      set (cropped := mp.with_oid (mp.set_duration x (Some d)) o)
  end.
  assert (Hcd : mp.clip_duration cropped = Some d) by reflexivity.
  assert (Hcf : mp.clip_fade cropped = None) by reflexivity.
  clearbody cropped.
  match goal with
  | |- context [(if b then _ else _) ?s] => set (st1 := s)
  end.
  assert (Hp1 : processed_image_clips st1 = processed_image_clips st)
    by reflexivity.
  assert (Hf1 : fs st1 = fs st) by reflexivity.
  clearbody st1.
  assert (Hcanvas : exists c2 st2,
             (if b then animate texts video_size b cropped
              else fun st0 => (inl cropped, st0)) st1 = (inl c2, st2)
             /\ mp.clip_duration c2 = Some d /\ mp.clip_fade c2 = None
             /\ processed_image_clips st2 = processed_image_clips st
             /\ fs st2 = fs st).
  { destruct b.
    - destruct (animate_keeps_duration true cropped st1 Hcd)
        as (c2 & st2 & E & H1 & H2 & H3 & H4).
      exists c2, st2. repeat split; congruence.
    - exists cropped, st1. repeat split; assumption. }
  destruct Hcanvas as (c2 & st2 & E2 & Hd2 & Hfd2 & Hp2 & Hf2).
  rewrite E2.
  destruct (crossfade_fades i c2 st2 Hd2 Hfd2)
    as (c3 & st3 & E3 & Hd3 & Hfd3 & Hp3 & Hf3).
  rewrite E3, Hd3, (leb_false d 0) by exact d_pos.
  exists c3. eexists. split; [reflexivity|]. run.
  repeat split; congruence.
Qed.

(** The image loop on paths that all load: one slide per path, each
    lasting the display duration, each with the fade-out of its place. *)
Lemma image_loop_appends (b : bool) (l : list string) :
  forall (i : nat) (st : St),
    (forall p, In p l -> loads (fs st) p) ->
    exists cs st',
      for_enumerate i l
        (process_image image_paths d td texts video_size b) st
      = (inl tt, st')
      /\ processed_image_clips st' = processed_image_clips st ++ cs
      /\ fs st' = fs st
      /\ length cs = length l
      /\ forall j c, cs !! j = Some c ->
           mp.clip_duration c = Some d /\ mp.clip_fade c = fade_at image_paths d td (i + j).
Proof.
  induction l as [|p l IH]; intros i st Hl.
  - exists [], st. run. rewrite app_nil_r.
    do 4 (split; [reflexivity|]). intros j c Hj. discriminate.
  - destruct (process_image_appends b i p st (Hl p (or_introl eq_refl)))
      as (c & st1 & E1 & Hp1 & Hf1 & Hd1 & Hfd1).
    destruct (IH (S i) st1) as (cs & st2 & E2 & Hp2 & Hf2 & Hlen & Hcs).
    { intros q Hq. rewrite Hf1. apply Hl. right. exact Hq. }
    exists (c :: cs), st2.
    cbn [for_enumerate]. unfold mbind, M_bind, bind. rewrite E1, E2.
    split; [reflexivity|].
    split; [rewrite Hp2, Hp1, <- app_assoc; reflexivity|].
    split; [congruence|].
    split; [simpl; congruence|].
    intros [|j] c' Hj; simpl in Hj.
    + injection Hj as <-. rewrite Nat.add_0_r. split; assumption.
    + replace (i + S j)%nat with (S i + j)%nat by lia. apply (Hcs j c' Hj).
Qed.

End Slides.

Lemma actual_transition_cases (td d : Q) :
  0 < d -> 0 < td ->
  (td < d -> actual_transition td d = td)
  /\ (d <= td -> actual_transition td d = Py.max (1 # 10) (d * (1 # 2)))
  /\ 0 < actual_transition td d
  /\ ((1 # 10) <= d -> actual_transition td d <= d).
Proof.
  intros Hd Htd. unfold actual_transition.
  destruct (PyFacts.geb_spec td d) as [Hge|Hlt].
  - destruct (PyFacts.max_spec (1 # 10) (d * (1 # 2))) as [[H1 ->]|[H1 ->]];
      repeat split; try reflexivity; intros; lra.
  - repeat split; try reflexivity; intros; lra.
Qed.

(** C3, as the code has it.  When every image loads, each slide but the
    last, under a positive transition, keeps its display duration and fades
    out over the transition duration itself when that is shorter than the
    slide, and over max(0.1, half the slide) otherwise; the fade-out is
    positive, and it fits in the slide as soon as the slide lasts 0.1 s. *)
Theorem slide_fade_out
    (image_paths : list string) (d td : Q) (texts : option (list TextOverlay))
    (video_size : Z * Z) (enable_image_animations : bool)
    (disk : FS) (enc : bool) :
  0 < d -> 0 < td ->
  (forall p, In p image_paths -> loads disk p) ->
  exists st',
    for_enumerate 0 image_paths
      (process_image image_paths d td texts video_size enable_image_animations)
      (initial disk enc)
    = (inl tt, st')
    /\ length (processed_image_clips st') = length image_paths
    /\ forall i c,
         processed_image_clips st' !! i = Some c ->
         (S i < length image_paths)%nat ->
         mp.clip_duration c = Some d
         /\ exists fade,
              mp.clip_fade c = Some fade
              /\ (td < d -> fade = td)
              /\ (d <= td -> fade = Py.max (1 # 10) (d * (1 # 2)))
              /\ 0 < fade
              /\ ((1 # 10) <= d -> fade <= d).
Proof.
  intros Hd Htd Hload.
  destruct (image_loop_appends image_paths d td texts video_size Hd
              enable_image_animations image_paths 0 (initial disk enc) Hload)
    as (cs & st' & E & Hp & _ & Hlen & Hcs).
  exists st'. simpl in Hp. subst cs.
  split; [exact E|]. split; [exact Hlen|].
  intros i c Hi Hnotlast.
  destruct (Hcs i c Hi) as [Hdur Hfade]. split; [exact Hdur|].
  exists (actual_transition td d). split.
  - rewrite Hfade. unfold fade_at. simpl.
    destruct (Z.ltb_spec (Z.of_nat i) (Z.of_nat (length image_paths) - 1));
      [|lia].
    rewrite (gtb_true td 0) by exact Htd. reflexivity.
  - apply actual_transition_cases; assumption.
Qed.

Lemma slide_fade_out_witness :
  exists st',
    for_enumerate 0
      [Scenario.upload "img-a.png"; Scenario.upload "img-b.png"]
      (process_image
         [Scenario.upload "img-a.png"; Scenario.upload "img-b.png"]
         3 2 None Scenario.canvas false)
      (initial Scenario.disk true)
    = (inl tt, st')
    /\ length (processed_image_clips st') = 2%nat.
Proof.
  destruct (slide_fade_out
              [Scenario.upload "img-a.png"; Scenario.upload "img-b.png"]
              3 2 None Scenario.canvas false Scenario.disk true)
    as (st' & E & Hlen & _).
  - reflexivity.
  - reflexivity.
  - intros p [<-|[<-|[]]]; eexists _, _, _; vm_compute; reflexivity.
  - exists st'. split; assumption.
Defined.

(** Concatenation puts the slides end to end: with [n] slides of duration
    [d] the base video lasts [n * d], whatever the fade-outs. *)
Lemma concatenation_adds_durations (d : Q) (cs : list mp.VideoClip) :
  (forall j c, cs !! j = Some c -> mp.clip_duration c = Some d) ->
  exists t,
    mp.clip_duration (mp.concatenate_videoclips cs) = Some t
    /\ t == inject_Z (Z.of_nat (length cs)) * d.
Proof.
  intros Hcs. eexists. split; [reflexivity|].
  unfold mp.sum_durations.
  rewrite (fold_left_running_sum
             (fun c => default 0 (mp.clip_duration c)) cs 0).
  induction cs as [|c cs IH].
  - cbn -[Qplus Qmult]. ring.
  - cbn [length fmap list_fmap fold_right].
    rewrite (Hcs 0%nat c eq_refl). cbn [default].
    rewrite Nat2Z.inj_succ. unfold Z.succ. rewrite inject_Z_plus.
    assert (IH' := IH (fun j c' H => Hcs (S j) c' H)).
    change (inject_Z 1) with 1. change (Datatypes.id d) with d.
    rewrite Qmult_plus_distr_l, <- IH'. ring.
Qed.

End SlideFacts.

(** ** The system around a call *)

Module SystemFacts.
Import Backend Reference.

#[export] Instance same_system_frame : Frame same_system.
Proof.
  split.
  - intros st. repeat split.
  - unfold same_system. intros a b c. intuition congruence.
  - intros. repeat split.
  - intros. repeat split.
Qed.

#[export] Instance same_world_frame : Frame same_world.
Proof.
  split.
  - intros st. repeat split.
  - unfold same_world, same_system. intros a b c. intuition congruence.
  - intros. repeat split.
  - intros. repeat split.
Qed.

#[export] Instance spares_frame (path : string) : Frame (spares path).
Proof.
  split.
  - intros st q Hq. reflexivity.
  - unfold spares. intros a b c Hab Hbc q Hq. rewrite Hbc, Hab; auto.
  - intros st pic bv fv tc fa ta af q Hq. reflexivity.
  - intros st n cl ao q Hq. reflexivity.
Qed.

Section Frames.

Context (P : St -> St -> Prop) `{!Frame P}.

Lemma kept_ret {A} (a : A) : kept P (mret a).
Proof. intros st r st' [= <- <-]. apply frame_refl. Qed.

Lemma kept_bind {A B} (m : M A) (k : A -> M B) :
  kept P m -> (forall a, kept P (k a)) -> kept P (m ≫= k).
Proof.
  intros Hm Hk st r st'. unfold mbind, M_bind, bind.
  destruct (m st) as [[a|c] st1] eqn:E; intros H.
  - eapply frame_trans; [exact (Hm _ _ _ E) | exact (Hk a _ _ _ H)].
  - injection H as <- <-. exact (Hm _ _ _ E).
Qed.

Lemma kept_get {A} (proj : St -> A) : kept P (get proj).
Proof. intros st r st' [= <- <-]. apply frame_refl. Qed.

Lemma kept_modify (f : St -> St) :
  (forall st, P st (f st)) -> kept P (modify f).
Proof. intros Hf st r st' [= <- <-]. apply Hf. Qed.

Lemma kept_obj c : kept P (obj c).
Proof. intros st r st' [= <- <-]. apply frame_world. Qed.

Lemma kept_aobj a : kept P (aobj a).
Proof. intros st r st' [= <- <-]. apply frame_world. Qed.

Lemma kept_exit {A} c : kept P (@exit A c).
Proof. intros st r st' [= <- <-]. apply frame_refl. Qed.

Lemma kept_the {A} (o : option A) : kept P (the o).
Proof. destruct o; [apply kept_ret | apply kept_exit]. Qed.

Lemma kept_vfx_getattr name : kept P (vfx_getattr name).
Proof.
  unfold vfx_getattr. destruct (bool_decide _);
    [apply kept_ret | apply kept_exit].
Qed.

Lemma kept_try_except {A} (m : M A) (h : Exn -> M A) :
  kept P m -> (forall e, kept P (h e)) -> kept P (try_except m h).
Proof.
  intros Hm Hh st r st'. unfold try_except.
  destruct (m st) as [[a|[ok msg|e]] st1] eqn:E; intros H.
  - injection H as <- <-. exact (Hm _ _ _ E).
  - injection H as <- <-. exact (Hm _ _ _ E).
  - eapply frame_trans; [exact (Hm _ _ _ E) | exact (Hh e _ _ _ H)].
Qed.

Lemma kept_for_enumerate {A} (body : nat -> A -> M unit) (l : list A) :
  (forall i x, kept P (body i x)) ->
  forall i, kept P (for_enumerate i l body).
Proof.
  intros Hb. induction l as [|x l IH]; intros i; cbn [for_enumerate].
  - apply kept_ret.
  - apply kept_bind; [apply Hb | intros _; apply IH].
Qed.

Lemma close_all_frame (l : list mp.VideoClip) (st : St) :
  P st (fold_left (fun s clip => close_oid (mp.oid clip) s) l st).
Proof.
  revert st. induction l as [|c l IH]; intros st; simpl.
  - apply frame_refl.
  - eapply frame_trans; [apply (frame_world st)|apply IH].
Qed.

Lemma finally_block_frame (st : St) : P st (finally_block st).
Proof.
  unfold finally_block. cbv zeta.
  repeat match goal with
  | |- P _ (close_audio ?a ?s) =>
      apply (frame_trans _ s);
        [|destruct a; [apply frame_world | apply frame_refl]]
  | |- P _ (close_video ?a ?s) =>
      apply (frame_trans _ s);
        [|destruct a; [apply frame_world | apply frame_refl]]
  | |- P _ (fold_left _ ?l ?s) =>
      apply (frame_trans _ s); [|apply close_all_frame]
  | |- P _ (match temp_audio_segment_intermediate ?s with _ => _ end) =>
      apply (frame_trans _ s);
        [|destruct (temp_audio_segment_intermediate s) as [t|];
          [destruct (audio_segment_final_for_video s) as [a|];
             [destruct (is_not t a)|]|];
          first [apply frame_world | apply frame_refl]]
  end.
  apply frame_refl.
Qed.

End Frames.

(** One step through a computation: a bind, a handler, a loop, a branch,
    or a leaf. *)
Ltac kept_step :=
  match goal with
  | |- kept _ (_ ≫= _) => apply kept_bind; try exact _; [|intros ?]
  | |- kept _ (try_except _ _) =>
      apply kept_try_except; try exact _; [|intros ?]
  | |- kept _ (for_enumerate _ _ _) =>
      apply kept_for_enumerate; try exact _; intros ? ?
  | |- kept _ (match ?x with _ => _ end) => destruct x
  | |- kept _ _ =>
      first [ assumption
            | solve [auto]
            | apply kept_ret; exact _
            | apply kept_get; exact _
            | apply kept_obj; exact _
            | apply kept_aobj; exact _
            | apply kept_exit; exact _
            | apply kept_the; exact _
            | apply kept_vfx_getattr; exact _
            | apply kept_modify; try exact _; intros ?;
              first [apply frame_upd | apply frame_world] ]
  end.

Section Logic.

Variables (image_paths : list string) (audio_path output_path : string).
Variables (d td start : Q) (segment : option Q) (fps : Z).
Variable texts : option (list TextOverlay).
Variable video_size : Z * Z.
Variable animations : bool.

Context (P : St -> St -> Prop) `{!Frame P}.

Lemma kept_process_image i p :
  kept P (process_image image_paths d td texts video_size animations i p).
Proof.
  unfold process_image, Image_open, animate, crossfade, raise.
  repeat kept_step.
Qed.

Lemma kept_process_text total t :
  kept P (process_text image_paths d td video_size total t).
Proof.
  unfold process_text, create_text_clip_with_style, raise.
  repeat kept_step.
Qed.

Lemma kept_composite_stage total : kept P (composite_stage video_size total).
Proof. unfold composite_stage, raise. repeat kept_step. Qed.

Lemma kept_audio_stage total :
  kept P (audio_stage audio_path start segment total).
Proof.
  unfold audio_stage, bind_audio, AudioFileClip, subclip, raise, return_.
  repeat kept_step.
Qed.

(** The whole [try] block keeps what its last step, the encoder, keeps. *)
Lemma kept_try_block :
  kept P (write_videofile output_path fps) ->
  kept P (try_block image_paths audio_path output_path d td start segment
            fps texts video_size animations).
Proof.
  intros Hwrite.
  pose proof kept_process_image. pose proof kept_process_text.
  pose proof kept_composite_stage. pose proof kept_audio_stage.
  unfold try_block, write_stage, raise, return_.
  repeat kept_step.
Qed.

Lemma logic_frame (st : St) :
  kept P (write_videofile output_path fps) ->
  P st (snd (_create_video_from_images_and_music_logic image_paths audio_path
               output_path d td start segment fps texts video_size animations
               st)).
Proof.
  intros Hwrite. unfold _create_video_from_images_and_music_logic.
  destruct (try_block _ _ _ _ _ _ _ _ _ _ _ st) as [r st1] eqn:E.
  apply (kept_try_block Hwrite) in E.
  assert (H : P st (finally_block st1))
    by (eapply frame_trans; [exact E | apply finally_block_frame; assumption]).
  destruct r as [[]|c]; exact H.
Qed.

End Logic.

Lemma write_videofile_same_system path fps :
  kept same_system (write_videofile path fps).
Proof.
  intros st r st'. unfold write_videofile.
  destruct (creat _ _ _ _); intros [= <- <-]; repeat split.
Qed.

(** The logic function leaves the system as it finds it. *)
Lemma logic_same_system
    (image_paths : list string) (audio_path output_path : string)
    (d td start : Q) (segment : option Q) (fps : Z)
    (texts : option (list TextOverlay)) (video_size : Z * Z)
    (animations : bool) (st : St) :
  same_system st
    (snd (_create_video_from_images_and_music_logic image_paths audio_path
            output_path d td start segment fps texts video_size animations
            st)).
Proof. apply logic_frame; [exact _ | apply write_videofile_same_system]. Qed.

Lemma bind_inl_inv {A B} (m : M A) (k : A -> M B) st b st' :
  (m ≫= k) st = (inl b, st') ->
  exists a st1, m st = (inl a, st1) /\ k a st1 = (inl b, st').
Proof.
  unfold mbind, M_bind, bind.
  destruct (m st) as [[a|c] st1]; [eauto | discriminate].
Qed.

Lemma try_except_inl_inv {A} (m : M A) (f : Exn -> Message) st a st' :
  try_except m (fun e => return_ false (f e)) st = (inl a, st') ->
  m st = (inl a, st').
Proof.
  unfold try_except.
  destruct (m st) as [[a'|[ok msg|e]] st1]; intros H;
    [exact H | discriminate | discriminate].
Qed.

(** A file that could be created is there, and is listed. *)
Lemma creat_inv (pos : nat) (path : string) (f : File) (disk disk' : FS) :
  creat pos path f disk = Some disk' ->
  exists names,
    dirs disk !! dirname path = Some names
    /\ valid_name (basename path) = true
    /\ dirs disk !! path = None
    /\ dirs disk' = <[dirname path := listing_add pos (basename path) names]>
                      (dirs disk)
    /\ files disk' = <[path := f]> (files disk).
Proof.
  unfold creat. destruct (dirs disk !! dirname path) as [names|]; [|discriminate].
  destruct (valid_name _) eqn:V; [|discriminate].
  destruct (bool_decide _) eqn:D; [|discriminate].
  destruct (refuses disk path); [discriminate|].
  apply bool_decide_eq_true in D.
  intros [= <-]. exists names. auto.
Qed.

Lemma creat_lookup (pos : nat) (path : string) (f : File) (disk disk' : FS) :
  creat pos path f disk = Some disk' -> files disk' !! path = Some f.
Proof.
  intros H. apply creat_inv in H as (names & _ & _ & _ & _ & ->).
  apply lookup_insert_eq.
Qed.

(** Lines 617-619 leave everything but the disk alone, and the disk too
    when nothing is at the path. *)
Lemma remove_if_exists_spec (path : string) (st : St) :
  let st' := remove_if_exists path st in
  audio_opens st' = audio_opens st
  /\ full_audio_clip_main st' = full_audio_clip_main st
  /\ closed st' = closed st
  /\ (files (fs st') !! path = None
      /\ files (fs st') = delete path (files (fs st))
      \/ remove_ok st path = false /\ st' = st
         /\ is_Some (files (fs st) !! path)).
Proof.
  unfold remove_if_exists.
  destruct (files (fs st) !! path) as [f|] eqn:E.
  - destruct (remove_ok st path) eqn:R; cbn.
    + repeat split; try reflexivity. left.
      split; [apply lookup_delete_eq | reflexivity].
    + repeat split; try reflexivity. right. repeat split; eauto.
  - cbn. repeat split; try reflexivity. left.
    split; [exact E | symmetry; apply delete_id; exact E].
Qed.

End SystemFacts.

(** ** A missing, unreadable or empty audio file *)

Module AudioFileFacts.
Import Backend Reference TextFacts SystemFacts.

Lemma quiet_ret {A} (a : A) : quiet (mret a).
Proof. intros st r st' [= <- <-]. auto. Qed.

Lemma quiet_bind {A B} (m : M A) (k : A -> M B) :
  quiet m -> (forall a, quiet (k a)) -> quiet (m ≫= k).
Proof.
  intros Hm Hk st r st'. unfold mbind, M_bind, bind.
  destruct (m st) as [[a|c] st1] eqn:E; intros H.
  - destruct (Hm _ _ _ E) as (H1 & H2 & H3 & _).
    destruct (Hk a _ _ _ H) as (H4 & H5 & H6 & H7).
    repeat split; try congruence; exact H7.
  - injection H as <- <-. exact (Hm _ _ _ E).
Qed.

Lemma quiet_get {A} (proj : St -> A) : quiet (get proj).
Proof. intros st r st' [= <- <-]. auto. Qed.

Lemma quiet_obj (c : mp.VideoClip) : quiet (obj c).
Proof. intros st r st' [= <- <-]. auto. Qed.

Lemma quiet_raise {A} (e : Exn) : quiet (@raise A e).
Proof. intros st r st' [= <- <-]. auto. Qed.

Lemma quiet_no_clips {A} : quiet (@return_ A false NoValidImageClips).
Proof. intros st r st' [= <- <-]. auto. Qed.

Lemma quiet_the {A} (o : option A) : quiet (the o).
Proof. destruct o; [apply quiet_ret | apply quiet_raise]. Qed.

Lemma quiet_vfx_getattr (name : string) : quiet (vfx_getattr name).
Proof. unfold vfx_getattr. destruct (bool_decide _); [apply quiet_ret | apply quiet_raise]. Qed.

Lemma quiet_append_processed c : quiet (append_processed c).
Proof. intros st r st' [= <- <-]. auto. Qed.

Lemma quiet_append_text_clip c : quiet (append_text_clip c).
Proof. intros st r st' [= <- <-]. auto. Qed.

Lemma quiet_set_base_video c : quiet (set_base_video c).
Proof. intros st r st' [= <- <-]. auto. Qed.

Lemma quiet_set_final_video_clip c : quiet (set_final_video_clip c).
Proof. intros st r st' [= <- <-]. auto. Qed.

Lemma quiet_for_enumerate {A} (body : nat -> A -> M unit) (l : list A) :
  (forall i x, quiet (body i x)) -> forall i, quiet (for_enumerate i l body).
Proof.
  intros Hb. induction l as [|x l IH]; intros i; cbn [for_enumerate].
  - apply quiet_ret.
  - apply quiet_bind; [apply Hb | intros _; apply IH].
Qed.

Create HintDb quiet_db.
#[export] Hint Resolve quiet_ret quiet_get quiet_obj quiet_raise
  quiet_no_clips quiet_the quiet_vfx_getattr quiet_append_processed
  quiet_append_text_clip quiet_set_base_video quiet_set_final_video_clip
  : quiet_db.

(** One step through a computation: a bind, a branch, or a leaf. *)
Ltac quiet_step :=
  match goal with
  | |- quiet (_ ≫= _) => apply quiet_bind; [|intros ?]
  | |- quiet (match ?x with _ => _ end) => destruct x
  | |- quiet _ => solve [auto with quiet_db]
  end.

Lemma quiet_process_image image_paths d td texts video_size b i p :
  quiet (process_image image_paths d td texts video_size b i p).
Proof.
  unfold process_image, Image_open, animate, crossfade.
  repeat quiet_step.
Qed.

Lemma quiet_process_text image_paths d td video_size total t :
  quiet (process_text image_paths d td video_size total t).
Proof.
  unfold process_text, create_text_clip_with_style.
  repeat quiet_step.
Qed.

Lemma quiet_composite_stage video_size total :
  quiet (composite_stage video_size total).
Proof.
  unfold composite_stage.
  repeat quiet_step.
Qed.

Section Defect.

Variables (audio_path output_path : string).
Variables (music_segment_start_time : Q) (audio_segment_duration_from_music : option Q).
Variable expected : Message.

Lemma stopped_bind {A B} (m : M A) (k : A -> M B) :
  quiet m -> (forall a, stopped audio_path expected (k a)) ->
  stopped audio_path expected (m ≫= k).
Proof.
  intros Hm Hk st Hdefect. unfold mbind, M_bind, bind.
  destruct (m st) as [[a|c] st1] eqn:E.
  - destruct (Hm _ _ _ E) as (H1 & H2 & H3 & _).
    destruct (Hk a st1) as (c & st2 & E2 & H4 & H5 & H6 & H7);
      [rewrite H1; exact Hdefect|].
    exists c, st2. repeat split; try congruence; exact H7.
  - destruct (Hm _ _ _ E) as (H1 & H2 & H3 & H4).
    exists c, st1. repeat split; try assumption.
    destruct c as [ok msg|e]; [destruct H4 as [-> ->]; auto | eauto].
Qed.

Lemma audio_stage_stops {B} (total : Q) (k : unit -> M B) :
  stopped audio_path expected
    (audio_stage audio_path music_segment_start_time
       audio_segment_duration_from_music total ≫= k).
Proof.
  intros st Hdefect. unfold audio_defect in Hdefect.
  unfold audio_stage. run.
  destruct (files (fs st) !! audio_path) as [file|].
  - destruct (negb (f_readable file)).
    + injection Hdefect as <-. run. eexists _, _. repeat split; auto.
    + destruct (f_size file =? 0)%N; [|discriminate].
      injection Hdefect as <-. run. eexists _, _. repeat split; auto.
  - injection Hdefect as <-. run. eexists _, _. repeat split; auto.
Qed.

Variables (image_paths : list string) (d td : Q) (fps : Z).
Variable texts : option (list TextOverlay).
Variable video_size : Z * Z.
Variable enable_image_animations : bool.

Lemma untouched_refl st : untouched st st.
Proof. repeat split. Qed.

Lemma untouched_trans a b c : untouched a b -> untouched b c -> untouched a c.
Proof. unfold untouched. intuition congruence. Qed.

Lemma untouched_close_oid o st : untouched st (close_oid o st).
Proof. repeat split. Qed.

Lemma untouched_close_video c st : untouched st (close_video c st).
Proof. destruct c; repeat split. Qed.

Lemma untouched_close_audio a st : untouched st (close_audio a st).
Proof. destruct a; repeat split. Qed.

Lemma untouched_close_all (l : list mp.VideoClip) (st : St) :
  untouched st (fold_left (fun s clip => close_oid (mp.oid clip) s) l st).
Proof.
  revert st. induction l as [|c l IH]; intros st; simpl.
  - apply untouched_refl.
  - eapply untouched_trans; [apply (untouched_close_oid (mp.oid c))|apply IH].
Qed.

Lemma untouched_close_temp st :
  untouched st
    match temp_audio_segment_intermediate st with
    | Some t =>
        match audio_segment_final_for_video st with
        | None => close_oid (mp.aoid t) st
        | Some a => if is_not t a then close_oid (mp.aoid t) st else st
        end
    | None => st
    end.
Proof.
  destruct (temp_audio_segment_intermediate st) as [t|];
    [destruct (audio_segment_final_for_video st) as [a|];
       [destruct (is_not t a)|]|];
    repeat split.
Qed.

Lemma finally_block_keeps (st : St) : untouched st (finally_block st).
Proof.
  unfold finally_block. cbv zeta.
  eapply untouched_trans; [|apply untouched_close_audio].
  eapply untouched_trans; [|apply untouched_close_temp].
  eapply untouched_trans; [|apply untouched_close_audio].
  eapply untouched_trans; [|apply untouched_close_all].
  eapply untouched_trans; [|apply untouched_close_all].
  eapply untouched_trans; [|apply untouched_close_video].
  apply untouched_close_video.
Qed.

(** The logic function on a defective audio file: it returns a failure,
    the audio error unless the visual stage had failed before; it opens no
    audio clip and writes nothing. *)
Lemma logic_stopped_by_defect (st : St) :
  audio_defect (fs st) audio_path = Some expected ->
  exists m st',
    _create_video_from_images_and_music_logic image_paths audio_path
      output_path d td music_segment_start_time
      audio_segment_duration_from_music fps texts video_size
      enable_image_animations st
    = (Return false m, st')
    /\ visual_failure_or expected m
    /\ fs st' = fs st /\ audio_opens st' = audio_opens st
    /\ full_audio_clip_main st' = full_audio_clip_main st.
Proof.
  intros Hdefect.
  assert (Hbody : exists c st1,
    try_block image_paths audio_path output_path d td
      music_segment_start_time audio_segment_duration_from_music fps texts
      video_size enable_image_animations st = (inr c, st1)
    /\ fs st1 = fs st /\ audio_opens st1 = audio_opens st
    /\ full_audio_clip_main st1 = full_audio_clip_main st
    /\ exists m, c = Return false m /\ visual_failure_or expected m).
  { unfold try_block, try_except.
    match goal with
    | |- context [match ?body st with _ => _ end] =>
        assert (Hs : stopped audio_path expected body)
    end.
    { apply stopped_bind;
        [apply quiet_for_enumerate; intros; apply quiet_process_image|intros _].
      apply stopped_bind; [auto with quiet_db|intros clips].
      apply stopped_bind; [destruct clips; auto with quiet_db|intros _].
      apply stopped_bind; [auto with quiet_db|intros bv].
      apply stopped_bind; [auto with quiet_db|intros _].
      apply stopped_bind; [repeat quiet_step|intros total].
      apply stopped_bind;
        [destruct texts;
           [apply quiet_for_enumerate; intros; apply quiet_process_text
           |auto with quiet_db]
        |intros _].
      apply stopped_bind; [apply quiet_composite_stage|intros _].
      apply audio_stage_stops. }
    destruct (Hs st Hdefect) as (c & st1 & E & H1 & H2 & H3 & Hc).
    rewrite E.
    destruct Hc as [->|[->|[e ->]]].
    - eexists _, _. split; [reflexivity|]. repeat split; try assumption.
      eexists. split; [reflexivity|]. left. reflexivity.
    - eexists _, _. split; [reflexivity|]. repeat split; try assumption.
      eexists. split; [reflexivity|]. right; left. reflexivity.
    - run. eexists _, _. split; [reflexivity|]. repeat split; try assumption.
      eexists. split; [reflexivity|]. right; right. eauto. }
  destruct Hbody as (c & st1 & E & H1 & H2 & H3 & m & -> & Hm).
  unfold _create_video_from_images_and_music_logic. rewrite E.
  destruct (finally_block_keeps st1) as (F1 & F2 & F3).
  exists m, (finally_block st1).
  split; [reflexivity|]. split; [exact Hm|]. repeat split; congruence.
Qed.

(** On a defective file the audio stage returns at once. *)
Lemma audio_stage_returns_defect (total : Q) (st : St) :
  audio_defect (fs st) audio_path = Some expected ->
  audio_stage audio_path music_segment_start_time
    audio_segment_duration_from_music total st
  = (inr (Return false expected), st).
Proof.
  intros Hdefect. unfold audio_defect in Hdefect.
  unfold audio_stage. run.
  destruct (files (fs st) !! audio_path) as [file|].
  - destruct (negb (f_readable file)).
    + injection Hdefect as <-. reflexivity.
    + destruct (f_size file =? 0)%N; [|discriminate].
      injection Hdefect as <-. reflexivity.
  - injection Hdefect as <-. reflexivity.
Qed.

(** A text never stops the pipeline. *)
Lemma process_text_completes (total : Q) (t : TextOverlay) (st : St) :
  exists st',
    process_text image_paths d td video_size total t st = (inl tt, st')
    /\ fs st' = fs st
    /\ base_video st' = base_video st
    /\ processed_image_clips st' = processed_image_clips st.
Proof.
  unfold process_text. run.
  destruct (text_timing _ _ _ _ _ _) as [s du].
  destruct (PyFacts.leb_spec du 0) as [Hle|Hgt].
  - exists st. repeat split.
  - assert (Hg : Py.gtb du 0 = true) by (apply gtb_true; lra).
    unfold create_text_clip_with_style. run. rewrite Hg. run.
    destruct (Py.gtb (s + du) total); run.
    + destruct (Py.gtb (Py.max 0 (total - s)) 0); run;
        eexists; repeat split; reflexivity.
    + rewrite Hg. run. eexists; repeat split; reflexivity.
Qed.

Lemma text_loop_completes (total : Q) (l : list TextOverlay) :
  forall (i : nat) (st : St),
  exists st',
    for_enumerate i l
      (fun _ => process_text image_paths d td video_size total) st
    = (inl tt, st')
    /\ fs st' = fs st
    /\ base_video st' = base_video st
    /\ processed_image_clips st' = processed_image_clips st.
Proof.
  induction l as [|t l IH]; intros i st; cbn [for_enumerate].
  - exists st. repeat split.
  - destruct (process_text_completes total t st) as (st1 & E1 & A1 & A2 & A3).
    destruct (IH (S i) st1) as (st2 & E2 & B1 & B2 & B3).
    exists st2. unfold mbind, M_bind, bind. rewrite E1, E2.
    repeat split; congruence.
Qed.

(** With a base video of positive duration the compositing completes. *)
Lemma composite_stage_completes (total : Q) (bv : mp.VideoClip) (st : St) :
  base_video st = Some bv ->
  mp.clip_duration bv = Some total ->
  0 < total ->
  exists st',
    composite_stage video_size total st = (inl tt, st') /\ fs st' = fs st.
Proof.
  intros Hbv Hdur Hpos.
  assert (Hl : Py.leb total 0 = false) by (apply leb_false; exact Hpos).
  assert (He : Py.eqb total total = true)
    by (destruct (PyFacts.eqb_spec total total) as [|Hn];
        [reflexivity | exfalso; apply Hn; reflexivity]).
  unfold composite_stage. run. rewrite Hbv. run.
  destruct (text_clips_to_composite st) as [|t ts];
    destruct (bool_decide (mp.clip_size bv = video_size)); run;
    repeat (progress (rewrite ?Hdur, ?He, ?Hl; run));
    eexists; split; reflexivity.
Qed.

(** When the visual stage goes through (at least one image, all of them
    load, a positive display duration), the failure returned is the audio
    error itself. *)
Lemma logic_returns_audio_error (st : St) :
  audio_defect (fs st) audio_path = Some expected ->
  processed_image_clips st = [] ->
  image_paths <> [] ->
  (forall p, In p image_paths -> loads (fs st) p) ->
  0 < d ->
  fst (_create_video_from_images_and_music_logic image_paths audio_path
         output_path d td music_segment_start_time
         audio_segment_duration_from_music fps texts video_size
         enable_image_animations st)
  = Return false expected.
Proof.
  intros Hdefect Hempty Hne Hload Hd.
  destruct (SlideFacts.image_loop_appends image_paths d td texts video_size
              Hd enable_image_animations image_paths 0 st Hload)
    as (cs & st1 & E1 & Hp1 & Hf1 & Hlen & Hcs).
  rewrite Hempty in Hp1. simpl in Hp1.
  destruct (SlideFacts.concatenation_adds_durations d cs)
    as (total & Htotal & Hsum);
    [intros j c Hj; apply (Hcs j c Hj)|].
  assert (Hpos : 0 < total).
  { rewrite Hsum, Hlen. destruct image_paths as [|p ps]; [congruence|].
    assert (0 < inject_Z (Z.of_nat (length (p :: ps)))).
    { rewrite <- (Zlt_Qlt 0). simpl length. lia. }
    apply Qmult_lt_0_compat; assumption. }
  injection Htotal as Htotal. subst total.
  unfold _create_video_from_images_and_music_logic, try_block, try_except.
  unfold mbind at 1. unfold M_bind at 1. unfold bind at 1. rewrite E1.
  run. rewrite Hp1.
  destruct cs as [|c0 cs']; [destruct image_paths; simpl in Hlen; congruence|].
  set (cs := c0 :: cs') in *. run.
  rewrite (leb_false (mp.sum_durations cs) 0) by exact Hpos. run.
  match goal with
  | |- context [match texts with _ => _ end ?s] => set (st2 := s)
  end.
  assert (Htexts : exists st3,
            match texts with
            | Some l =>
                for_enumerate 0 l
                  (fun _ => process_text image_paths d td video_size
                              (mp.sum_durations cs))
            | None => fun st0 => (inl tt, st0)
            end st2 = (inl tt, st3)
            /\ fs st3 = fs st2 /\ base_video st3 = base_video st2).
  { destruct texts as [l|].
    - destruct (text_loop_completes (mp.sum_durations cs) l 0 st2)
        as (st3 & E & A1 & A2 & _).
      exists st3. auto.
    - exists st2. auto. }
  destruct Htexts as (st3 & E3 & Hf3 & Hb3). rewrite E3.
  destruct (composite_stage_completes (mp.sum_durations cs)
              (mp.with_oid (mp.concatenate_videoclips cs) (next_oid st1)) st3)
    as (st4 & E4 & Hf4); [rewrite Hb3; reflexivity | reflexivity | exact Hpos |].
  rewrite E4, audio_stage_returns_defect; [reflexivity|].
  rewrite Hf4, Hf3. subst st2. cbn. rewrite Hf1. exact Hdefect.
Qed.

End Defect.

Lemma audio_defect_is_audio_error (disk : FS) (path : string) (m : Message) :
  audio_defect disk path = Some m ->
  m = AudioFileDoesNotExist path \/ m = AudioFileNotReadable path
  \/ m = AudioFileEmpty path.
Proof.
  unfold audio_defect. destruct (files disk !! path) as [f|].
  - destruct (negb (f_readable f)); [intros [= <-]; auto|].
    destruct (f_size f =? 0)%N; [intros [= <-]; auto | discriminate].
  - intros [= <-]. auto.
Qed.

(** C8, refuted as stated.  No image and the zero-byte file as music: the
    request fails, but with "no valid image clips", which is not an audio
    error. *)
Lemma zero_byte_audio_without_images :
  resolve_audio Scenario.disk "zero" = inr (Scenario.upload "zero.mp3")
  /\ audio_defect Scenario.disk (Scenario.upload "zero.mp3")
     = Some (AudioFileEmpty (Scenario.upload "zero.mp3"))
  /\ fst (create_video_from_images Scenario.no_image_request "result"
            (initial Scenario.disk true))
     = Failed (mkHTTPException 500 (LogicFailure NoValidImageClips))
  /\ NoValidImageClips <> AudioFileEmpty (Scenario.upload "zero.mp3").
Proof. repeat split; try (vm_compute; reflexivity). discriminate. Qed.

(** C8, as the code has it.  When the audio identifier resolves to a file
    that is missing, unreadable or empty, the request fails with status
    500, no audio clip is ever opened, and the disk is left as it was, with
    no file at the output path.  The failure is the audio error (does not
    exist, not readable, or empty) whenever the visual stage goes through,
    that is with at least one image, all images loading and a positive
    display duration; otherwise it is the failure of the visual stage. *)
Theorem defective_audio_file_fails_request
    (request : Req.CreateVideoFromImagesRequest) (output_video_uuid : string)
    (disk : FS) (enc : bool) (paths : list string) (audio : string)
    (expected : Message) :
  resolve_all disk (Req.image_file_ids request) = inr paths ->
  resolve_audio disk (Req.audio_file_id request) = inr audio ->
  audio_defect disk audio = Some expected ->
  exists m st',
    create_video_from_images request output_video_uuid (initial disk enc)
    = (Failed (mkHTTPException 500 (LogicFailure m)), st')
    /\ (expected = AudioFileDoesNotExist audio
        \/ expected = AudioFileNotReadable audio
        \/ expected = AudioFileEmpty audio)
    /\ visual_failure_or expected m
    /\ (paths <> [] ->
        (forall p, In p paths -> loads disk p) ->
        0 < Req.image_display_duration request ->
        m = expected)
    /\ audio_opens st' = []
    /\ full_audio_clip_main st' = None
    /\ files (fs st')
       = delete (path_join OUTPUT_DIR (output_video_uuid +:+ ".mp4"))
                (files disk)
    /\ files (fs st') !! path_join OUTPUT_DIR (output_video_uuid +:+ ".mp4")
       = None.
Proof.
  intros Himg Haud Hdefect.
  set (out := path_join OUTPUT_DIR (output_video_uuid +:+ ".mp4")).
  destruct (logic_stopped_by_defect audio out
              (Req.music_segment_start_time request)
              (Req.audio_segment_duration_from_music request) expected
              paths (Req.image_display_duration request)
              (Req.transition_duration request) (Req.fps request)
              (Req.texts request) (aspect_ratios (Req.video_aspect_ratio request))
              (Req.enable_image_animations request) (initial disk enc) Hdefect)
    as (m & st1 & E & Hm & Hf & Ho & Hfull).
  exists m, (remove_if_exists out st1).
  split.
  { unfold create_video_from_images. cbn [fs initial].
    rewrite Himg, Haud. fold out. rewrite E. reflexivity. }
  split; [apply (audio_defect_is_audio_error disk audio); exact Hdefect|].
  split; [exact Hm|].
  split.
  { intros Hne Hload Hd.
    pose proof (logic_returns_audio_error audio out
              (Req.music_segment_start_time request)
              (Req.audio_segment_duration_from_music request) expected
              paths (Req.image_display_duration request)
              (Req.transition_duration request) (Req.fps request)
              (Req.texts request) (aspect_ratios (Req.video_aspect_ratio request))
              (Req.enable_image_animations request) (initial disk enc)
              Hdefect eq_refl Hne Hload Hd) as Hr.
    rewrite E in Hr. simpl in Hr. congruence. }
  pose proof (logic_same_system paths audio out
              (Req.image_display_duration request)
              (Req.transition_duration request)
              (Req.music_segment_start_time request)
              (Req.audio_segment_duration_from_music request) (Req.fps request)
              (Req.texts request) (aspect_ratios (Req.video_aspect_ratio request))
              (Req.enable_image_animations request) (initial disk enc))
    as (_ & Hrm & _).
  rewrite E in Hrm. cbn [snd initial remove_ok] in Hrm.
  destruct (remove_if_exists_spec out st1)
    as (Ho' & Hfull' & _ & [[Hnone Hfiles]|(Hlocked & _)]).
  - rewrite Ho', Hfull', Hnone, Hfiles, Hf, Ho, Hfull. auto.
  - rewrite Hrm in Hlocked. discriminate.
Qed.

Lemma defective_audio_file_fails_request_witness :
  exists st',
    create_video_from_images Scenario.zero_byte_request "result"
      (initial Scenario.disk true)
    = (Failed (mkHTTPException 500
         (LogicFailure (AudioFileEmpty (Scenario.upload "zero.mp3")))), st')
    /\ audio_opens st' = [].
Proof.
  destruct (defective_audio_file_fails_request Scenario.zero_byte_request
              "result" Scenario.disk true [Scenario.upload "img-a.png"]
              (Scenario.upload "zero.mp3")
              (AudioFileEmpty (Scenario.upload "zero.mp3")))
    as (m & st' & E & _ & _ & Hm & Ho & _).
  - vm_compute. reflexivity.
  - vm_compute. reflexivity.
  - vm_compute. reflexivity.
  - exists st'. rewrite E. rewrite Hm.
    + split; [reflexivity | exact Ho].
    + discriminate.
    + intros p [<-|[]]. eexists _, _, _. vm_compute. reflexivity.
    + reflexivity.
Defined.

End AudioFileFacts.

(** ** What the pipeline returns *)

Module PipelineFacts.
Import Backend Reference TextFacts SystemFacts AudioFileFacts.

Lemma honest_ret {A} (a : A) : honest (mret a).
Proof. intros st st' ok msg. discriminate. Qed.

Lemma honest_bind {A B} (m : M A) (k : A -> M B) :
  honest m -> (forall a, honest (k a)) -> honest (m ≫= k).
Proof.
  intros Hm Hk st st' ok msg. unfold mbind, M_bind, bind.
  destruct (m st) as [[a|c] st1] eqn:E; intros H.
  - exact (Hk a _ _ _ _ H).
  - injection H as -> <-. exact (Hm _ _ _ _ E).
Qed.

Lemma honest_get {A} (proj : St -> A) : honest (get proj).
Proof. intros st st' ok msg. discriminate. Qed.

Lemma honest_modify f : honest (modify f).
Proof. intros st st' ok msg. discriminate. Qed.

Lemma honest_obj c : honest (obj c).
Proof. intros st st' ok msg. discriminate. Qed.

Lemma honest_aobj a : honest (aobj a).
Proof. intros st st' ok msg. discriminate. Qed.

Lemma honest_raise {A} e : honest (@raise A e).
Proof. intros st st' ok msg. discriminate. Qed.

Lemma honest_return_false {A} msg : honest (@return_ A false msg).
Proof. intros st st' ok msg' [= <- _ _]. reflexivity. Qed.

Lemma honest_the {A} (o : option A) : honest (the o).
Proof. destruct o; [apply honest_ret | apply honest_raise]. Qed.

Lemma honest_vfx_getattr name : honest (vfx_getattr name).
Proof.
  unfold vfx_getattr. destruct (bool_decide _);
    [apply honest_ret | apply honest_raise].
Qed.

Lemma honest_try_except {A} (m : M A) (h : Exn -> M A) :
  honest m -> (forall e, honest (h e)) -> honest (try_except m h).
Proof.
  intros Hm Hh st st' ok msg. unfold try_except.
  destruct (m st) as [[a|[ok' m'|e]] st1] eqn:E; intros H.
  - discriminate.
  - injection H as -> -> <-. exact (Hm _ _ _ _ E).
  - exact (Hh e _ _ _ _ H).
Qed.

Lemma honest_for_enumerate {A} (body : nat -> A -> M unit) (l : list A) :
  (forall i x, honest (body i x)) -> forall i, honest (for_enumerate i l body).
Proof.
  intros Hb. induction l as [|x l IH]; intros i; cbn [for_enumerate].
  - apply honest_ret.
  - apply honest_bind; [apply Hb | intros _; apply IH].
Qed.

Lemma honest_write_videofile path fps : honest (write_videofile path fps).
Proof.
  intros st st' ok msg. unfold write_videofile.
  destruct (creat _ _ _ _); destruct (encoder_ok st); discriminate.
Qed.

Create HintDb honest_db.
#[export] Hint Resolve honest_ret honest_get honest_modify honest_obj
  honest_aobj honest_raise honest_return_false honest_the
  honest_vfx_getattr honest_write_videofile : honest_db.

Ltac honest_step :=
  match goal with
  | |- honest (_ ≫= _) => apply honest_bind; [|intros ?]
  | |- honest (try_except _ _) => apply honest_try_except; [|intros ?]
  | |- honest (for_enumerate _ _ _) => apply honest_for_enumerate; intros ? ?
  | |- honest (match ?x with _ => _ end) => destruct x
  | |- honest _ => first [solve [auto with honest_db] | apply honest_modify]
  end.

Section Returns.

Variables (image_paths : list string) (audio_path output_path : string).
Variables (d td start : Q) (segment : option Q) (fps : Z).
Variable texts : option (list TextOverlay).
Variable video_size : Z * Z.
Variable animations : bool.

Local Abbreviation logic :=
  (_create_video_from_images_and_music_logic image_paths audio_path
     output_path d td start segment fps texts video_size animations).
Local Abbreviation body :=
  (try_block image_paths audio_path output_path d td start segment fps texts
     video_size animations).

Lemma honest_try_block : honest body.
Proof.
  unfold try_block, process_image, Image_open, animate, crossfade,
    process_text, create_text_clip_with_style, composite_stage, audio_stage,
    bind_audio, AudioFileClip, subclip, write_stage.
  repeat honest_step.
Qed.

(** The [try] block ends in one of three ways: it falls through after the
    encoder has written the output file, or it returns [False]. *)
Lemma try_block_outcome (st : St) :
  (exists st1,
     body st = (inl tt, st1)
     /\ files (fs st1) !! output_path = Some (mkFile 1 true VideoData))
  \/ (exists msg st1, body st = (inr (Return false msg), st1)).
Proof.
  destruct (body st) as [[[]|[ok msg|e]] st1] eqn:E.
  - left. exists st1. split; [reflexivity|].
    unfold try_block in E. apply try_except_inl_inv in E.
    do 9 (apply bind_inl_inv in E as (? & ? & _ & E)).
    unfold write_stage in E.
    do 4 (apply bind_inl_inv in E as (? & ? & _ & E)).
    unfold write_videofile in E.
    destruct (creat _ _ _ _) as [disk'|] eqn:C; [|discriminate].
    destruct (encoder_ok _); [|discriminate].
    injection E as <-. cbn. exact (creat_lookup _ _ _ _ _ C).
  - right. rewrite (honest_try_block _ _ _ _ E). eauto.
  - exfalso. unfold try_block, try_except in E.
    match type of E with
    | match ?m with _ => _ end = _ =>
        destruct m as [[?|[? ?|?]] ?]; discriminate
    end.
Qed.

Lemma logic_outcome (st : St) :
  (exists st1,
     logic st = (Return true (OutputPath output_path), st1)
     /\ files (fs st1) !! output_path = Some (mkFile 1 true VideoData))
  \/ (exists msg st1, logic st = (Return false msg, st1)).
Proof.
  unfold _create_video_from_images_and_music_logic.
  destruct (try_block_outcome st) as [(st1 & E & Hfile)|(msg & st1 & E)];
    rewrite E.
  - left. eexists. split; [reflexivity|].
    destruct (finally_block_keeps video_size st1) as (-> & _). exact Hfile.
  - right. eauto.
Qed.

(** When the function returns [True], the message is the output path, and
    the encoder has written the file at that path. *)
Theorem logic_success_means_file_written (st : St) (msg : Message) :
  fst (logic st) = Return true msg ->
  msg = OutputPath output_path
  /\ files (fs (snd (logic st))) !! output_path
     = Some (mkFile 1 true VideoData).
Proof.
  destruct (logic_outcome st) as [(st1 & E & Hfile)|(m & st1 & E)];
    rewrite E; cbn; intros H.
  - injection H as <-. split; [reflexivity | exact Hfile].
  - discriminate.
Qed.

End Returns.

Lemma logic_success_means_file_written_witness :
  files (fs (snd Scenario.three_slides)) !! Scenario.out
  = Some (mkFile 1 true VideoData).
Proof.
  exact (proj2 (logic_success_means_file_written
                  [Scenario.upload "img-a.png"; Scenario.upload "img-b.png";
                   Scenario.upload "img-c.png"]
                  (Scenario.upload "music-10s.mp3") Scenario.out 3 1 0 None 24
                  None Scenario.canvas false (initial Scenario.disk true)
                  (OutputPath Scenario.out) eq_refl)).
Defined.

Lemma resolve_error (disk : FS) (file_id directory : string) (e : Raised) :
  resolve_file_id_to_path disk file_id directory = inl e ->
  e = HTTP (mkHTTPException 404 (FileIdNotFound file_id directory))
  \/ e = Uncaught (FileNotFoundError directory).
Proof.
  unfold resolve_file_id_to_path, os_listdir.
  destruct (dirs disk !! directory) as [names|]; [|intros [= <-]; auto].
  destruct (List.filter _ _); [intros [= <-]; auto | discriminate].
Qed.

Lemma resolve_all_error (disk : FS) (ids : list string) (e : Raised) :
  resolve_all disk ids = inl e ->
  (exists file_id, In file_id ids
     /\ e = HTTP (mkHTTPException 404 (FileIdNotFound file_id UPLOAD_DIR)))
  \/ e = Uncaught (FileNotFoundError UPLOAD_DIR).
Proof.
  induction ids as [|i ids IH]; simpl; [discriminate|].
  destruct (resolve_file_id_to_path disk i UPLOAD_DIR) as [e'|p] eqn:E.
  - intros [= <-]. destruct (resolve_error _ _ _ _ E) as [->| ->]; eauto.
  - destruct (resolve_all disk ids); [|discriminate].
    intros [= <-]. destruct (IH eq_refl) as [(j & Hj & ->)| ->]; eauto.
Qed.

Lemma resolve_audio_error (disk : FS) (file_id : string) (e : Raised) :
  resolve_audio disk file_id = inl e ->
  e = HTTP (mkHTTPException 404 (AudioIdNotFound file_id))
  \/ e = Uncaught (FileNotFoundError UPLOAD_DIR)
  \/ e = Uncaught (FileNotFoundError OUTPUT_DIR).
Proof.
  unfold resolve_audio.
  destruct (resolve_file_id_to_path disk file_id UPLOAD_DIR) as [e1|p] eqn:E1;
    [|discriminate].
  destruct (resolve_error _ _ _ _ E1) as [->| ->]; [|intros [= <-]; auto].
  destruct (resolve_file_id_to_path disk file_id OUTPUT_DIR) as [e2|p] eqn:E2;
    [|discriminate].
  destruct (resolve_error _ _ _ _ E2) as [->| ->]; intros [= <-]; auto.
Qed.

(** What the endpoint leaves behind, by answer.  Success: the encoded
    file is on disk at the output path.  404: an identifier did not
    resolve and nothing was touched.  500 with a message of the logic
    function: no file is at the output path, unless [os.remove] failed on
    it, in which case what was written is still there.  500 for an
    exception that no handler catches: a directory was missing and
    nothing was touched.  There is no other answer. *)
Theorem endpoint_file_after_request
    (request : Req.CreateVideoFromImagesRequest) (output_video_uuid : string)
    (st : St) :
  let out := path_join OUTPUT_DIR (output_video_uuid +:+ ".mp4") in
  let '(response, st') :=
    create_video_from_images request output_video_uuid st in
  match response with
  | CreateVideoFromImagesResponse video_file_uuid video_file_path =>
      video_file_uuid = output_video_uuid
      /\ video_file_path = OutputPath out
      /\ files (fs st') !! out = Some (mkFile 1 true VideoData)
  | Failed (mkHTTPException 404 detail) =>
      st' = st
      /\ ((exists file_id, In file_id (Req.image_file_ids request)
             /\ detail = FileIdNotFound file_id UPLOAD_DIR)
          \/ detail = AudioIdNotFound (Req.audio_file_id request))
  | Failed (mkHTTPException 500 (LogicFailure msg)) =>
      files (fs st') !! out = None
      \/ (remove_ok st out = false /\ is_Some (files (fs st') !! out))
  | Failed (mkHTTPException 500 (UnhandledException e)) =>
      st' = st
      /\ (e = FileNotFoundError UPLOAD_DIR \/ e = FileNotFoundError OUTPUT_DIR)
  | Failed _ => False
  end.
Proof.
  intros out. unfold create_video_from_images. fold out.
  destruct (resolve_all (fs st) (Req.image_file_ids request))
    as [e|paths] eqn:Ei.
  { destruct (resolve_all_error _ _ _ Ei) as [(i & Hi & ->)| ->]; cbn.
    - split; [reflexivity|]. left. eauto.
    - auto. }
  destruct (resolve_audio (fs st) (Req.audio_file_id request))
    as [e|audio] eqn:Ea.
  { destruct (resolve_audio_error _ _ _ Ea) as [->|[->| ->]]; cbn; auto. }
  match goal with
  | |- context [_create_video_from_images_and_music_logic ?a ?b ?c ?d ?e
                  ?f ?g ?h ?i ?j ?k st] =>
      pose proof (logic_same_system a b c d e f g h i j k st) as (_ & Hrm & _);
      destruct (logic_outcome a b c d e f g h i j k st)
        as [(st1 & E & Hfile)|(msg & st1 & E)]; rewrite E in Hrm |- *
  end.
  - repeat split; try reflexivity. exact Hfile.
  - cbn [snd] in Hrm.
    destruct (remove_if_exists_spec out st1)
      as (_ & _ & _ & [[Hnone _]|(Hlocked & Hsame & Hsome)]).
    + left. exact Hnone.
    + right. rewrite Hsame. split; [congruence | exact Hsome].
Qed.

End PipelineFacts.

(** ** The audio stage on a sound track *)

Module AudioStageFacts.
Import Backend Reference TextFacts.

Lemma geb_false a b : a < b -> Py.geb a b = false.
Proof. intros H. destruct (PyFacts.geb_spec a b); [lra | reflexivity]. Qed.

Lemma geb_true a b : b <= a -> Py.geb a b = true.
Proof. intros H. destruct (PyFacts.geb_spec a b); [reflexivity | contradiction]. Qed.

Lemma eqb_true a b : a == b -> Py.eqb a b = true.
Proof. intros H. destruct (PyFacts.eqb_spec a b); [reflexivity | contradiction]. Qed.

Lemma eqb_false a b : ~ a == b -> Py.eqb a b = false.
Proof. intros H. destruct (PyFacts.eqb_spec a b); [contradiction | reflexivity]. Qed.

Lemma ltb_true a b : a < b -> Py.ltb a b = true.
Proof. intros H. destruct (PyFacts.ltb_spec a b); [reflexivity | contradiction]. Qed.

Lemma ltb_false a b : b <= a -> Py.ltb a b = false.
Proof. intros H. destruct (PyFacts.ltb_spec a b); [lra | reflexivity]. Qed.

Section Sound.

Variables (audio_path : string) (start : Q) (segment : option Q) (total : Q).
Variables (st : St) (sz : N) (track : Q) (fv : mp.VideoClip).

Hypothesis file_ok :
  files (fs st) !! audio_path = Some (mkFile sz true (AudioData track true)).
Hypothesis not_empty : sz <> 0%N.
Hypothesis has_video : final_video_clip st = Some fv.

(** The stage up to the range check: the file is opened, once. *)
Lemma audio_stage_opens :
  audio_stage audio_path start segment total st
  = try_except
      (bind_audio start segment total
         (mp.with_aoid (mp.mkAudioClip 0 track true true) (next_oid st)))
      (fun e => return_ false (FailedDuringAudioProcessing e))
      (upd (with_world st (S (next_oid st)) (closed st)
              (audio_opens st ++ [audio_path]) (fs st))
           (processed_image_clips st) (base_video st) (final_video_clip st)
           (text_clips_to_composite st)
           (Some (mp.with_aoid (mp.mkAudioClip 0 track true true) (next_oid st)))
           (temp_audio_segment_intermediate st)
           (audio_segment_final_for_video st)).
Proof.
  unfold audio_stage. run. rewrite file_ok. cbn [f_readable f_size negb].
  destruct (N.eqb_spec sz 0) as [Hz|_]; [contradiction|].
  unfold try_except, AudioFileClip. run. rewrite file_ok. run. reflexivity.
Qed.

(** A start offset at or past the end of the track is refused, after the
    file has been opened. *)
Theorem start_beyond_track_is_refused :
  track <= start ->
  exists st',
    audio_stage audio_path start segment total st
    = (inr (Return false MusicStartBeyondDuration), st')
    /\ audio_opens st' = audio_opens st ++ [audio_path]
    /\ (mp.audio_duration <$> full_audio_clip_main st') = Some track
    /\ temp_audio_segment_intermediate st'
       = temp_audio_segment_intermediate st
    /\ final_video_clip st' = Some fv.
Proof.
  intros Hbeyond. rewrite audio_stage_opens.
  unfold try_except, bind_audio.
  assert (Hg : Py.geb start track = true)
    by (destruct (PyFacts.geb_spec start track); [reflexivity | contradiction]).
  cbn [mp.audio_duration mp.with_aoid]. rewrite Hg. run.
  eexists. repeat split; try reflexivity. exact has_video.
Qed.

Hypothesis start_inside : start < track.

(** The bounds [subclip] works with (a negative time counts from the end
    of the track) and the duration it gives the segment. *)
Let from : Q := if Py.ltb start 0 then track + start else start.

Let upto : Q :=
  match (fun s => start + s) <$> segment with
  | None => track
  | Some e => if Py.ltb e 0 then track + e else e
  end.

Let extracted : Q := upto - from.

Lemma from_inside : from <= track.
Proof.
  unfold from. destruct (PyFacts.ltb_spec start 0); lra.
Qed.

(** From an offset that is not negative, with no length given or from
    the very start of the track, the segment has the length asked for. *)
Lemma extracted_length :
  0 <= start ->
  segment = None
  \/ (start == 0 /\ 0 <= segment_length track start segment) ->
  extracted == segment_length track start segment.
Proof.
  intros Hstart Hexact. unfold extracted, from, upto, segment_length.
  rewrite (ltb_false start 0) by exact Hstart.
  destruct Hexact as [->|[Hzero Hlen]]; [cbn; ring|].
  destruct segment as [s|]; cbn; [|ring].
  cbn in Hlen. rewrite (ltb_false (start + s) 0) by lra. ring.
Qed.

(** A segment asked to be empty is empty, wherever it is taken. *)
Lemma extracted_empty :
  segment_length track start segment == 0 -> extracted == 0.
Proof.
  unfold extracted, from, upto, segment_length.
  destruct segment as [s|]; cbn; [|lra].
  intros Hs.
  destruct (PyFacts.ltb_spec start 0), (PyFacts.ltb_spec (start + s) 0); lra.
Qed.

(** The stage up to the three-way test on the extracted segment. *)
Lemma audio_stage_extracts :
  audio_stage audio_path start segment total st
  = try_except
      ((if Py.eqb extracted 0 then
          fv0 ← get final_video_clip;
          f ← the fv0;
          f' ← obj (mp.set_audio f None);
          set_final_video_clip f';;
          set_audio_segment_final_for_video None
        else if Py.ltb extracted total then
          vfx_getattr "audio_loop";;
          looped ← aobj (mp.audio_loop
                           (mp.mkAudioClip (S (next_oid st)) extracted true true)
                           total);
          set_audio_segment_final_for_video (Some looped)
        else
          cut ← subclip (mp.mkAudioClip (S (next_oid st)) extracted true true)
                  0 (Some total);
          set_audio_segment_final_for_video (Some cut));;
       af ← get audio_segment_final_for_video;
       match af with
       | Some a =>
           fv0 ← get final_video_clip;
           f ← the fv0;
           f' ← obj (mp.set_audio f (Some a));
           set_final_video_clip f'
       | None => mret tt
       end)
      (fun e => return_ false (FailedDuringAudioProcessing e))
      (upd (with_world st (S (S (next_oid st))) (closed st)
              (audio_opens st ++ [audio_path]) (fs st))
           (processed_image_clips st) (base_video st) (final_video_clip st)
           (text_clips_to_composite st)
           (Some (mp.mkAudioClip (next_oid st) track true true))
           (Some (mp.mkAudioClip (S (next_oid st)) extracted true true))
           (audio_segment_final_for_video st)).
Proof.
  rewrite audio_stage_opens. unfold try_except, bind_audio, subclip, mp.subclip.
  cbn [mp.audio_duration mp.with_aoid].
  rewrite (geb_false start track) by exact start_inside.
  fold from. rewrite (gtb_false from track) by exact from_inside.
  run. reflexivity.
Qed.

(** An empty segment is not an error: the stage completes and the video
    is left without an audio track. *)
Theorem empty_segment_is_silent :
  segment_length track start segment == 0 ->
  exists st' fv',
    audio_stage audio_path start segment total st = (inl tt, st')
    /\ final_video_clip st' = Some fv'
    /\ mp.clip_audio fv' = None
    /\ mp.clip_duration fv' = mp.clip_duration fv
    /\ audio_segment_final_for_video st' = None.
Proof.
  intros Hzero. rewrite audio_stage_extracts. unfold try_except.
  rewrite (eqb_true extracted 0) by (apply extracted_empty; exact Hzero).
  run. rewrite has_video. run.
  eexists _, _. repeat split; reflexivity.
Qed.

(** From an offset that is not negative, a segment at least as long as
    the video is cut to the video's duration and bound to it, and the
    video keeps its duration.  The segment is the rest of the track when
    no length is given, and the given length when the music is taken from
    the start of the track: in both cases the duration the stage compares
    with the video's is one difference, or the length itself, so that
    rounding cannot turn the comparison. *)
Theorem long_segment_is_cut :
  0 <= start ->
  segment = None \/ start == 0 ->
  0 < total ->
  total <= segment_length track start segment ->
  exists st' fv' a,
    audio_stage audio_path start segment total st = (inl tt, st')
    /\ final_video_clip st' = Some fv'
    /\ mp.clip_audio fv' = Some a
    /\ mp.audio_duration a == total
    /\ mp.clip_duration fv' = mp.clip_duration fv
    /\ audio_segment_final_for_video st' = Some a.
Proof.
  intros Hstart Hexact Hpos Hlong.
  assert (Hlen : extracted == segment_length track start segment).
  { apply extracted_length; [exact Hstart|].
    destruct Hexact as [->|Hzero]; [left; reflexivity | right; split; lra]. }
  rewrite audio_stage_extracts. unfold try_except.
  rewrite (eqb_false extracted 0) by (intros H; lra).
  rewrite (ltb_false extracted total) by lra.
  unfold subclip, mp.subclip. cbn [mp.audio_duration].
  rewrite (ltb_false 0 0) by lra.
  rewrite (gtb_false 0 extracted) by lra.
  rewrite (ltb_false total 0) by lra.
  run. rewrite has_video. run.
  eexists _, _, _. repeat split; try reflexivity. cbn. ring.
Qed.

(** A segment shorter than the video never gets looped: the loop effect
    is looked up among the video effects, the lookup raises, and the
    stage returns a failure with no audio bound.  This is so when the
    music is taken from the start of the track and the segment (the given
    length, or the whole track) is shorter than the video, and when the
    rest of a track that is itself shorter than the video is taken from
    an offset inside it. *)
Theorem short_segment_always_fails :
  0 <= start ->
  (start == 0 /\ 0 < segment_length track start segment
   /\ segment_length track start segment < total)
  \/ (segment = None /\ track < total) ->
  exists st',
    audio_stage audio_path start segment total st
    = (inr (Return false (FailedDuringAudioProcessing (AttributeError
         "module 'moviepy.video.fx.all' has no attribute 'audio_loop'"))), st')
    /\ final_video_clip st' = Some fv
    /\ audio_segment_final_for_video st' = audio_segment_final_for_video st
    /\ fs st' = fs st.
Proof.
  intros Hstart Hshort.
  assert (Hlen : extracted == segment_length track start segment).
  { apply extracted_length; [exact Hstart|].
    destruct Hshort as [(Hzero & Hpos & _)|[-> _]];
      [right; split; lra | left; reflexivity]. }
  assert (Hin : 0 < extracted /\ extracted < total).
  { rewrite Hlen.
    destruct Hshort as [(_ & Hpos & Hlt)|[-> Hlt]]; [split; assumption|].
    cbn. lra. }
  rewrite audio_stage_extracts. unfold try_except.
  rewrite (eqb_false extracted 0) by (intros H; lra).
  rewrite (ltb_true extracted total) by lra.
  rewrite SlideFacts.vfx_lacks_audio_loop. run.
  eexists. repeat split; try reflexivity. exact has_video.
Qed.

End Sound.

Lemma start_beyond_track_is_refused_witness :
  exists st',
    audio_stage (Scenario.upload "music-10s.mp3") 12 None 3
      (snd Scenario.one_slide_no_audio_file)
    = (inr (Return false MusicStartBeyondDuration), st').
Proof.
  destruct (start_beyond_track_is_refused (Scenario.upload "music-10s.mp3")
              12 None 3 (snd Scenario.one_slide_no_audio_file) 4096 10
              (mp.mkVideoClip 6 Scenario.canvas (Some 3) 0 (Some 3) None None))
    as (st' & E & _).
  - vm_compute. reflexivity.
  - discriminate.
  - vm_compute. reflexivity.
  - vm_compute. discriminate.
  - exists st'. exact E.
Defined.

Lemma empty_segment_is_silent_witness :
  exists st',
    audio_stage (Scenario.upload "music-10s.mp3") 2 (Some 0) 3
      (snd Scenario.one_slide_no_audio_file)
    = (inl tt, st').
Proof.
  destruct (empty_segment_is_silent (Scenario.upload "music-10s.mp3")
              2 (Some 0) 3 (snd Scenario.one_slide_no_audio_file) 4096 10
              (mp.mkVideoClip 6 Scenario.canvas (Some 3) 0 (Some 3) None None))
    as (st' & fv' & E & _).
  - vm_compute. reflexivity.
  - discriminate.
  - vm_compute. reflexivity.
  - reflexivity.
  - reflexivity.
  - exists st'. exact E.
Defined.

Lemma long_segment_is_cut_witness :
  exists st',
    audio_stage (Scenario.upload "music-10s.mp3") 2 None 3
      (snd Scenario.one_slide_no_audio_file)
    = (inl tt, st').
Proof.
  destruct (long_segment_is_cut (Scenario.upload "music-10s.mp3")
              2 None 3 (snd Scenario.one_slide_no_audio_file) 4096 10
              (mp.mkVideoClip 6 Scenario.canvas (Some 3) 0 (Some 3) None None))
    as (st' & fv' & a & E & _).
  - vm_compute. reflexivity.
  - discriminate.
  - vm_compute. reflexivity.
  - reflexivity.
  - vm_compute. discriminate.
  - left. reflexivity.
  - reflexivity.
  - vm_compute. discriminate.
  - exists st'. exact E.
Defined.

Lemma short_segment_always_fails_witness :
  exists st',
    audio_stage (Scenario.upload "music-1s.mp3") 0 None 3
      (snd Scenario.one_slide_no_audio_file)
    = (inr (Return false (FailedDuringAudioProcessing (AttributeError
         "module 'moviepy.video.fx.all' has no attribute 'audio_loop'"))), st').
Proof.
  destruct (short_segment_always_fails (Scenario.upload "music-1s.mp3")
              0 None 3 (snd Scenario.one_slide_no_audio_file) 512 1
              (mp.mkVideoClip 6 Scenario.canvas (Some 3) 0 (Some 3) None None))
    as (st' & E & _).
  - vm_compute. reflexivity.
  - discriminate.
  - vm_compute. reflexivity.
  - reflexivity.
  - vm_compute. discriminate.
  - right. split; reflexivity.
  - exists st'. exact E.
Defined.

End AudioStageFacts.

(** ** The cleanup block *)

Module CleanupFacts.
Import Backend Reference.

Lemma close_all_log (l : list mp.VideoClip) (st : St) :
  fold_left (fun s clip => close_oid (mp.oid clip) s) l st
  = with_world st (next_oid st) (closed st ++ (mp.oid <$> l))
      (audio_opens st) (fs st).
Proof.
  revert st. induction l as [|c l IH]; intros st; cbn [fold_left fmap list_fmap].
  - rewrite app_nil_r. destruct st; reflexivity.
  - rewrite IH. unfold close_oid, with_world. cbn.
    rewrite <- app_assoc. reflexivity.
Qed.

(** The [close()] calls of the cleanup block, in order. *)
Lemma finally_block_log (st : St) :
  closed (finally_block st)
  = closed st
    ++ video_oid (final_video_clip st) ++ video_oid (base_video st)
    ++ (mp.oid <$> processed_image_clips st)
    ++ (mp.oid <$> text_clips_to_composite st)
    ++ audio_oid (audio_segment_final_for_video st)
    ++ match temp_audio_segment_intermediate st,
             audio_segment_final_for_video st with
       | Some t, Some a => if is_not t a then [mp.aoid t] else []
       | Some t, None => [mp.aoid t]
       | None, _ => []
       end
    ++ audio_oid (full_audio_clip_main st).
Proof.
  unfold finally_block. cbv zeta. rewrite !close_all_log.
  destruct st as [pic bv fv tc fa ta af n cl ao disk enc].
  destruct fv as [f|], bv as [b|], af as [a|], ta as [t|], fa as [m|];
    cbn; try destruct (is_not t a); cbn;
    rewrite <- ?app_assoc; cbn; rewrite ?app_nil_r; reflexivity.
Qed.

(** The cleanup block keeps the log it finds and closes every object the
    variables hold at least once, and nothing else. *)
Theorem cleanup_closes_what_is_held (st : St) :
  exists calls,
    closed (finally_block st) = closed st ++ calls
    /\ forall o, In o calls <-> In o (held st).
Proof.
  eexists. split; [apply finally_block_log|].
  intros o. unfold held. rewrite !in_app_iff.
  destruct (temp_audio_segment_intermediate st) as [t|],
           (audio_segment_final_for_video st) as [a|]; cbn;
    try (unfold is_not; destruct (Nat.eqb_spec (mp.aoid t) (mp.aoid a)) as [E|E];
         cbn; try rewrite E);
    tauto.
Qed.

Lemma count_occ_absent (l : list nat) (o : nat) :
  ~ In o l -> count_occ Nat.eq_dec l o = 0%nat.
Proof. apply count_occ_not_In. Qed.

(** No identity test guards the video, as the one of line 508 guards the
    audio segment: when [final_video_clip] and [base_video] are one
    object, the block closes it twice. *)
Theorem aliased_base_video_closed_twice
    (st : St) (f b : mp.VideoClip) :
  final_video_clip st = Some f ->
  base_video st = Some b ->
  mp.oid f = mp.oid b ->
  ~ In (mp.oid b)
       (closed st ++ (mp.oid <$> processed_image_clips st)
        ++ (mp.oid <$> text_clips_to_composite st)
        ++ held_audio st) ->
  count_occ Nat.eq_dec (closed (finally_block st)) (mp.oid b) = 2%nat.
Proof.
  intros Hf Hb Hsame Hfresh.
  rewrite finally_block_log, Hf, Hb. cbn [video_oid]. rewrite Hsame.
  unfold held_audio in Hfresh. rewrite !in_app_iff in Hfresh.
  rewrite !count_occ_app.
  rewrite (count_occ_absent (closed st)) by tauto.
  rewrite (count_occ_absent (mp.oid <$> processed_image_clips st)) by tauto.
  rewrite (count_occ_absent (mp.oid <$> text_clips_to_composite st)) by tauto.
  rewrite (count_occ_absent (audio_oid (audio_segment_final_for_video st)))
    by tauto.
  rewrite (count_occ_absent (audio_oid (full_audio_clip_main st))) by tauto.
  assert (Htemp : count_occ Nat.eq_dec
            match temp_audio_segment_intermediate st,
                  audio_segment_final_for_video st with
            | Some t, Some a => if is_not t a then [mp.aoid t] else []
            | Some t, None => [mp.aoid t]
            | None, _ => []
            end (mp.oid b) = 0%nat).
  { apply count_occ_absent.
    destruct (temp_audio_segment_intermediate st) as [t|],
             (audio_segment_final_for_video st) as [a|]; cbn in *;
      try destruct (is_not t a); cbn; tauto. }
  rewrite Htemp. cbn.
  destruct (Nat.eq_dec (mp.oid b) (mp.oid b)); [reflexivity | contradiction].
Qed.

Lemma aliased_base_video_closed_twice_witness :
  count_occ Nat.eq_dec
    (closed (finally_block
       (snd (try_block [Scenario.upload "img-a.png"]
               (Scenario.upload "gone.mp3") Scenario.out 3 1 0 None 24 None
               Scenario.canvas false (initial Scenario.disk true))))) 6%nat
  = 2%nat.
Proof.
  apply (aliased_base_video_closed_twice
           (snd (try_block [Scenario.upload "img-a.png"]
                   (Scenario.upload "gone.mp3") Scenario.out 3 1 0 None 24
                   None Scenario.canvas false (initial Scenario.disk true)))
           (mp.mkVideoClip 6 Scenario.canvas (Some 3) 0 (Some 3) None None)
           (mp.mkVideoClip 6 Scenario.canvas (Some 3) 0 (Some 3) None None));
    try (vm_compute; reflexivity).
  vm_compute. intros [H|H]; [discriminate | exact H].
Defined.

End CleanupFacts.

(** ** The timeline: slides and the texts bound to them *)

Module TimelineFacts.
Import Backend Reference Timeline TextFacts.

Lemma sum_seq_S (f : nat -> Q) (k : nat) :
  fold_right Qplus 0 (f <$> seq 0 (S k))
  == fold_right Qplus 0 (f <$> seq 0 k) + f k.
Proof.
  rewrite seq_S, fmap_app. cbn [fmap list_fmap Nat.add].
  generalize (f <$> seq 0 k). intros l.
  induction l as [|x l IH]; cbn [fold_right app].
  - ring.
  - rewrite IH. ring.
Qed.

Lemma text_overlap_bounds (d td : Q) :
  0 < d -> 0 <= text_overlap d td /\ text_overlap d td <= d * (1 # 2).
Proof.
  intros Hd. unfold text_overlap.
  destruct (PyFacts.gtb_spec td 0) as [Htd|Htd].
  - destruct (PyFacts.min_spec td (d * (1 # 2))) as [[H1 ->]|[H1 ->]]; lra.
  - lra.
Qed.

(** Before the last slide every slide gives up the same overlap, so the
    cumulative effective duration is a multiple of [d - overlap]. *)
Lemma cumulative_closed_form (n : nat) (d td : Q) (k : nat) :
  (k < n)%nat ->
  cumulative_effective_duration n d td k
  == inject_Z (Z.of_nat k) * (d - text_overlap d td).
Proof.
  unfold cumulative_effective_duration.
  induction k as [|k IH]; intros Hk.
  - cbn -[Qplus Qmult]. ring.
  - rewrite sum_seq_S, IH by lia.
    rewrite Nat2Z.inj_succ. unfold Z.succ. rewrite inject_Z_plus.
    change (inject_Z 1) with 1.
    unfold effective_duration, text_overlap.
    destruct (Nat.ltb_spec (S k) n) as [_|]; [|lia].
    cbn [andb]. destruct (Py.gtb td 0); ring.
Qed.

Lemma start_times_from_uniform (d : Q) (clips : list mp.VideoClip) :
  (forall j c, clips !! j = Some c -> mp.clip_duration c = Some d) ->
  forall (t : Q) (k : nat) (c : mp.VideoClip),
    clips !! k = Some c ->
    exists s, start_times_from t clips !! k = Some s
              /\ s == t + inject_Z (Z.of_nat k) * d.
Proof.
  induction clips as [|c0 clips IH]; intros Hall t k c Hk; [discriminate|].
  destruct k as [|k]; cbn [start_times_from].
  - exists t. split; [reflexivity|]. cbn. ring.
  - rewrite (Hall 0%nat c0 eq_refl). cbn [default].
    change (Datatypes.id d) with d.
    destruct (IH (fun j c' H => Hall (S j) c' H) (t + d) k c Hk)
      as (s & Hs & Es).
    exists s. split; [exact Hs|]. rewrite Es.
    rewrite Nat2Z.inj_succ. unfold Z.succ. rewrite inject_Z_plus.
    change (inject_Z 1) with 1. ring.
Qed.

(** The image loop followed by the concatenation: when every image loads,
    the base video lasts the number of images times the display duration,
    whatever the transition, and slide [k] starts at [k] times the display
    duration. *)
Theorem slides_are_laid_end_to_end
    (image_paths : list string) (d td : Q) (texts : option (list TextOverlay))
    (video_size : Z * Z) (enable_image_animations : bool)
    (disk : FS) (enc : bool) :
  0 < d ->
  (forall p, In p image_paths -> loads disk p) ->
  exists st' total,
    for_enumerate 0 image_paths
      (process_image image_paths d td texts video_size enable_image_animations)
      (initial disk enc)
    = (inl tt, st')
    /\ mp.clip_duration (mp.concatenate_videoclips (processed_image_clips st'))
       = Some total
    /\ total == inject_Z (Z.of_nat (length image_paths)) * d
    /\ forall k, (k < length image_paths)%nat ->
         exists s, start_times (processed_image_clips st') !! k = Some s
                   /\ s == inject_Z (Z.of_nat k) * d.
Proof.
  intros Hd Hload.
  destruct (SlideFacts.image_loop_appends image_paths d td texts video_size Hd
              enable_image_animations image_paths 0 (initial disk enc) Hload)
    as (cs & st' & E & Hp & _ & Hlen & Hcs).
  simpl in Hp. subst cs.
  assert (Hall : forall j c, processed_image_clips st' !! j = Some c ->
                   mp.clip_duration c = Some d)
    by (intros j c Hj; apply (Hcs j c Hj)).
  destruct (SlideFacts.concatenation_adds_durations d _ Hall)
    as (total & Htotal & Hsum).
  exists st', total. split; [exact E|]. split; [exact Htotal|].
  split; [rewrite Hsum, Hlen; reflexivity|].
  intros k Hk.
  destruct (lookup_lt_is_Some_2 (processed_image_clips st') k) as [c Hc];
    [lia|].
  destruct (start_times_from_uniform d _ Hall 0 k c Hc) as (s & Hs & Es).
  exists s. split; [exact Hs|]. rewrite Es. ring.
Qed.

Lemma slides_are_laid_end_to_end_witness :
  exists st' total,
    for_enumerate 0
      [Scenario.upload "img-a.png"; Scenario.upload "img-b.png"]
      (process_image
         [Scenario.upload "img-a.png"; Scenario.upload "img-b.png"]
         3 1 None Scenario.canvas true)
      (initial Scenario.disk true)
    = (inl tt, st')
    /\ total == 6.
Proof.
  destruct (slides_are_laid_end_to_end
              [Scenario.upload "img-a.png"; Scenario.upload "img-b.png"]
              3 1 None Scenario.canvas true Scenario.disk true)
    as (st' & total & E & _ & Ht & _).
  - reflexivity.
  - intros p [<-|[<-|[]]]; eexists _, _, _; vm_compute; reflexivity.
  - exists st', total. split; [exact E|]. rewrite Ht. reflexivity.
Defined.

(** On the timeline the concatenation produces (the number of images
    times the display duration), a text bound to an existing slide always
    gives one layer of the full display duration: the clipping of lines
    363-364 is never needed.  The layer starts at the slide's index times
    (display duration less the overlap of line 349), that is the index
    times the overlap before its slide starts in the base video. *)
Theorem indexed_text_leads_its_slide
    (image_paths : list string) (d td total : Q) (video_size : Z * Z)
    (text_data : TextOverlay) (st : St) (idx : Z) :
  image_index text_data = Some idx ->
  (0 <= idx < Z.of_nat (length image_paths))%Z ->
  length (processed_image_clips st) = length image_paths ->
  (forall j c, processed_image_clips st !! j = Some c ->
               mp.clip_duration c = Some d) ->
  0 < d ->
  total == inject_Z (Z.of_nat (length image_paths)) * d ->
  exists c st' slide_start,
    process_text image_paths d td video_size total text_data st = (inl tt, st')
    /\ text_clips_to_composite st' = text_clips_to_composite st ++ [c]
    /\ mp.clip_duration c = Some d
    /\ mp.clip_start c == inject_Z idx * (d - text_overlap d td)
    /\ start_times (processed_image_clips st) !! Z.to_nat idx
       = Some slide_start
    /\ mp.clip_start c + inject_Z idx * text_overlap d td == slide_start.
Proof.
  intros Hidx Hrange Hlen Hall Hd Htotal.
  set (n := length image_paths) in *.
  pose proof (text_start_is_cumulative image_paths d td (Z.to_nat idx)) as Hs.
  rewrite Z2Nat.id in Hs by lia.
  rewrite cumulative_closed_form in Hs by lia.
  rewrite Z2Nat.id in Hs by lia.
  set (s0 := fold_left _ _ _) in Hs.
  assert (Ht : text_timing image_paths d td (length (processed_image_clips st))
                 total text_data = (s0, d)).
  { unfold text_timing. rewrite Hidx, Hlen.
    destruct (Z.leb_spec 0 idx); [|lia].
    destruct (Z.ltb_spec idx (Z.of_nat n)); [|lia].
    reflexivity. }
  clearbody s0.
  destruct (text_overlap_bounds d td Hd) as [Ho1 Ho2].
  set (o := text_overlap d td) in *. clearbody o.
  assert (HK : 0 <= inject_Z idx) by (rewrite <- (Zle_Qle 0); lia).
  assert (HN : inject_Z idx + 1 <= inject_Z (Z.of_nat n)).
  { change 1 with (inject_Z 1). rewrite <- inject_Z_plus, <- Zle_Qle. lia. }
  destruct (lookup_lt_is_Some_2 (processed_image_clips st) (Z.to_nat idx))
    as [slide Hslide]; [lia|].
  destruct (start_times_from_uniform d _ Hall 0 _ slide Hslide)
    as (slide_start & Hstart & Estart).
  rewrite Z2Nat.id in Estart by lia.
  set (K := inject_Z idx) in *. set (N := inject_Z (Z.of_nat n)) in *.
  clearbody K N.
  assert (Hko : 0 <= K * o) by (apply Qmult_le_0_compat; assumption).
  assert (Hnd : 0 <= (N - K - 1) * d) by (apply Qmult_le_0_compat; lra).
  assert (Hfit : s0 + d <= total) by (rewrite Hs, Htotal; lra).
  assert (Hg : Py.gtb d 0 = true) by (apply gtb_true; exact Hd).
  unfold process_text. run. rewrite Ht.
  rewrite (leb_false d 0) by exact Hd.
  unfold create_text_clip_with_style. run. rewrite Hg. run.
  rewrite (gtb_false (s0 + d) total) by exact Hfit. run. rewrite Hg. run.
  eexists _, _, slide_start.
  split; [reflexivity|]. split; [reflexivity|]. split; [reflexivity|].
  split; [run; lra|]. split; [exact Hstart|]. run. lra.
Qed.

Lemma indexed_text_leads_its_slide_witness :
  exists c st',
    process_text
      [Scenario.upload "img-a.png"; Scenario.upload "img-b.png";
       Scenario.upload "img-c.png"] 3 1 Scenario.canvas 9
      (mkTextOverlay "third" "Minimal" (Some 2%Z) bottom)
      (snd Scenario.three_slides)
    = (inl tt, st')
    /\ mp.clip_start c == 4.
Proof.
  destruct (indexed_text_leads_its_slide
              [Scenario.upload "img-a.png"; Scenario.upload "img-b.png";
               Scenario.upload "img-c.png"] 3 1 9 Scenario.canvas
              (mkTextOverlay "third" "Minimal" (Some 2%Z) bottom)
              (snd Scenario.three_slides) 2%Z eq_refl)
    as (c & st' & s & E & _ & _ & Hc & _).
  - vm_compute. split; [discriminate | reflexivity].
  - vm_compute. reflexivity.
  - intros [|[|[|j]]] c Hj; vm_compute in Hj; try discriminate;
      injection Hj as <-; reflexivity.
  - reflexivity.
  - reflexivity.
  - exists c, st'. split; [exact E|]. rewrite Hc. reflexivity.
Defined.

End TimelineFacts.

(** ** Looking files up: which match wins, and where *)

Module LookupFacts.
Import Backend Endpoints Reference.

Lemma filter_head_split {A} (p : A -> bool) (l : list A) (x : A) (r : list A) :
  List.filter p l = x :: r ->
  exists before after,
    l = before ++ x :: after /\ p x = true
    /\ forall y, In y before -> p y = false.
Proof.
  induction l as [|a l IH]; simpl; [discriminate|].
  destruct (p a) eqn:E.
  - intros [= -> _]. exists [], l. repeat split; auto. intros y [].
  - intros H. destruct (IH H) as (before & after & -> & Hx & Hb).
    exists (a :: before), after. repeat split; auto.
    intros y [<-|Hy]; auto.
Qed.

Lemma filter_first_match {A} (p : A -> bool) (before after : list A) (x : A) :
  p x = true -> (forall y, In y before -> p y = false) ->
  exists r, List.filter p (before ++ x :: after) = x :: r.
Proof.
  intros Hx. induction before as [|a before IH]; intros Hb; simpl.
  - rewrite Hx. eauto.
  - rewrite (Hb a (or_introl eq_refl)). apply IH. intros y Hy. apply Hb. now right.
Qed.

(** The resolver answers a path exactly when some listed name starts with
    the identifier, and then it is the directory joined with the first
    such name in the order of the listing. *)
Theorem resolve_picks_first_match
    (disk : FS) (file_id directory path : string) :
  resolve_file_id_to_path disk file_id directory = inr path
  <-> exists before f after,
        listdir disk directory = before ++ f :: after
        /\ startswith f file_id = true
        /\ (forall g, In g before -> startswith g file_id = false)
        /\ path = path_join directory f.
Proof.
  unfold resolve_file_id_to_path, os_listdir, listdir.
  destruct (dirs disk !! directory) as [names|]; cbn [default from_option id].
  - split.
    + destruct (List.filter _ _) as [|f r] eqn:E; [discriminate|].
      intros [= <-].
      destruct (filter_head_split _ _ _ _ E) as (before & after & Hl & Hf & Hb).
      exists before, f, after. auto.
    + intros (before & f & after & -> & Hf & Hb & ->).
      destruct (filter_first_match (fun g => startswith g file_id)
                  before after f Hf Hb) as [r ->].
      reflexivity.
  - split; [discriminate|].
    intros (before & f & after & H & _). destruct before; discriminate.
Qed.

Lemma resolve_picks_first_match_witness :
  resolve_file_id_to_path Scenario.disk "music" UPLOAD_DIR
  = inr "uploaded_files/music-10s.mp3".
Proof.
  apply (proj2 (resolve_picks_first_match Scenario.disk "music" UPLOAD_DIR
                  "uploaded_files/music-10s.mp3")).
  exists ["img-a.png"; "img-b.png"; "img-c.png"], "music-10s.mp3",
         ["music-1s.mp3"; "zero.mp3"].
  split; [reflexivity|]. split; [reflexivity|]. split; [|reflexivity].
  intros g [<-|[<-|[<-|[]]]]; reflexivity.
Defined.

(** Line 581: the list of image identifiers resolves as a whole or not at
    all.  It resolves exactly when every identifier resolves in the upload
    directory, to the list of the paths in the same order; otherwise the
    answer is the 404 of the first identifier that does not resolve. *)
Theorem resolve_all_pointwise (disk : FS) (ids : list string) :
  (forall paths,
     resolve_all disk ids = inr paths
     <-> Forall2 (fun i p => resolve_file_id_to_path disk i UPLOAD_DIR = inr p)
                 ids paths)
  /\ (forall e,
        resolve_all disk ids = inl e
        <-> exists before i after,
              ids = before ++ i :: after
              /\ (forall j, In j before ->
                    exists p, resolve_file_id_to_path disk j UPLOAD_DIR = inr p)
              /\ resolve_file_id_to_path disk i UPLOAD_DIR = inl e).
Proof.
  induction ids as [|i ids [IHok IHerr]]; split.
  - intros paths. simpl. split.
    + intros [= <-]. constructor.
    + intros H. inversion H. reflexivity.
  - intros e. simpl. split; [discriminate|].
    intros (before & j & after & H & _). destruct before; discriminate.
  - intros paths. simpl.
    destruct (resolve_file_id_to_path disk i UPLOAD_DIR) as [e|p] eqn:Ei.
    + split; [discriminate|]. intros H. inversion H; subst. congruence.
    + destruct (resolve_all disk ids) as [e|ps] eqn:Er.
      * split; [discriminate|]. intros H. inversion H; subst.
        apply IHok in H4. discriminate.
      * split.
        -- intros [= <-]. constructor; [exact Ei | apply IHok; reflexivity].
        -- intros H. inversion H; subst. apply IHok in H4.
           congruence.
  - intros e. simpl.
    destruct (resolve_file_id_to_path disk i UPLOAD_DIR) as [e'|p] eqn:Ei.
    + split.
      * intros [= <-]. exists [], i, ids. repeat split; auto. intros j [].
      * intros (before & j & after & H & Hb & Hj).
        destruct before as [|b before]; injection H as -> ->.
        -- congruence.
        -- destruct (Hb b (or_introl eq_refl)) as [p Hp]. congruence.
    + destruct (resolve_all disk ids) as [e'|ps] eqn:Er.
      * split.
        -- intros [= <-].
           destruct (proj1 (IHerr e') eq_refl) as (before & j & after & -> & Hb & Hj).
           exists (i :: before), j, after. repeat split; auto.
           intros k [<-|Hk]; eauto.
        -- intros (before & j & after & H & Hb & Hj).
           destruct before as [|b before]; injection H as -> ->.
           ++ congruence.
           ++ f_equal. symmetry.
              assert (H' : inl e' = inl e :> Raised + list string).
              { apply IHerr. exists before, j, after. repeat split; auto.
                intros k Hk. apply Hb. now right. }
              congruence.
      * split; [discriminate|].
        intros (before & j & after & H & Hb & Hj).
        destruct before as [|b before]; injection H as -> ->.
        -- congruence.
        -- assert (H' : inr ps = inl e :> Raised + list string).
           { apply IHerr. exists before, j, after. repeat split; auto.
             intros k Hk. apply Hb. now right. }
           discriminate.
Qed.

Lemma resolve_all_pointwise_witness :
  resolve_all Scenario.disk ["img-b"; "music-1s"]
  = inr ["uploaded_files/img-b.png"; "uploaded_files/music-1s.mp3"].
Proof.
  apply (proj2 (proj1 (resolve_all_pointwise Scenario.disk ["img-b"; "music-1s"])
                  ["uploaded_files/img-b.png"; "uploaded_files/music-1s.mp3"])).
  constructor; [vm_compute; reflexivity|].
  constructor; [vm_compute; reflexivity|].
  constructor.
Defined.

(** The three ways a look-up in one directory ends. *)
Lemma resolve_cases (disk : FS) (file_id directory : string) :
  (dirs disk !! directory = None
   /\ ~ matches disk file_id directory
   /\ resolve_file_id_to_path disk file_id directory
      = inl (Uncaught (FileNotFoundError directory)))
  \/ (is_Some (dirs disk !! directory)
      /\ ~ matches disk file_id directory
      /\ resolve_file_id_to_path disk file_id directory
         = inl (HTTP (mkHTTPException 404 (FileIdNotFound file_id directory))))
  \/ (is_Some (dirs disk !! directory)
      /\ matches disk file_id directory
      /\ exists f, In f (listdir disk directory)
           /\ startswith f file_id = true
           /\ resolve_file_id_to_path disk file_id directory
              = inr (path_join directory f)).
Proof.
  unfold resolve_file_id_to_path, os_listdir, matches, listdir.
  destruct (dirs disk !! directory) as [names|]; cbn [default from_option id].
  - right. destruct (List.filter _ names) as [|g r] eqn:E.
    + left. split; [eauto|]. split; [|reflexivity].
      intros (f & Hin & Hf).
      rewrite (proj1 (Resolve.filter_nil_iff _ _) E f Hin) in Hf. discriminate.
    + right. split; [eauto|].
      assert (Hg : In g (List.filter (fun f => startswith f file_id) names))
        by (rewrite E; left; reflexivity).
      apply filter_In in Hg as [Hin Hp].
      split; exists g; auto.
  - left. split; [reflexivity|]. split; [|reflexivity]. intros (f & [] & _).
Qed.

Lemma resolve_found (disk : FS) (file_id directory : string) :
  matches disk file_id directory ->
  exists f, In f (listdir disk directory) /\ startswith f file_id = true
    /\ resolve_file_id_to_path disk file_id directory
       = inr (path_join directory f).
Proof.
  intros Hm.
  destruct (resolve_cases disk file_id directory)
    as [(_ & Hn & _)|[(_ & Hn & _)|(_ & _ & H)]]; [contradiction.. | exact H].
Qed.

(** Either look-up over the two directories answers its 404 exactly when
    both directories are there and no listed name of either starts with
    the identifier.  Its only other failure is the [FileNotFoundError] of
    the first directory that is missing when its turn comes; no handler
    catches it. *)
Theorem not_found_means_nowhere (disk : FS) (file_id : string) :
  let nowhere :=
    is_Some (dirs disk !! UPLOAD_DIR) /\ is_Some (dirs disk !! OUTPUT_DIR)
    /\ ~ matches disk file_id UPLOAD_DIR /\ ~ matches disk file_id OUTPUT_DIR in
  let missing first second e :=
    (dirs disk !! first = None /\ e = FileNotFoundError first)
    \/ (is_Some (dirs disk !! first) /\ ~ matches disk file_id first
        /\ dirs disk !! second = None /\ e = FileNotFoundError second) in
  (resolve_audio disk file_id
   = inl (HTTP (mkHTTPException 404 (AudioIdNotFound file_id))) <-> nowhere)
  /\ (download_result disk file_id = ResultNotFound file_id <-> nowhere)
  /\ (forall e, resolve_audio disk file_id = inl (Uncaught e)
                <-> missing UPLOAD_DIR OUTPUT_DIR e)
  /\ (forall e, download_result disk file_id = DownloadCrashed e
                <-> missing OUTPUT_DIR UPLOAD_DIR e)
  /\ (forall e, resolve_audio disk file_id = inl (HTTP e) ->
        e = mkHTTPException 404 (AudioIdNotFound file_id)).
Proof.
  intros nowhere missing. subst nowhere missing. cbv beta.
  unfold resolve_audio, download_result.
  destruct (resolve_cases disk file_id UPLOAD_DIR)
    as [(Du & Mu & ->)|[([lu Du] & Mu & ->)|([lu Du] & Mu & fu & _ & _ & ->)]];
    destruct (resolve_cases disk file_id OUTPUT_DIR)
      as [(Do & Mo & ->)|[([lo Do] & Mo & ->)|([lo Do] & Mo & fo & _ & _ & ->)]];
    rewrite ?Du, ?Do;
    repeat split; intros; try discriminate; try congruence;
    repeat match goal with
    | H : _ /\ _ |- _ => destruct H
    | H : _ \/ _ |- _ => destruct H
    | H : is_Some None |- _ => destruct H; discriminate
    | H : Some _ = None |- _ => discriminate
    | H : inl _ = inl _ |- _ => injection H as H; subst
    | H : DownloadCrashed _ = DownloadCrashed _ |- _ => injection H as H; subst
    end;
    try contradiction; try discriminate; try congruence; eauto 8.
Qed.

Lemma not_found_means_nowhere_witness :
  download_result Scenario.disk "video" = ResultNotFound "video".
Proof.
  apply (proj2 (proj1 (proj2 (not_found_means_nowhere Scenario.disk "video")))).
  split; [vm_compute; eauto|]. split; [vm_compute; eauto|].
  split; intros (f & Hin & Hf); vm_compute in Hin;
    repeat (destruct Hin as [<-|Hin]; [discriminate|]); exact Hin.
Defined.

Lemma path_join_upload (f : string) :
  startswith f "/" = false ->
  path_join UPLOAD_DIR f = "uploaded_files/" +:+ f.
Proof. intros H. unfold path_join. rewrite H. reflexivity. Qed.

Lemma path_join_output (f : string) :
  startswith f "/" = false ->
  path_join OUTPUT_DIR f = "processed_outputs/" +:+ f.
Proof. intros H. unfold path_join. rewrite H. reflexivity. Qed.

(** The two look-ups search the directories in opposite orders.  For an
    identifier that matches a name in both directories, the video endpoint
    takes its audio from the upload directory while the download endpoint
    serves the file of the output directory. *)
Theorem same_identifier_two_files (disk : FS) (file_id : string) :
  matches disk file_id UPLOAD_DIR ->
  matches disk file_id OUTPUT_DIR ->
  (forall f, In f (listdir disk UPLOAD_DIR) -> startswith f "/" = false) ->
  (forall f, In f (listdir disk OUTPUT_DIR) -> startswith f "/" = false) ->
  exists uploaded produced,
    In uploaded (listdir disk UPLOAD_DIR)
    /\ In produced (listdir disk OUTPUT_DIR)
    /\ resolve_audio disk file_id = inr ("uploaded_files/" +:+ uploaded)
    /\ download_result disk file_id
       = FileResponse ("processed_outputs/" +:+ produced)
                      (basename ("processed_outputs/" +:+ produced))
    /\ "uploaded_files/" +:+ uploaded <> "processed_outputs/" +:+ produced.
Proof.
  intros Hu Ho Hnu Hno.
  destruct (resolve_found _ _ _ Hu) as (fu & Hinu & _ & Eu).
  destruct (resolve_found _ _ _ Ho) as (fo & Hino & _ & Eo).
  rewrite path_join_upload in Eu by auto.
  rewrite path_join_output in Eo by auto.
  exists fu, fo. unfold resolve_audio, download_result. rewrite Eu, Eo.
  repeat split; auto; discriminate.
Qed.

Lemma same_identifier_two_files_witness :
  resolve_audio Samples.shared_disk "take" = inr "uploaded_files/take.mp4"
  /\ download_result Samples.shared_disk "take"
     = FileResponse "processed_outputs/take.mp3" "take.mp3".
Proof.
  destruct (same_identifier_two_files Samples.shared_disk "take")
    as (u & p & Hu & Hp & Eu & Ep & _).
  - exists "take.mp4". split; [left|]; reflexivity.
  - exists "take.mp3". split; [left|]; reflexivity.
  - intros f [<-|[<-|[]]]; reflexivity.
  - intros f [<-|[]]; reflexivity.
  - destruct Hu as [<-|[<-|[]]]; [|vm_compute in Eu; discriminate].
    destruct Hp as [<-|[]].
    split; [exact Eu|]. rewrite Ep. reflexivity.
Defined.

End LookupFacts.

(** ** Uploading *)

Module UploadFacts.
Import Backend Endpoints Reference.

Lemma append_empty_r (t : string) : t +:+ "" = t.
Proof.
  induction t as [|b t IH]; [reflexivity|].
  change (String b t +:+ "") with (String b (t +:+ "")). now rewrite IH.
Qed.

Lemma substring_empty (s : string) :
  forall n, String.substring n 0 s = "".
Proof. induction s as [|b s IH]; intros [|n]; simpl; auto. Qed.

Lemma substring_halves (s : string) :
  forall n, (n <= String.length s)%nat ->
    String.substring 0 n s
    +:+ String.substring n (String.length s - n) s = s.
Proof.
  induction s as [|a s IH]; intros n Hn.
  - destruct n; reflexivity.
  - destruct n as [|n].
    + cbn [String.substring String.length Nat.sub].
      change ("" +:+ String a (String.substring 0 (String.length s) s))
        with (String a (String.substring 0 (String.length s) s)).
      f_equal. specialize (IH (String.length s) (le_n _)).
      rewrite Nat.sub_diag, substring_empty, append_empty_r in IH. exact IH.
    + cbn [String.substring String.length Nat.sub]. simpl in Hn.
      change (String a (String.substring 0 n s)
              +:+ String.substring n (String.length s - n) s)
        with (String a (String.substring 0 n s
                        +:+ String.substring n (String.length s - n) s)).
      f_equal. apply IH. lia.
Qed.

Lemma substring_at (s : string) :
  forall n c, String.get n s = Some c ->
    exists rest, String.substring n (String.length s - n) s = String c rest.
Proof.
  induction s as [|a s IH]; intros n c Hget; [discriminate|].
  destruct n as [|n].
  - injection Hget as <-. cbn. eauto.
  - cbn in Hget. cbn [String.substring String.length Nat.sub]. apply IH. exact Hget.
Qed.

Lemma get_in_range (s : string) :
  forall n c, String.get n s = Some c -> (n < String.length s)%nat.
Proof.
  induction s as [|a s IH]; intros n c Hget; [discriminate|].
  destruct n as [|n]; simpl; [lia|]. apply IH in Hget. lia.
Qed.

Lemma rfind_from_spec (c : ascii) (s : string) :
  forall i last,
    (0 <= i)%Z ->
    rfind_from c s i last = last
    \/ (i <= rfind_from c s i last)%Z
       /\ String.get (Z.to_nat (rfind_from c s i last - i)) s = Some c.
Proof.
  induction s as [|a s IH]; intros i last Hi; [left; reflexivity|].
  cbn [rfind_from].
  destruct (IH (i + 1)%Z (if Ascii.eqb a c then i else last)) as [E|[Hle Hget]];
    [lia| |].
  - rewrite E. destruct (Ascii.eqb_spec a c) as [->|_]; [|left; reflexivity].
    right. split; [lia|]. rewrite Z.sub_diag. reflexivity.
  - right. split; [lia|].
    replace (Z.to_nat (rfind_from c s (i + 1) (if Ascii.eqb a c then i else last) - i))
      with (S (Z.to_nat (rfind_from c s (i + 1)
                           (if Ascii.eqb a c then i else last) - (i + 1))))
      by lia.
    exact Hget.
Qed.

Lemma rfind_spec (c : ascii) (s : string) :
  rfind c s = (-1)%Z
  \/ (0 <= rfind c s)%Z /\ String.get (Z.to_nat (rfind c s)) s = Some c.
Proof.
  unfold rfind. destruct (rfind_from_spec c s 0 (-1)) as [E|[Hle Hget]];
    [lia | left; exact E | right].
  split; [exact Hle|]. rewrite Z.sub_0_r in Hget. exact Hget.
Qed.

Lemma rfind_lower (c : ascii) (s : string) : (-1 <= rfind c s)%Z.
Proof. destruct (rfind_spec c s) as [->|[H _]]; lia. Qed.

Lemma splitext_extension (p : string) :
  snd (splitext p) = "" \/ exists rest, snd (splitext p) = String "." rest.
Proof.
  unfold splitext.
  destruct (_ && _) eqn:E; cbn [fst snd]; [|left; reflexivity].
  apply andb_true_iff in E as [Hlt _]. apply Z.ltb_lt in Hlt.
  pose proof (rfind_lower "/" p) as Hsep.
  destruct (rfind_spec "." p) as [Hno|[Hdot Hget]]; [lia|].
  right. apply (substring_at p _ _ Hget).
Qed.

(** Splitting a path into root and extension loses nothing, and the
    extension is empty or begins with a dot. *)
Theorem splitext_parts (p : string) :
  fst (splitext p) +:+ snd (splitext p) = p
  /\ (snd (splitext p) = ""
      \/ exists rest, snd (splitext p) = String "." rest).
Proof.
  split; [|apply splitext_extension].
  unfold splitext.
  destruct (_ && _) eqn:E; cbn [fst snd]; [|apply append_empty_r].
  apply andb_true_iff in E as [Hlt _]. apply Z.ltb_lt in Hlt.
  pose proof (rfind_lower "/" p) as Hsep.
  destruct (rfind_spec "." p) as [Hno|[Hdot Hget]]; [lia|].
  unfold slice_to, slice_from.
  apply substring_halves. apply get_in_range in Hget. lia.
Qed.

(** The stored file always carries an extension that begins with a dot:
    the one of the client's file name, or the one of its content type, or
    ".bin". *)
Theorem stored_extension_has_dot (file : Upload.UploadFile) :
  exists rest, file_extension file = String "." rest.
Proof.
  unfold file_extension.
  destruct (splitext_extension (original_filename file)) as [E|[rest E]];
    rewrite E.
  - destruct (Upload.content_type file) as [ct|]; [|eauto].
    repeat (destruct (String.eqb ct _); [eauto|]). eauto.
  - eauto.
Qed.

(** An upload is refused exactly when its size is unknown or above
    50 MiB (52428800 bytes, itself accepted), and a refused upload leaves
    the disk as it was. *)
Theorem upload_size_limit
    (file : Upload.UploadFile) (file_id : string) (pos : nat) (disk : FS) :
  (fst (upload_file file file_id pos disk) = PayloadTooLarge
   <-> Upload.size file = None
       \/ exists n, Upload.size file = Some n /\ (52428800 < n)%N)
  /\ (fst (upload_file file file_id pos disk) = PayloadTooLarge ->
      snd (upload_file file file_id pos disk) = disk).
Proof.
  unfold upload_file.
  change (MAX_FILE_SIZE_MB * 1024 * 1024)%N with 52428800%N.
  destruct (Upload.size file) as [n|]; cbn [fst snd].
  - destruct (N.ltb_spec 52428800 n) as [Hbig|Hok]; cbn [fst snd].
    + split; [|reflexivity]. split; [eauto | reflexivity].
    + destruct (Upload.copy_stops_at file); destruct (creat _ _ _ _);
        cbn [fst snd]; (split; [|discriminate]); (split; [discriminate|]);
        intros [H|(m & [= <-] & Hm)]; solve [discriminate | lia].
  - split; [|reflexivity]. split; [auto | reflexivity].
Qed.

Lemma upload_size_limit_witness :
  snd (upload_file (Upload.mk (Some "big.mp4") (Some 52428801%N)
                      (Some "video/mp4") VideoData None) "id" 0
         Scenario.disk)
  = Scenario.disk.
Proof.
  apply (proj2 (upload_size_limit
                  (Upload.mk (Some "big.mp4") (Some 52428801%N)
                     (Some "video/mp4") VideoData None) "id" 0
                  Scenario.disk)).
  reflexivity.
Defined.

Lemma startswith_append (file_id rest : string) :
  startswith (file_id +:+ rest) file_id = true.
Proof. apply Resolve.startswith_iff. eauto. Qed.

Lemma rfind_from_absent (c : ascii) (s : string) :
  has_char c s = false -> forall i last, rfind_from c s i last = last.
Proof.
  induction s as [|a s IH]; intros H i last; [reflexivity|].
  cbn [has_char] in H. apply orb_false_iff in H as [Ha Hs].
  cbn [rfind_from]. rewrite Ha. apply IH. exact Hs.
Qed.

Lemma substring_all (s : string) : String.substring 0 (String.length s) s = s.
Proof. induction s as [|a s IH]; cbn; [reflexivity | now rewrite IH]. Qed.

Lemma substring_skip (p s : string) :
  String.substring (String.length p)
    (String.length (p +:+ s) - String.length p) (p +:+ s) = s.
Proof.
  induction p as [|a p IH].
  - change ("" +:+ s) with s. cbn [String.length].
    rewrite Nat.sub_0_r. apply substring_all.
  - change (String a p +:+ s) with (String a (p +:+ s)).
    cbn [String.length String.substring Nat.sub]. exact IH.
Qed.

Lemma has_char_startswith (name : string) :
  has_char "/" name = false -> startswith name "/" = false.
Proof.
  intros H. destruct (startswith name "/") eqn:E; [|reflexivity].
  apply Resolve.startswith_iff in E as [suffix ->]. discriminate.
Qed.

(** A name without a slash, joined to the upload directory, is an entry
    of that directory. *)
Lemma upload_path_parts (name : string) :
  has_char "/" name = false ->
  path_join UPLOAD_DIR name = "uploaded_files/" +:+ name
  /\ dirname (path_join UPLOAD_DIR name) = UPLOAD_DIR
  /\ basename (path_join UPLOAD_DIR name) = name.
Proof.
  intros H.
  rewrite (LookupFacts.path_join_upload name (has_char_startswith name H)).
  assert (Hr : rfind "/" ("uploaded_files/" +:+ name) = 14%Z).
  { unfold rfind. cbn -[Z.add]. apply (rfind_from_absent "/" name H). }
  split; [reflexivity|]. unfold dirname, basename. rewrite Hr. split.
  - reflexivity.
  - unfold slice_from.
    change (Z.to_nat (14 + 1)) with (String.length "uploaded_files/").
    apply substring_skip.
Qed.

(** An accepted upload under a fresh identifier (no listed name starts
    with it) can be found again, provided the upload directory takes the
    stored name and the copy runs to the end: the identifier resolves to
    the path the endpoint answers, the bytes are there, every other file
    is untouched and every name listed before is still listed, wherever
    the system puts the new name in the listing. *)
Theorem uploaded_file_is_found
    (file : Upload.UploadFile) (file_id : string) (pos : nat) (disk : FS)
    (n : N) :
  Upload.size file = Some n ->
  (n <= 52428800)%N ->
  Upload.copy_stops_at file = None ->
  ~ matches disk file_id UPLOAD_DIR ->
  storable disk UPLOAD_DIR (file_id +:+ file_extension file) ->
  exists path disk',
    upload_file file file_id pos disk
    = (UploadFileResponse file_id path (original_filename file), disk')
    /\ path = path_join UPLOAD_DIR (file_id +:+ file_extension file)
    /\ resolve_file_id_to_path disk' file_id UPLOAD_DIR = inr path
    /\ files disk' !! path = Some (mkFile n true (Upload.payload file))
    /\ (forall q, q <> path -> files disk' !! q = files disk !! q)
    /\ (forall f, In f (listdir disk UPLOAD_DIR) ->
                  In f (listdir disk' UPLOAD_DIR)).
Proof.
  intros Hsize Hok Hcopy Hfresh
    ([names Hdir] & Hslash & Hvalid & Hnodir & Hfree).
  unfold upload_file. rewrite Hsize, Hcopy.
  change (MAX_FILE_SIZE_MB * 1024 * 1024)%N with 52428800%N.
  destruct (N.ltb_spec 52428800 n) as [Hbig|_]; [lia|].
  set (name := file_id +:+ file_extension file) in *.
  destruct (upload_path_parts name Hslash) as (_ & Hd & Hb).
  set (path := path_join UPLOAD_DIR name) in *.
  assert (Hlisted : listdir disk UPLOAD_DIR = names)
    by (unfold listdir; rewrite Hdir; reflexivity).
  assert (Hnew : name ∉ names).
  { intros Hin. apply Hfresh. exists name. rewrite Hlisted.
    split; [apply list_elem_of_In; exact Hin | apply startswith_append]. }
  assert (Hc : creat pos path (mkFile n true (Upload.payload file)) disk
               = Some {| dirs := <[UPLOAD_DIR :=
                                    take pos names ++ name :: drop pos names]>
                                   (dirs disk);
                         files := <[path := mkFile n true (Upload.payload file)]>
                                    (files disk);
                         refuses := refuses disk |}).
  { unfold creat. rewrite Hd, Hb, Hdir, Hvalid, Hnodir, Hfree.
    rewrite bool_decide_eq_true_2 by reflexivity. cbn [andb].
    unfold listing_add. rewrite bool_decide_eq_false_2 by exact Hnew.
    reflexivity. }
  rewrite Hc. eexists _, _. split; [reflexivity|]. split; [reflexivity|].
  split; [|split; [|split]].
  - unfold resolve_file_id_to_path, os_listdir. cbn [dirs].
    rewrite lookup_insert_eq.
    destruct (LookupFacts.filter_first_match
                (fun f => startswith f file_id)
                (take pos names) (drop pos names) name
                (startswith_append _ _)) as [r ->]; [|reflexivity].
    intros y Hy. destruct (startswith y file_id) eqn:E; [|reflexivity].
    exfalso. apply Hfresh. exists y. rewrite Hlisted. split; [|exact E].
    apply list_elem_of_In. apply list_elem_of_In in Hy.
    apply (subseteq_take pos). exact Hy.
  - cbn [files]. apply lookup_insert_eq.
  - intros q Hq. cbn [files]. apply lookup_insert_ne. congruence.
  - intros f Hf. rewrite Hlisted in Hf. unfold listdir. cbn [dirs].
    rewrite lookup_insert_eq. cbn [default from_option id].
    rewrite <- (take_drop pos names) in Hf.
    apply in_app_iff in Hf as [Hf|Hf]; apply in_app_iff;
      [left | right; right]; exact Hf.
Qed.

Lemma uploaded_file_is_found_witness :
  resolve_file_id_to_path
    (snd (upload_file (Upload.mk (Some "holiday.final.png") (Some 2048%N)
                         (Some "image/png") (ImageData 640 480) None)
            "7f3a" 2 Scenario.disk))
    "7f3a" UPLOAD_DIR
  = inr "uploaded_files/7f3a.png".
Proof.
  destruct (uploaded_file_is_found
              (Upload.mk (Some "holiday.final.png") (Some 2048%N)
                 (Some "image/png") (ImageData 640 480) None)
              "7f3a" 2 Scenario.disk 2048 eq_refl)
    as (path & disk' & E & Hp & Hr & _).
  - discriminate.
  - reflexivity.
  - intros (f & Hin & Hf). vm_compute in Hin.
    repeat (destruct Hin as [<-|Hin]; [discriminate|]). exact Hin.
  - split; [vm_compute; eauto|]. repeat split; reflexivity.
  - rewrite E. cbn [snd]. rewrite Hr, Hp. reflexivity.
Defined.

End UploadFacts.

(** ** Cleaning up old files *)

Module SweepFacts.
Import Backend Endpoints Reference TextFacts.

Section Sweeping.

Variables (now : Q) (getmtime : string -> Q) (locked : string -> bool).
Variable age_in_hours : Z.

Local Abbreviation limit := (cutoff now age_in_hours).
Local Abbreviation step := (sweep_name now getmtime locked age_in_hours).
Local Abbreviation doomed := (doomed now getmtime locked age_in_hours).

(** What one file name does to the files, the count and the errors. *)
Lemma sweep_name_files (d name : string) (s : Sweep) (p : string) :
  files (sweep_disk (step d s name)) !! p
  = if bool_decide (p = path_join d name) && doomed p then None
    else files (sweep_disk s) !! p.
Proof.
  unfold sweep_name, Reference.doomed, isfile.
  destruct (bool_decide_reflect (p = path_join d name)) as [->|Hne];
    cbn [andb].
  - destruct (bool_decide_reflect
                (is_Some (files (sweep_disk s) !! path_join d name)))
      as [Hfile|Hnone]; cbn [andb].
    + destruct (Py.ltb _ _); cbn [andb]; [|reflexivity].
      destruct (locked _); cbn [negb sweep_disk]; [reflexivity|].
      cbn [os_remove files]. apply lookup_delete_eq.
    + assert (files (sweep_disk s) !! path_join d name = None) as ->
        by (destruct (files (sweep_disk s) !! path_join d name);
            [exfalso; apply Hnone; eauto | reflexivity]).
      destruct (_ && _); reflexivity.
  - destruct (_ && _); [|reflexivity].
    destruct (locked _); cbn [sweep_disk]; [reflexivity|].
    cbn [os_remove files]. apply lookup_delete_ne. congruence.
Qed.

Lemma sweep_names_files (d : string) (names : list string) :
  forall (s : Sweep) (p : string),
    files (sweep_disk (fold_left (step d) names s)) !! p
    = if existsb (fun name => bool_decide (p = path_join d name)) names
         && doomed p
      then None else files (sweep_disk s) !! p.
Proof.
  induction names as [|name names IH]; intros s p; cbn [fold_left existsb].
  - reflexivity.
  - rewrite IH, sweep_name_files.
    destruct (existsb _ names), (bool_decide (p = path_join d name)),
             (doomed p); reflexivity.
Qed.

Lemma sweep_name_dirs (d name : string) (s : Sweep) (d' : string) :
  d' <> d ->
  dirs (sweep_disk (step d s name)) !! d' = dirs (sweep_disk s) !! d'.
Proof.
  intros Hne. unfold sweep_name.
  destruct (_ && _); [|reflexivity].
  destruct (locked _); cbn [sweep_disk]; [reflexivity|].
  cbn [os_remove dirs]. apply lookup_insert_ne. congruence.
Qed.

Lemma sweep_names_dirs (d : string) (names : list string) (d' : string) :
  d' <> d ->
  forall s, dirs (sweep_disk (fold_left (step d) names s)) !! d'
            = dirs (sweep_disk s) !! d'.
Proof.
  intros Hne. induction names as [|name names IH]; intros s; cbn [fold_left].
  - reflexivity.
  - rewrite IH. apply sweep_name_dirs. exact Hne.
Qed.

Lemma sweep_directory_files (s : Sweep) (d p : string) :
  files (sweep_disk (sweep_directory now getmtime locked age_in_hours s d)) !! p
  = if existsb (fun name => bool_decide (p = path_join d name))
               (listdir (sweep_disk s) d)
       && doomed p
    then None else files (sweep_disk s) !! p.
Proof.
  unfold sweep_directory, listdir.
  destruct (dirs (sweep_disk s) !! d) as [names|]; cbn [default from_option id].
  - apply sweep_names_files.
  - reflexivity.
Qed.

Lemma sweep_directory_dirs (s : Sweep) (d d' : string) :
  d' <> d ->
  dirs (sweep_disk (sweep_directory now getmtime locked age_in_hours s d)) !! d'
  = dirs (sweep_disk s) !! d'.
Proof.
  intros Hne. unfold sweep_directory.
  destruct (dirs (sweep_disk s) !! d) as [names|]; [|reflexivity].
  apply sweep_names_dirs. exact Hne.
Qed.

Lemma existsb_listed (p d : string) (names : list string) :
  existsb (fun name => bool_decide (p = path_join d name)) names = true
  <-> exists name, In name names /\ p = path_join d name.
Proof.
  rewrite existsb_exists. split; intros (name & Hin & H); exists name;
    (split; [exact Hin|]).
  - apply bool_decide_eq_true in H. exact H.
  - apply bool_decide_eq_true. exact H.
Qed.

Lemma sweep_output_listing (disk : FS) :
  listdir (sweep_disk (sweep_directory now getmtime locked age_in_hours
                         (mkSweep disk 0 []) UPLOAD_DIR)) OUTPUT_DIR
  = listdir disk OUTPUT_DIR.
Proof.
  unfold listdir at 1. rewrite sweep_directory_dirs by discriminate.
  reflexivity.
Qed.

Lemma cleanup_files (disk : FS) (p : string) :
  files (sweep_disk (cleanup_old_files now getmtime locked age_in_hours disk))
    !! p
  = if (existsb (fun name => bool_decide (p = path_join UPLOAD_DIR name))
                (listdir disk UPLOAD_DIR)
        || existsb (fun name => bool_decide (p = path_join OUTPUT_DIR name))
                   (listdir disk OUTPUT_DIR))
       && doomed p
    then None else files disk !! p.
Proof.
  unfold cleanup_old_files. cbn [fold_left].
  rewrite sweep_directory_files, sweep_output_listing, sweep_directory_files.
  cbn [sweep_disk].
  destruct (existsb _ (listdir disk UPLOAD_DIR)),
           (existsb _ (listdir disk OUTPUT_DIR)), (doomed p); reflexivity.
Qed.

Lemma listed_iff (disk : FS) (p : string) :
  existsb (fun name => bool_decide (p = path_join UPLOAD_DIR name))
          (listdir disk UPLOAD_DIR)
  || existsb (fun name => bool_decide (p = path_join OUTPUT_DIR name))
             (listdir disk OUTPUT_DIR) = true
  <-> listed disk p.
Proof.
  unfold listed. rewrite orb_true_iff, !existsb_listed. reflexivity.
Qed.

Lemma doomed_iff (p : string) :
  doomed p = true <-> getmtime p < limit /\ locked p = false.
Proof.
  unfold Reference.doomed. rewrite andb_true_iff, negb_true_iff.
  destruct (PyFacts.ltb_spec (getmtime p) limit); intuition congruence.
Qed.

(** After the clean-up a file is gone exactly when its name was listed in
    one of the two directories, it is older than the cut-off and removing
    it did not fail; every other path holds what it held. *)
Theorem cleanup_removes_exactly_the_old (disk : FS) (p : string) :
  ((listed disk p /\ getmtime p < limit /\ locked p = false) ->
   files (sweep_disk (cleanup_old_files now getmtime locked age_in_hours disk))
     !! p = None)
  /\ (~ (listed disk p /\ getmtime p < limit /\ locked p = false) ->
      files (sweep_disk
               (cleanup_old_files now getmtime locked age_in_hours disk)) !! p
      = files disk !! p).
Proof.
  rewrite cleanup_files.
  pose proof (listed_iff disk p) as Hl. pose proof (doomed_iff p) as Hd.
  destruct (_ || _), (doomed p); cbn [andb]; split; intros H;
    try reflexivity.
  - exfalso. apply H. split; [apply Hl | apply Hd]; reflexivity.
  - destruct H as (_ & H). apply Hd in H. discriminate.
  - destruct H as (H & _). apply Hl in H. discriminate.
  - destruct H as (H & _). apply Hl in H. discriminate.
Qed.

Lemma sweep_name_count (d name : string) (s : Sweep) :
  (files_deleted_count (step d s name)
   + size (files (sweep_disk (step d s name))))%nat
  = (files_deleted_count s + size (files (sweep_disk s)))%nat.
Proof.
  unfold sweep_name, isfile.
  destruct (bool_decide_reflect
              (is_Some (files (sweep_disk s) !! path_join d name)))
    as [Hfile|_]; cbn [andb]; [|reflexivity].
  destruct (Py.ltb _ _); [|reflexivity].
  destruct (locked _); [reflexivity|].
  cbn [files_deleted_count sweep_disk os_remove files].
  rewrite (map_size_delete_Some _ _ Hfile).
  pose proof (map_size_ne_0_lookup_2 _ _ Hfile). lia.
Qed.

Lemma sweep_names_count (d : string) (names : list string) :
  forall s,
    (files_deleted_count (fold_left (step d) names s)
     + size (files (sweep_disk (fold_left (step d) names s))))%nat
    = (files_deleted_count s + size (files (sweep_disk s)))%nat.
Proof.
  induction names as [|name names IH]; intros s; cbn [fold_left].
  - reflexivity.
  - rewrite IH. apply sweep_name_count.
Qed.

Lemma sweep_directory_count (s : Sweep) (d : string) :
  (files_deleted_count (sweep_directory now getmtime locked age_in_hours s d)
   + size (files (sweep_disk
                    (sweep_directory now getmtime locked age_in_hours s d))))%nat
  = (files_deleted_count s + size (files (sweep_disk s)))%nat.
Proof.
  unfold sweep_directory.
  destruct (dirs (sweep_disk s) !! d); [apply sweep_names_count | reflexivity].
Qed.

(** The number reported is the number of files that left the disk. *)
Theorem cleanup_counts_removed_files (disk : FS) :
  (files_deleted_count
     (cleanup_old_files now getmtime locked age_in_hours disk)
   + size (files (sweep_disk
                    (cleanup_old_files now getmtime locked age_in_hours disk))))%nat
  = size (files disk).
Proof.
  unfold cleanup_old_files. cbn [fold_left].
  rewrite !sweep_directory_count. reflexivity.
Qed.

Lemma sweep_name_errors (d name : string) (s : Sweep) (p : string) :
  In p (deletion_errors (step d s name)) ->
  In p (deletion_errors s)
  \/ (locked p = true /\ getmtime p < limit
      /\ is_Some (files (sweep_disk s) !! p)).
Proof.
  unfold sweep_name, isfile.
  destruct (bool_decide_reflect
              (is_Some (files (sweep_disk s) !! path_join d name)))
    as [Hfile|_]; cbn [andb]; [|auto].
  destruct (PyFacts.ltb_spec (getmtime (path_join d name)) limit)
    as [Hold|_]; [|auto].
  destruct (locked (path_join d name)) eqn:Hlock; [|auto].
  cbn [deletion_errors]. rewrite in_app_iff.
  intros [H|[<-|[]]]; auto.
Qed.

Lemma sweep_name_shrinks (d name : string) (s : Sweep) (p : string) :
  is_Some (files (sweep_disk (step d s name)) !! p) ->
  is_Some (files (sweep_disk s) !! p).
Proof.
  rewrite sweep_name_files. destruct (_ && _); [|auto].
  intros [x Hx]. discriminate.
Qed.

Lemma sweep_names_errors (d : string) (names : list string) (disk : FS) :
  forall s,
    (forall q, is_Some (files (sweep_disk s) !! q) ->
               is_Some (files disk !! q)) ->
    forall p,
      In p (deletion_errors (fold_left (step d) names s)) ->
      In p (deletion_errors s)
      \/ (locked p = true /\ getmtime p < limit /\ is_Some (files disk !! p)).
Proof.
  induction names as [|name names IH]; intros s Hsub p; cbn [fold_left];
    [auto|].
  intros H. apply IH in H.
  - destruct H as [H|H]; [|auto].
    apply sweep_name_errors in H as [H|(H1 & H2 & H3)]; auto.
  - intros q Hq. apply Hsub. eapply sweep_name_shrinks. exact Hq.
Qed.

Lemma sweep_names_shrink (d : string) (names : list string) :
  forall s q,
    is_Some (files (sweep_disk (fold_left (step d) names s)) !! q) ->
    is_Some (files (sweep_disk s) !! q).
Proof.
  intros s q. rewrite sweep_names_files. destruct (_ && _); [|auto].
  intros [x Hx]. discriminate.
Qed.

(** Every error reported is for a file that is still there: one that is
    older than the cut-off and could not be removed. *)
Theorem cleanup_errors_are_locked_old_files (disk : FS) (p : string) :
  In p (deletion_errors
          (cleanup_old_files now getmtime locked age_in_hours disk)) ->
  locked p = true /\ getmtime p < limit
  /\ is_Some (files disk !! p)
  /\ files (sweep_disk
              (cleanup_old_files now getmtime locked age_in_hours disk)) !! p
     = files disk !! p.
Proof.
  intros H.
  assert (Hfacts : locked p = true /\ getmtime p < limit
                   /\ is_Some (files disk !! p)).
  { unfold cleanup_old_files in H. cbn [fold_left] in H.
    unfold sweep_directory at 1 in H.
    destruct (dirs (sweep_disk _) !! OUTPUT_DIR) as [outs|].
    - apply (sweep_names_errors OUTPUT_DIR outs disk) in H.
      + destruct H as [H|H]; [|exact H].
        unfold sweep_directory in H. cbn [sweep_disk] in H.
        destruct (dirs disk !! UPLOAD_DIR) as [ups|]; [|destruct H].
        apply (sweep_names_errors UPLOAD_DIR ups disk) in H.
        * destruct H as [[]|H]; exact H.
        * cbn [sweep_disk]. auto.
      + intros q. unfold sweep_directory. cbn [sweep_disk].
        destruct (dirs disk !! UPLOAD_DIR) as [ups|]; [|auto].
        apply sweep_names_shrink.
    - unfold sweep_directory in H. cbn [sweep_disk] in H.
      destruct (dirs disk !! UPLOAD_DIR) as [ups|]; [|destruct H].
      apply (sweep_names_errors UPLOAD_DIR ups disk) in H.
      + destruct H as [[]|H]; exact H.
      + cbn [sweep_disk]. auto. }
  destruct Hfacts as (H1 & H2 & H3). repeat split; auto.
  rewrite cleanup_files. unfold Reference.doomed. rewrite H1.
  cbn [negb]. rewrite !andb_false_r. reflexivity.
Qed.

Lemma sweep_name_listing (d name : string) (s : Sweep) (d' f : string) :
  In f (listdir (sweep_disk (step d s name)) d') ->
  In f (listdir (sweep_disk s) d').
Proof.
  unfold sweep_name.
  destruct (_ && _); [|auto].
  destruct (locked _); cbn [sweep_disk]; [auto|].
  unfold listdir at 1. cbn [os_remove dirs].
  destruct (decide (d = d')) as [<-|Hne].
  - rewrite lookup_insert_eq. cbn [default from_option id].
    intros H. apply filter_In in H as [H _]. exact H.
  - rewrite lookup_insert_ne by exact Hne. auto.
Qed.

Lemma sweep_names_listing (d : string) (names : list string) (d' f : string) :
  forall s,
    In f (listdir (sweep_disk (fold_left (step d) names s)) d') ->
    In f (listdir (sweep_disk s) d').
Proof.
  induction names as [|name names IH]; intros s; cbn [fold_left]; [auto|].
  intros H. apply IH in H. eapply sweep_name_listing. exact H.
Qed.

Lemma sweep_directory_listing (s : Sweep) (d d' f : string) :
  In f (listdir (sweep_disk
                   (sweep_directory now getmtime locked age_in_hours s d)) d') ->
  In f (listdir (sweep_disk s) d').
Proof.
  unfold sweep_directory.
  destruct (dirs (sweep_disk s) !! d); [apply sweep_names_listing | auto].
Qed.

(** A sweep over names none of which is a removable old file does
    nothing to the disk or the count. *)
Lemma sweep_names_idle (d : string) (names : list string) :
  forall s,
    (forall name, In name names ->
       isfile (sweep_disk s) (path_join d name) && doomed (path_join d name)
       = false) ->
    sweep_disk (fold_left (step d) names s) = sweep_disk s
    /\ files_deleted_count (fold_left (step d) names s)
       = files_deleted_count s.
Proof.
  induction names as [|name names IH]; intros s Hidle; cbn [fold_left];
    [auto|].
  assert (Hstep : sweep_disk (step d s name) = sweep_disk s
                  /\ files_deleted_count (step d s name)
                     = files_deleted_count s).
  { pose proof (Hidle name (or_introl eq_refl)) as H.
    unfold sweep_name, Reference.doomed in *.
    destruct (isfile _ _), (Py.ltb _ _), (locked _); cbn in *;
      try discriminate; auto. }
  destruct Hstep as [Hd Hc].
  destruct (IH (step d s name)) as [Hd' Hc'].
  - intros n Hn. rewrite Hd. apply Hidle. now right.
  - split; congruence.
Qed.

Lemma sweep_directory_idle (s : Sweep) (d : string) :
  (forall name, In name (listdir (sweep_disk s) d) ->
     isfile (sweep_disk s) (path_join d name) && doomed (path_join d name)
     = false) ->
  sweep_disk (sweep_directory now getmtime locked age_in_hours s d)
  = sweep_disk s
  /\ files_deleted_count (sweep_directory now getmtime locked age_in_hours s d)
     = files_deleted_count s.
Proof.
  unfold sweep_directory, listdir.
  destruct (dirs (sweep_disk s) !! d) as [names|]; cbn [default from_option];
    [apply sweep_names_idle | auto].
Qed.

(** Cleaning up again at once removes nothing more and leaves the disk as
    the first run left it. *)
Theorem cleanup_again_removes_nothing (disk : FS) :
  let once := cleanup_old_files now getmtime locked age_in_hours disk in
  let twice :=
    cleanup_old_files now getmtime locked age_in_hours (sweep_disk once) in
  files_deleted_count twice = 0%nat /\ sweep_disk twice = sweep_disk once.
Proof.
  intros once twice.
  assert (Hidle : forall d name,
            d = UPLOAD_DIR \/ d = OUTPUT_DIR ->
            In name (listdir (sweep_disk once) d) ->
            isfile (sweep_disk once) (path_join d name)
            && doomed (path_join d name) = false).
  { intros d name Hd Hin.
    destruct (doomed (path_join d name)) eqn:Edoom; [|apply andb_false_r].
    rewrite andb_true_r. unfold isfile. apply bool_decide_eq_false_2.
    assert (Hl : listed disk (path_join d name)).
    { subst once. unfold cleanup_old_files in Hin. cbn [fold_left] in Hin.
      do 2 apply sweep_directory_listing in Hin. cbn [sweep_disk] in Hin.
      destruct Hd as [-> | ->]; [left | right]; eauto. }
    subst once. rewrite cleanup_files.
    apply listed_iff in Hl. rewrite Hl, Edoom. cbn [andb].
    intros [x Hx]. discriminate. }
  subst twice. unfold cleanup_old_files at 1. cbn [fold_left].
  destruct (sweep_directory_idle (mkSweep (sweep_disk once) 0 []) UPLOAD_DIR)
    as [Hd1 Hc1].
  { cbn [sweep_disk]. intros name Hin. apply Hidle; auto. }
  destruct (sweep_directory_idle
              (sweep_directory now getmtime locked age_in_hours
                 (mkSweep (sweep_disk once) 0 []) UPLOAD_DIR) OUTPUT_DIR)
    as [Hd2 Hc2].
  { rewrite Hd1. cbn [sweep_disk]. intros name Hin. apply Hidle; auto. }
  split.
  - etransitivity; [exact Hc2|]. etransitivity; [exact Hc1|]. reflexivity.
  - etransitivity; [exact Hd2|]. etransitivity; [exact Hd1|]. reflexivity.
Qed.

End Sweeping.

Lemma cleanup_removes_exactly_the_old_witness :
  files (sweep_disk
           (cleanup_old_files 10000 (fun _ => 5000) (fun _ => false) 1
              Scenario.disk)) !! "uploaded_files/img-b.png" = None.
Proof.
  apply (proj1 (cleanup_removes_exactly_the_old 10000 (fun _ => 5000)
                  (fun _ => false) 1 Scenario.disk "uploaded_files/img-b.png")).
  split; [|split; reflexivity].
  left. exists "img-b.png". split; [right; left|]; reflexivity.
Defined.

Lemma cleanup_errors_are_locked_old_files_witness :
  is_Some (files Scenario.disk !! "uploaded_files/zero.mp3").
Proof.
  apply (cleanup_errors_are_locked_old_files 10000 (fun _ => 5000)
           (fun p => String.eqb p "uploaded_files/zero.mp3") 1 Scenario.disk
           "uploaded_files/zero.mp3").
  vm_compute. left. reflexivity.
Defined.

End SweepFacts.

(** ** What a request leaves on disk *)

Module OutputFacts.
Import Backend Endpoints Reference SystemFacts.

Lemma has_char_app (c : ascii) (a b : string) :
  has_char c (a +:+ b) = has_char c a || has_char c b.
Proof.
  induction a as [|x a IH]; [reflexivity|].
  change (String x a +:+ b) with (String x (a +:+ b)).
  cbn [has_char]. rewrite IH. apply orb_assoc.
Qed.

(** A name without a slash, joined to the output directory, is an entry
    of that directory. *)
Lemma output_path_parts (name : string) :
  has_char "/" name = false ->
  dirname (path_join OUTPUT_DIR name) = OUTPUT_DIR
  /\ basename (path_join OUTPUT_DIR name) = name.
Proof.
  intros H.
  rewrite (LookupFacts.path_join_output name
             (UploadFacts.has_char_startswith name H)).
  assert (Hr : rfind "/" ("processed_outputs/" +:+ name) = 17%Z).
  { unfold rfind. cbn -[Z.add]. apply (UploadFacts.rfind_from_absent "/" name H). }
  unfold dirname, basename. rewrite Hr. split.
  - reflexivity.
  - unfold slice_from.
    change (Z.to_nat (17 + 1)) with (String.length "processed_outputs/").
    apply UploadFacts.substring_skip.
Qed.

Lemma write_videofile_spares (path : string) (fps : Z) :
  kept (spares path) (write_videofile path fps).
Proof.
  intros st r st'. unfold write_videofile.
  destruct (creat _ _ _ _) as [disk|] eqn:C; intros [= <- <-]; intros q Hq.
  - apply creat_inv in C as (names & _ & _ & _ & _ & Hfiles).
    cbn [fs with_world]. rewrite Hfiles. apply lookup_insert_ne. congruence.
  - reflexivity.
Qed.

Lemma remove_if_exists_spares (path : string) (st : St) :
  spares path st (remove_if_exists path st).
Proof.
  unfold remove_if_exists. intros q Hq.
  destruct (files (fs st) !! path); [|reflexivity].
  destruct (remove_ok st path); [|reflexivity].
  cbn. apply lookup_delete_ne. congruence.
Qed.



Lemma writes_last_bind {A B} (path : string) (fps : Z) (m : M A)
    (k : A -> M B) :
  kept same_world m -> (forall a, writes_last path fps (k a)) ->
  writes_last path fps (m ≫= k).
Proof.
  intros Hm Hk st b st' E.
  apply bind_inl_inv in E as (a & st1 & E1 & E2).
  destruct (Hk a _ _ _ E2) as (st0 & H0 & Hw).
  exists st0. split; [|exact Hw].
  eapply frame_trans; [exact (Hm _ _ _ E1) | exact H0].
Qed.

Lemma writes_last_write (path : string) (fps : Z) :
  writes_last path fps (write_videofile path fps).
Proof.
  intros st [] st' E. exists st. split; [apply frame_refl | exact E].
Qed.

Section Success.

Variables (image_paths : list string) (audio_path output_path : string).
Variables (d td start : Q) (segment : option Q) (fps : Z).
Variable texts : option (list TextOverlay).
Variable video_size : Z * Z.
Variable animations : bool.

Lemma try_block_writes_last :
  writes_last output_path fps
    (try_block image_paths audio_path output_path d td start segment fps
       texts video_size animations).
Proof.
  intros st a st' E. unfold try_block in E. apply try_except_inl_inv in E.
  revert E.
  match goal with
  | |- ?body st = _ -> _ =>
      assert (Hb : writes_last output_path fps body); [|intros E; exact (Hb _ _ _ E)]
  end.
  pose proof (kept_process_image image_paths d td texts video_size animations
                same_world).
  pose proof (kept_process_text image_paths d td video_size same_world).
  pose proof (kept_composite_stage video_size same_world).
  pose proof (kept_audio_stage audio_path start segment same_world).
  unfold write_stage, raise, return_.
  repeat (apply writes_last_bind; [solve [repeat kept_step] | intros ?]).
  apply writes_last_write.
Qed.

(** When the logic function returns [True], the disk it leaves is the one
    it found with the output file created on it. *)
Lemma logic_success_disk (st st' : St) (msg : Message) :
  _create_video_from_images_and_music_logic image_paths audio_path
    output_path d td start segment fps texts video_size animations st
  = (Return true msg, st') ->
  creat (new_name_pos st) output_path (mkFile 1 true VideoData) (fs st)
  = Some (fs st').
Proof.
  unfold _create_video_from_images_and_music_logic.
  destruct (try_block _ _ _ _ _ _ _ _ _ _ _ st) as [[[]|c] st1] eqn:E.
  - intros [= _ <-].
    destruct (try_block_writes_last _ _ _ E) as (st0 & (Hfs & _ & _ & Hpos) & Hw).
    destruct (finally_block_frame same_world st1) as (-> & _).
    unfold write_videofile in Hw. rewrite Hfs, Hpos in Hw.
    destruct (creat _ _ _ _) as [disk|] eqn:C; [|discriminate].
    destruct (encoder_ok st0); [|discriminate].
    injection Hw as <-. exact C.
  - intros [= -> <-].
    pose proof (PipelineFacts.honest_try_block image_paths audio_path
                  output_path d td start segment fps texts video_size
                  animations _ _ _ _ E).
    discriminate.
Qed.

End Success.

(** A video the endpoint answers success for can be fetched: when no
    name listed among the outputs started with the new identifier, the
    download endpoint serves, for the identifier answered, the file at
    the output path, wherever the system has put its name in the
    listing. *)
Theorem created_video_is_served
    (request : Req.CreateVideoFromImagesRequest) (output_video_uuid : string)
    (st st' : St) (video_file_uuid : string) (video_file_path : Message) :
  has_char "/" output_video_uuid = false ->
  ~ matches (fs st) output_video_uuid OUTPUT_DIR ->
  create_video_from_images request output_video_uuid st
  = (CreateVideoFromImagesResponse video_file_uuid video_file_path, st') ->
  download_result (fs st') video_file_uuid
  = FileResponse (path_join OUTPUT_DIR (output_video_uuid +:+ ".mp4"))
                 (output_video_uuid +:+ ".mp4")
  /\ files (fs st') !! path_join OUTPUT_DIR (output_video_uuid +:+ ".mp4")
     = Some (mkFile 1 true VideoData).
Proof.
  intros Hslash Hfresh. unfold create_video_from_images.
  destruct (resolve_all _ _) as [e|paths]; [discriminate|].
  destruct (resolve_audio _ _) as [e|audio]; [discriminate|].
  set (name := output_video_uuid +:+ ".mp4").
  set (out := path_join OUTPUT_DIR name).
  match goal with
  | |- context [_create_video_from_images_and_music_logic ?a ?b ?c ?d ?e
                  ?f ?g ?h ?i ?j ?k st] =>
      destruct (_create_video_from_images_and_music_logic a b c d e f g h i j
                  k st) as [[[|] m|exn] st1] eqn:E; [|discriminate..]
  end.
  intros [= <- _ <-].
  apply logic_success_disk in E.
  pose proof (creat_lookup _ _ _ _ _ E) as Hfile.
  apply creat_inv in E as (names & Hdir & _ & _ & Hdirs & _).
  assert (Hname : has_char "/" name = false).
  { unfold name. rewrite has_char_app, Hslash. reflexivity. }
  destruct (output_path_parts name Hname) as (Hd & Hb). fold out in Hd, Hb.
  rewrite Hd, Hb in Hdirs. rewrite Hd in Hdir.
  assert (Hlisted : listdir (fs st) OUTPUT_DIR = names)
    by (unfold listdir; rewrite Hdir; reflexivity).
  assert (Hnew : name ∉ names).
  { intros Hin. apply Hfresh. exists name. rewrite Hlisted.
    split; [apply list_elem_of_In; exact Hin
           | apply UploadFacts.startswith_append]. }
  split; [|exact Hfile].
  unfold download_result, resolve_file_id_to_path, os_listdir.
  rewrite Hdirs, lookup_insert_eq.
  unfold listing_add. rewrite bool_decide_eq_false_2 by exact Hnew.
  destruct (LookupFacts.filter_first_match
              (fun f => startswith f output_video_uuid)
              (take (new_name_pos st) names) (drop (new_name_pos st) names)
              name (UploadFacts.startswith_append _ _)) as [r ->].
  - intros y Hy. destruct (startswith y output_video_uuid) eqn:Ey; [|reflexivity].
    exfalso. apply Hfresh. exists y. rewrite Hlisted. split; [|exact Ey].
    apply list_elem_of_In. apply list_elem_of_In in Hy.
    apply (subseteq_take (new_name_pos st)). exact Hy.
  - fold out. rewrite Hb. reflexivity.
Qed.

Lemma created_video_is_served_witness :
  download_result
    (fs (snd (create_video_from_images Scenario.two_slide_request "result"
                (initial Scenario.disk true))))
    "result"
  = FileResponse "processed_outputs/result.mp4" "result.mp4".
Proof.
  apply (created_video_is_served Scenario.two_slide_request "result"
           (initial Scenario.disk true)
           (snd (create_video_from_images Scenario.two_slide_request "result"
                   (initial Scenario.disk true)))
           "result" (OutputPath "processed_outputs/result.mp4")).
  - reflexivity.
  - intros (f & [] & _).
  - vm_compute. reflexivity.
Defined.

End OutputFacts.
